(** * mcp-wallet-bsv: the payment construction pipeline

    A shallow embedding of the wallet's core modules and the properties
    its specification states about them.

    - [TransactionBuilder]  src/bsv/transaction-builder.ts
    - [NetworkClient]       src/bsv/network-client.ts
    - [PaymentCreator]      src/x402/payment-creator.ts
    - [WalletCrypto]        src/wallet/crypto.ts

    [Js], [Heap], [Base64] and [Json] model what these modules use of
    JavaScript and Node: errors, arrays, [Buffer] and [JSON].

    Satoshi amounts are integers ([Z]) and the fee rate is a rational
    ([Q]); the arithmetic of the model is exact, so it agrees with the
    program wherever double precision is exact (amounts below 2^53, rates
    such as 0.5).  Strings are byte strings: a text whose code units are
    all below 128 is represented exactly, other texts by their UTF-8
    bytes.  An exception is a [Throw] completion carrying the message of
    the [Error].  Arrays are mutable objects: they live in a heap and are
    passed by reference.  The remote source, the @bsv/sdk classes and the
    primitives of Node's [crypto] are parameters.

    The definitions come first; the properties follow from
    "Properties" on. *)

From Stdlib Require Import ZArith QArith Qround Ascii String.
From stdpp Require Import gmap strings list sorting pretty.

Local Open Scope Z_scope.
Set Warnings "-register-all".

(** ** JavaScript prelude *)

Module Js.

(** [new Error(message)] *)
Record JsError : Type := Error { message : string }.

(** How a call ends: with a value, or with a thrown error. *)
Inductive completion (A : Type) : Type :=
| Return (a : A)
| Throw (e : JsError).
Global Arguments Return {A} a.
Global Arguments Throw {A} e.

Definition is_thrown {A} (c : completion A) : bool :=
  match c with Return _ => false | Throw _ => true end.

(** Sequencing: the rest runs on the value, a thrown error propagates. *)
Definition and_then {A B} (c : completion A) (k : A → completion B) : completion B :=
  match c with
  | Return a => k a
  | Throw e => Throw e
  end.

(** [try { c } catch (error) { throw new Error(prefix + error.message) }] *)
Definition rethrow {A} (prefix : string) (c : completion A) : completion A :=
  match c with
  | Return a => Return a
  | Throw e => Throw (Error (prefix +:+ message e))
  end.

(** [String.prototype.startsWith] and [String.prototype.includes] *)
Fixpoint startsWith (s needle : string) {struct needle} : bool :=
  match needle, s with
  | EmptyString, _ => true
  | String c needle', String d s' => if Ascii.eqb c d then startsWith s' needle' else false
  | String _ _, EmptyString => false
  end.

Fixpoint includes (s needle : string) : bool :=
  if startsWith s needle then true
  else match s with
       | EmptyString => false
       | String _ s' => includes s' needle
       end.

Definition is_space (c : ascii) : bool :=
  let n := nat_of_ascii c in
  (n =? 32)%nat || ((9 <=? n)%nat && (n <=? 13)%nat).

Fixpoint trim_start (s : string) : string :=
  match s with
  | String c s' => if is_space c then trim_start s' else s
  | EmptyString => EmptyString
  end.

Fixpoint trim_end (s : string) : string :=
  match s with
  | String c s' =>
      match trim_end s' with
      | EmptyString => if is_space c then EmptyString else String c EmptyString
      | t => String c t
      end
  | EmptyString => EmptyString
  end.

(** [String.prototype.trim], on ASCII white space. *)
Definition trim (s : string) : string := trim_end (trim_start s).

(** Template literal interpolation of an integer-valued number. *)
Definition show (n : Z) : string := pretty n.

End Js.
Export Js.

(** ** Arrays on the heap *)

Module Heap.
Section Arrays.
Context {T : Type}.

Definition loc : Type := positive.

(** Computations that read and write arrays and may throw. *)
Definition M (A : Type) : Type :=
  gmap loc (list T) → completion A * gmap loc (list T).

Definition ret {A} (a : A) : M A := λ h, (Return a, h).
Definition throw {A} (e : JsError) : M A := λ h, (Throw e, h).
Definition bind {A B} (m : M A) (k : A → M B) : M B :=
  λ h, match m h with
       | (Return a, h') => k a h'
       | (Throw e, h') => (Throw e, h')
       end.

(** [try { m } catch (error) { handler(error) }] *)
Definition try_catch {A} (m : M A) (handler : JsError → M A) : M A :=
  λ h, match m h with
       | (Return a, h') => (Return a, h')
       | (Throw e, h') => handler e h'
       end.

(** A new array object holding [l]: array literals and spreads. *)
Definition new_array (l : list T) : M loc :=
  λ h, let a := fresh (dom h) in (Return a, <[a := l]> h).

(** The elements of the array at [a].  Every reference a program holds
    is allocated; the [None] branch only makes the model total. *)
Definition elements_of (a : loc) : M (list T) :=
  λ h, match h !! a with
       | Some l => (Return l, h)
       | None => (Throw (Error "dangling array reference"), h)
       end.

Definition array_length (a : loc) : M nat :=
  bind (elements_of a) (λ l, ret (length l)).

(** [a.push(x)] *)
Definition push (a : loc) (x : T) : M unit :=
  bind (elements_of a) (λ l h, (Return tt, <[a := l ++ [x]]> h)).

(** [Array.prototype.sort(compareFn)] sorts the array in place and is
    stable: an element moves in front of another only when the
    comparator says it must. *)
Fixpoint sort_insert (compareFn : T → T → Z) (x : T) (l : list T) : list T :=
  match l with
  | [] => [x]
  | y :: l' => if compareFn x y <=? 0 then x :: y :: l'
               else y :: sort_insert compareFn x l'
  end.

Definition sorted_by (compareFn : T → T → Z) (l : list T) : list T :=
  foldr (sort_insert compareFn) [] l.

Definition sort (a : loc) (compareFn : T → T → Z) : M unit :=
  bind (elements_of a) (λ l h, (Return tt, <[a := sorted_by compareFn l]> h)).

End Arrays.
Global Arguments M : clear implicits.
End Heap.
Export Heap.

Notation "'let*' x ':=' m 'in' k" := (Heap.bind m (λ x, k))
  (at level 10, x binder, m at level 100, k at level 200).

(** ** Shared types (src/types/index.ts) *)

Inductive Network : Type := mainnet | testnet.

Record UTXOWithSource : Type := {
  txid : string;
  vout : Z;
  value : Z;
  height : option Z;
  sourceTransactionHex : string;
}.

(** ** Transaction builder (src/bsv/transaction-builder.ts) *)

Module TransactionBuilder.

(** [SelectedUTXOs]; [utxos] is a reference to the array of the
    selected outputs. *)
Record SelectedUTXOs : Type := {
  utxos : loc;
  totalValue : Z;
  change : Z;
  fee : Z;
}.

(** The value of the [feeRate] parameters when the caller leaves them
    out. *)
Definition default_feeRate : Q := 1 # 2.

Definition headerSize : Z := 10.
Definition inputSize : Z := 148.
Definition outputSize : Z := 34.

Definition estimateFee (numInputs numOutputs : Z) (feeRate : Q) : Z :=
  let estimatedSize := headerSize + numInputs * inputSize + numOutputs * outputSize in
  Qceiling (inject_Z estimatedSize * feeRate).

(** The comparator [(a, b) => b.value - a.value]. *)
Definition largest_first (a b : UTXOWithSource) : Z := value b - value a.

Definition insufficient_funds (minRequired totalValue : Z) : JsError :=
  Error ("Fondos insuficientes. Necesitas " +:+ show minRequired +:+
         " satoshis, pero solo tienes " +:+ show totalValue +:+
         " satoshis disponibles").

(** The [for (const utxo of sortedUTXOs)] loop of [selectUTXOs], over the
    elements still to visit.  [inl] is the [return] inside the loop,
    [inr] the value of [totalValue] when the loop runs to its end. *)
Fixpoint select_loop (selectedUTXOs : loc) (amount : Z) (feeRate : Q)
    (rest : list UTXOWithSource) (totalValue : Z)
    : M UTXOWithSource (SelectedUTXOs + Z) :=
  match rest with
  | [] => ret (inr totalValue)
  | utxo :: rest' =>
      let* _ := push selectedUTXOs utxo in
      let totalValue := totalValue + value utxo in
      let* n := array_length selectedUTXOs in
      let estimatedFee := estimateFee (Z.of_nat n) 2 feeRate in
      if amount + estimatedFee <=? totalValue then
        let change := totalValue - amount - estimatedFee in
        ret (inl {| utxos := selectedUTXOs; totalValue := totalValue;
                    change := change; fee := estimatedFee |})
      else select_loop selectedUTXOs amount feeRate rest' totalValue
  end.

Definition selectUTXOs (utxos : loc) (amount : Z) (feeRate : Q)
    : M UTXOWithSource SelectedUTXOs :=
  let* n := array_length utxos in
  if (n =? 0)%nat then throw (Error "No hay UTXOs disponibles") else
  let* spread := elements_of utxos in
  let* sortedUTXOs := new_array spread in
  let* _ := sort sortedUTXOs largest_first in
  let* selectedUTXOs := new_array [] in
  let* sorted := elements_of sortedUTXOs in
  let* r := select_loop selectedUTXOs amount feeRate sorted 0 in
  match r with
  | inl selected => ret selected
  | inr totalValue =>
      let* n := array_length selectedUTXOs in
      let minRequired := amount + estimateFee (Z.of_nat n) 2 feeRate in
      throw (insufficient_funds minRequired totalValue)
  end.

(** The sum of the values of a list of outputs. *)
Definition total_value (l : list UTXOWithSource) : Z :=
  foldr (λ u acc, value u + acc) 0 l.

(** *** buildTransaction

    The @bsv/sdk classes are taken as parameters: parsing a parent
    transaction, building a locking script and signing may each throw. *)
Section Sdk.
Context {PrivateKey SourceTransaction Script : Type}.
Variable Transaction_fromHex : string → completion SourceTransaction.
Variable P2PKH_lock : string → completion Script.
Variable toAddress : PrivateKey → option string → string.

Record TransactionInput : Type := {
  spent : UTXOWithSource;
  sourceTransaction : SourceTransaction;
  sourceOutputIndex : Z;
  unlockingKey : PrivateKey;
  sequence : Z;
}.

Record TransactionOutput : Type := {
  lockingScript : Script;
  satoshis : Z;
}.

Record Transaction : Type := {
  inputs : list TransactionInput;
  outputs : list TransactionOutput;
  unlockingScripts : option (list Script);
}.

Variable Transaction_sign : Transaction → completion (list Script).

(** The sum of the values a transaction produces, and of those it
    consumes (as the indexer reported them). *)
Definition output_total (tx : Transaction) : Z :=
  foldr (λ o acc, satoshis o + acc) 0 (outputs tx).

Definition input_total (tx : Transaction) : Z :=
  total_value (spent <$> inputs tx).

Record BuildTxParams : Type := {
  privateKey : PrivateKey;
  params_utxos : loc;
  payToAddress : string;
  amount : Z;
  changeAddress : option string;
  feeRate : option Q;
  network : Network;
}.

Definition lift {A} (c : completion A) : M UTXOWithSource A :=
  match c with Return a => ret a | Throw e => throw e end.

Definition addInput (tx : Transaction) (i : TransactionInput) : Transaction :=
  {| inputs := inputs tx ++ [i]; outputs := outputs tx;
     unlockingScripts := unlockingScripts tx |}.

Definition addOutput (tx : Transaction) (o : TransactionOutput) : Transaction :=
  {| inputs := inputs tx; outputs := outputs tx ++ [o];
     unlockingScripts := unlockingScripts tx |}.

(** The [for (const utxo of selected.utxos)] loop. *)
Fixpoint add_inputs (privateKey : PrivateKey) (tx : Transaction)
    (selected : list UTXOWithSource) : M UTXOWithSource Transaction :=
  match selected with
  | [] => ret tx
  | utxo :: rest =>
      let* sourceTransaction := lift (Transaction_fromHex (sourceTransactionHex utxo)) in
      add_inputs privateKey
        (addInput tx {| spent := utxo;
                        sourceTransaction := sourceTransaction;
                        sourceOutputIndex := vout utxo;
                        unlockingKey := privateKey;
                        sequence := 0xffffffff |})
        rest
  end.

(** [changeAddress || <the address of the key>]: an absent or empty
    string is falsy. *)
Definition change_address (p : BuildTxParams) : string :=
  match changeAddress p with
  | Some a => if String.eqb a "" then
                toAddress (privateKey p)
                  (match network p with testnet => Some "testnet" | mainnet => None end)
              else a
  | None => toAddress (privateKey p)
              (match network p with testnet => Some "testnet" | mainnet => None end)
  end.

Definition buildTransaction (params : BuildTxParams) : M UTXOWithSource Transaction :=
  let feeRate := default default_feeRate (feeRate params) in
  try_catch
    (if amount params <=? 0 then throw (Error "El monto debe ser mayor a 0") else
     let* n := array_length (params_utxos params) in
     if (n =? 0)%nat then throw (Error "No hay UTXOs disponibles") else
     let* selected := selectUTXOs (params_utxos params) (amount params) feeRate in
     let tx := {| inputs := []; outputs := []; unlockingScripts := None |} in
     let* selected_utxos := elements_of (utxos selected) in
     let* tx := add_inputs (privateKey params) tx selected_utxos in
     let* payScript := lift (P2PKH_lock (payToAddress params)) in
     let tx := addOutput tx {| lockingScript := payScript; satoshis := amount params |} in
     let* tx :=
       if 0 <? change selected then
         let changeAddr := change_address params in
         let* changeScript := lift (P2PKH_lock changeAddr) in
         ret (addOutput tx {| lockingScript := changeScript; satoshis := change selected |})
       else ret tx in
     let* scripts := lift (Transaction_sign tx) in
     ret {| inputs := inputs tx; outputs := outputs tx;
            unlockingScripts := Some scripts |})
    (λ error, throw (Error ("Error al construir transacción: " +:+ message error))).

End Sdk.

End TransactionBuilder.

(** ** Chain data client (src/bsv/network-client.ts) *)

Module NetworkClient.

Record RetryConfig : Type := {
  maxRetries : Z;
  initialDelayMs : Z;
  maxDelayMs : Z;
}.

Definition DEFAULT_RETRY_CONFIG : RetryConfig :=
  {| maxRetries := 3; initialDelayMs := 1000; maxDelayMs := 10000 |}.

Record BroadcastResult : Type := {
  success : bool;
  result_txid : option string;
  error : option string;
}.

Definition getBackoffDelay (attempt : nat) (config : RetryConfig) : Z :=
  let delay := initialDelayMs config * 2 ^ Z.of_nat attempt in
  Z.min delay (maxDelayMs config).

(** The body of an error response: a text, some other truthy value (a
    parsed JSON object), or nothing (absent, or the empty text). *)
Inductive ResponseData : Type :=
| DataText (s : string)
| DataObject
| DataAbsent.

Record ErrorResponse : Type := {
  status : Z;
  data : ResponseData;
}.

(** [AxiosError]: [response] is absent when no response was received. *)
Record AxiosError : Type := {
  response : option ErrorResponse;
  axios_message : string;
}.

(** What a [catch] clause receives. *)
Inductive Thrown : Type :=
| IsAxiosError (e : AxiosError)
| OtherError (e : JsError).

(** How [await axios.get(url)] or [await axios.post(...)] ends. *)
Inductive Reply (D : Type) : Type :=
| Fulfilled (status : Z) (body : D)
| Rejected (t : Thrown).
Global Arguments Fulfilled {D} status body.
Global Arguments Rejected {D} t.

Definition isRetryableError (error : AxiosError) : bool :=
  match response error with
  | None => true
  | Some r =>
      if 500 <=? status r then true
      else if status r =? 429 then true
      else false
  end.

(** [error.response?.status === 404] *)
Definition is_404 (error : AxiosError) : bool :=
  match response error with
  | Some r => status r =? 404
  | None => false
  end.

(** The number of iterations [for (attempt = 0; attempt <= maxRetries;
    attempt++)] can make. *)
Definition iterations (config : RetryConfig) : nat :=
  Z.to_nat (maxRetries config + 1).

(** *** The read operations

    The five read operations share one loop and differ in what they make
    of a 200 response, in whether they treat a 404 apart, and in their
    messages. *)
Record ReadOperation (D R : Type) : Type := {
  on_200 : D → R;
  on_404 : option (completion R);
  failure_prefix : string;
  after_loop : string;
}.
Global Arguments on_200 {D R} _ _.
Global Arguments on_404 {D R} _.
Global Arguments failure_prefix {D R} _.
Global Arguments after_loop {D R} _.

(** The [try] block of one iteration: the value returned, or what is
    thrown to the [catch] clause. *)
Definition try_request {D R} (op : ReadOperation D R) (reply : Reply D)
    : R + Thrown :=
  match reply with
  | Fulfilled st body =>
      if st =? 200 then inl (on_200 op body)
      else inr (OtherError (Error ("Unexpected status: " +:+ show st)))
  | Rejected t => inr t
  end.

(** The loop, from iteration [attempt] on, with [fuel] iterations left;
    [slept] lists the delays waited so far. *)
Fixpoint read_loop {D R} (op : ReadOperation D R) (config : RetryConfig)
    (remote : nat → Reply D) (fuel attempt : nat) (slept : list Z)
    : completion R * list Z :=
  match fuel with
  | O => (Throw (Error (after_loop op)), slept)
  | S fuel' =>
      match try_request op (remote attempt) with
      | inl r => (Return r, slept)
      | inr (IsAxiosError error) =>
          match (if is_404 error then on_404 op else None) with
          | Some c => (c, slept)
          | None =>
              if isRetryableError error && (Z.of_nat attempt <? maxRetries config)
              then
                let delay := getBackoffDelay attempt config in
                read_loop op config remote fuel' (S attempt) (slept ++ [delay])
              else
                (Throw (Error (failure_prefix op +:+ axios_message error)), slept)
          end
      | inr (OtherError e) =>
          (Throw (Error (failure_prefix op +:+ message e)), slept)
      end
  end.

Definition read {D R} (op : ReadOperation D R) (config : RetryConfig)
    (remote : nat → Reply D) : completion R * list Z :=
  read_loop op config remote (iterations config) 0 [].

Record UTXO : Type := {
  utxo_txid : string;
  utxo_vout : Z;
  utxo_value : Z;
  utxo_satoshis : Z;
  utxo_height : Z;
  utxo_tx_pos : Z;
}.

Record Unspent : Type := {
  tx_hash : string;
  tx_pos : Z;
  unspent_value : Z;
  unspent_height : Z;
}.

Record HistoryEntry : Type := {
  history_tx_hash : string;
  history_height : Z;
  history_tx_pos : Z;
}.

Section Client.
(** The client's state: its network picks [baseUrl]; [axios_get] and
    [axios_post] give, for a URL, the reply to each successive request. *)
Variable network : Network.
Variable retryConfig : RetryConfig.

Definition baseUrl : string :=
  match network with
  | testnet => "https://api.whatsonchain.com/v1/bsv/test"
  | mainnet => "https://api.whatsonchain.com/v1/bsv/main"
  end.

Definition getUTXOs_op : ReadOperation (list Unspent) (list UTXO) :=
  {| on_200 := map (λ utxo,
       {| utxo_txid := tx_hash utxo; utxo_vout := tx_pos utxo;
          utxo_value := unspent_value utxo; utxo_satoshis := unspent_value utxo;
          utxo_height := unspent_height utxo; utxo_tx_pos := tx_pos utxo |});
     on_404 := Some (Return []);
     failure_prefix := "Error al obtener UTXOs: ";
     after_loop := "Max retries excedido al obtener UTXOs" |}.

Definition getUTXOs (axios_get : string → nat → Reply (list Unspent))
    (address : string) : completion (list UTXO) * list Z :=
  let url := baseUrl +:+ "/address/" +:+ address +:+ "/unspent" in
  read getUTXOs_op retryConfig (axios_get url).

Definition getTransactionHex_op (txid : string) : ReadOperation string string :=
  {| on_200 := trim;
     on_404 := Some (Throw (Error ("Transacción no encontrada: " +:+ txid)));
     failure_prefix := "Error al obtener transacción: ";
     after_loop := "Max retries excedido al obtener transacción" |}.

Definition getTransactionHex (axios_get : string → nat → Reply string)
    (txid : string) : completion string * list Z :=
  let url := baseUrl +:+ "/tx/" +:+ txid +:+ "/hex" in
  read (getTransactionHex_op txid) retryConfig (axios_get url).

Definition getTransactionHistory_op (limit : option Z)
    : ReadOperation (list HistoryEntry) (list HistoryEntry) :=
  {| on_200 := λ txs,
       match limit with
       | Some n => if (negb (n =? 0)) && (0 <? n) then take (Z.to_nat n) txs else txs
       | None => txs
       end;
     on_404 := Some (Return []);
     failure_prefix := "Error al obtener historial de transacciones: ";
     after_loop := "Max retries excedido al obtener historial de transacciones" |}.

Definition getTransactionHistory (axios_get : string → nat → Reply (list HistoryEntry))
    (address : string) (limit : option Z)
    : completion (list HistoryEntry) * list Z :=
  let url := baseUrl +:+ "/address/" +:+ address +:+ "/history" in
  read (getTransactionHistory_op limit) retryConfig (axios_get url).

Definition getTransactionDetails_op {Details : Type} (txid : string)
    : ReadOperation Details Details :=
  {| on_200 := λ details, details;
     on_404 := Some (Throw (Error ("Transacción no encontrada: " +:+ txid)));
     failure_prefix := "Error al obtener detalles de transacción: ";
     after_loop := "Max retries excedido al obtener detalles de transacción" |}.

Definition getTransactionDetails {Details : Type}
    (axios_get : string → nat → Reply Details) (txid : string)
    : completion Details * list Z :=
  let url := baseUrl +:+ "/tx/hash/" +:+ txid in
  read (getTransactionDetails_op txid) retryConfig (axios_get url).

(** The [blocks] field of the chain info is all the client reads. *)
Definition getCurrentBlockHeight_op : ReadOperation Z Z :=
  {| on_200 := λ blocks, blocks;
     on_404 := None;
     failure_prefix := "Error al obtener altura del bloque: ";
     after_loop := "Max retries excedido al obtener altura del bloque" |}.

Definition getCurrentBlockHeight (axios_get : string → nat → Reply Z)
    : completion Z * list Z :=
  let url := baseUrl +:+ "/chain/info" in
  read getCurrentBlockHeight_op retryConfig (axios_get url).

(** *** broadcastTransaction *)

(** [error.response?.data || error.message], when it is a string. *)
Definition errorMessage (error : AxiosError) : option string :=
  match response error with
  | Some r =>
      match data r with
      | DataText s => Some (if String.eqb s "" then axios_message error else s)
      | DataObject => None
      | DataAbsent => Some (axios_message error)
      end
  | None => Some (axios_message error)
  end.

Definition already_broadcast (errorMessage : string) : bool :=
  includes errorMessage "Transaction already in the mempool" ||
  includes errorMessage "txn-already-known" ||
  includes errorMessage "Transaction already exists" ||
  includes errorMessage "already in block chain".

Definition inputs_missing_or_spent (errorMessage : string) : bool :=
  includes errorMessage "Missing inputs" ||
  includes errorMessage "bad-txns-inputs-spent" ||
  includes errorMessage "txn-mempool-conflict".

Definition failure (errorText : string) : BroadcastResult :=
  {| success := false; result_txid := None; error := Some errorText |}.

Definition try_post (reply : Reply string) : BroadcastResult + Thrown :=
  match reply with
  | Fulfilled st body =>
      if st =? 200 then
        inl {| success := true; result_txid := Some (trim body); error := None |}
      else inr (OtherError (Error ("Unexpected status: " +:+ show st)))
  | Rejected t => inr t
  end.

Fixpoint broadcast_loop (remote : nat → Reply string) (fuel attempt : nat)
    (slept : list Z) : completion BroadcastResult * list Z :=
  match fuel with
  | O => (Return (failure "Max retries excedido"), slept)
  | S fuel' =>
      match try_post (remote attempt) with
      | inl r => (Return r, slept)
      | inr (IsAxiosError error) =>
          let errorMessage := errorMessage error in
          if match errorMessage with Some m => already_broadcast m | None => false end
          then (Return (failure "Transacción ya fue broadcast"), slept)
          else if match errorMessage with Some m => inputs_missing_or_spent m | None => false end
          then (Return (failure (default "" errorMessage)), slept)
          else if isRetryableError error && (Z.of_nat attempt <? maxRetries retryConfig)
          then
            let delay := getBackoffDelay attempt retryConfig in
            broadcast_loop remote fuel' (S attempt) (slept ++ [delay])
          else (Return (failure (default "Error al broadcast" errorMessage)), slept)
      | inr (OtherError e) => (Return (failure (message e)), slept)
      end
  end.

Definition broadcastTransaction (axios_post : string → string → nat → Reply string)
    (txHex : string) : completion BroadcastResult * list Z :=
  let url := baseUrl +:+ "/tx/raw" in
  broadcast_loop (axios_post url txHex) (iterations retryConfig) 0 [].

End Client.

(** *** Vocabulary for the retry policy *)

(** A reply after which a read is tried again while attempts remain: a
    rejection with a retryable [AxiosError]. *)
Definition transient {D} (reply : Reply D) : bool :=
  match reply with
  | Rejected (IsAxiosError error) => isRetryableError error
  | _ => false
  end.

(** The delays waited before retries number 0 to [k - 1]. *)
Definition backoff_delays (config : RetryConfig) (k : nat) : list Z :=
  (λ attempt, getBackoffDelay attempt config) <$> seq 0 k.

(** How a read ends on a reply that is not followed by a retry. *)
Definition settle {D R} (op : ReadOperation D R) (reply : Reply D) : completion R :=
  match try_request op reply with
  | inl r => Return r
  | inr (IsAxiosError error) =>
      match (if is_404 error then on_404 op else None) with
      | Some c => c
      | None => Throw (Error (failure_prefix op +:+ axios_message error))
      end
  | inr (OtherError e) => Throw (Error (failure_prefix op +:+ message e))
  end.

(** The rejection texts that [broadcastTransaction] answers without
    consulting the retry policy. *)
Definition classified (error : AxiosError) : bool :=
  match errorMessage error with
  | Some m => already_broadcast m || inputs_missing_or_spent m
  | None => false
  end.

Definition transient_post (reply : Reply string) : bool :=
  match reply with
  | Rejected (IsAxiosError error) => negb (classified error) && isRetryableError error
  | _ => false
  end.

(** How a broadcast ends on a reply that is not followed by a retry. *)
Definition settle_post (reply : Reply string) : BroadcastResult :=
  match try_post reply with
  | inl r => r
  | inr (IsAxiosError error) =>
      match errorMessage error with
      | Some m =>
          if already_broadcast m then failure "Transacción ya fue broadcast"
          else failure m
      | None => failure "Error al broadcast"
      end
  | inr (OtherError e) => failure (message e)
  end.

End NetworkClient.

(** ** Buffers and their base64 text (Node's [Buffer]) *)

Module Base64.

(** A [Buffer] is a sequence of bytes.  [Buffer.from(s, 'utf8')] and
    [buf.toString('utf8')] convert between a string and its bytes. *)
Definition Buffer : Type := list ascii.

Definition from_utf8 (s : string) : Buffer := list_ascii_of_string s.
Definition toString_utf8 (b : Buffer) : string := string_of_list_ascii b.

(** Six bits, most significant first. *)
Inductive sextet : Type := Sextet (b5 b4 b3 b2 b1 b0 : bool).

Definition alphabet : list ascii :=
  list_ascii_of_string
    "ABCDEFGHIJKLMNOPQRSTUVWXYZabcdefghijklmnopqrstuvwxyz0123456789+/".

Definition pad : ascii := "="%char.

Definition sextet_index (s : sextet) : nat :=
  let bit (b : bool) (w : nat) : nat := if b then w else 0%nat in
  match s with
  | Sextet b5 b4 b3 b2 b1 b0 =>
      (bit b5 32 + bit b4 16 + bit b3 8 + bit b2 4 + bit b1 2 + bit b0 1)%nat
  end.

Definition sextet_of_index (n : nat) : sextet :=
  Sextet (Nat.testbit n 5) (Nat.testbit n 4) (Nat.testbit n 3)
         (Nat.testbit n 2) (Nat.testbit n 1) (Nat.testbit n 0).

Definition char_of_sextet (s : sextet) : ascii :=
  nth (sextet_index s) alphabet pad.

Fixpoint position (c : ascii) (l : list ascii) (i : nat) : option nat :=
  match l with
  | [] => None
  | d :: l' => if Ascii.eqb c d then Some i else position c l' (S i)
  end.

(** The decoder also reads the URL-safe letters [-] and [_]. *)
Definition sextet_of_char (c : ascii) : option sextet :=
  match position c alphabet 0 with
  | Some i => Some (sextet_of_index i)
  | None =>
      if Ascii.eqb c "-" then Some (sextet_of_index 62)
      else if Ascii.eqb c "_" then Some (sextet_of_index 63)
      else None
  end.

(** Bytes to six-bit groups; a last group that is not full is filled with
    zero bits. *)
Fixpoint sextets_of (bytes : Buffer) : list sextet :=
  match bytes with
  | Ascii a0 a1 a2 a3 a4 a5 a6 a7 :: Ascii b0 b1 b2 b3 b4 b5 b6 b7
      :: Ascii c0 c1 c2 c3 c4 c5 c6 c7 :: rest =>
      Sextet a7 a6 a5 a4 a3 a2 :: Sextet a1 a0 b7 b6 b5 b4
        :: Sextet b3 b2 b1 b0 c7 c6 :: Sextet c5 c4 c3 c2 c1 c0
        :: sextets_of rest
  | [Ascii a0 a1 a2 a3 a4 a5 a6 a7; Ascii b0 b1 b2 b3 b4 b5 b6 b7] =>
      [Sextet a7 a6 a5 a4 a3 a2; Sextet a1 a0 b7 b6 b5 b4;
       Sextet b3 b2 b1 b0 false false]
  | [Ascii a0 a1 a2 a3 a4 a5 a6 a7] =>
      [Sextet a7 a6 a5 a4 a3 a2; Sextet a1 a0 false false false false]
  | [] => []
  end.

Definition padding (bytes : Buffer) : list ascii :=
  match (length bytes mod 3)%nat with
  | 1%nat => [pad; pad]
  | 2%nat => [pad]
  | _ => []
  end.

(** [buf.toString('base64')] *)
Definition toString_base64 (bytes : Buffer) : string :=
  string_of_list_ascii ((char_of_sextet <$> sextets_of bytes) ++ padding bytes).

(** Six-bit groups back to bytes; bits left over at the end are dropped. *)
Fixpoint bytes_of (groups : list sextet) : Buffer :=
  match groups with
  | Sextet a7 a6 a5 a4 a3 a2 :: Sextet a1 a0 b7 b6 b5 b4
      :: Sextet b3 b2 b1 b0 c7 c6 :: Sextet c5 c4 c3 c2 c1 c0 :: rest =>
      Ascii a0 a1 a2 a3 a4 a5 a6 a7 :: Ascii b0 b1 b2 b3 b4 b5 b6 b7
        :: Ascii c0 c1 c2 c3 c4 c5 c6 c7 :: bytes_of rest
  | [Sextet a7 a6 a5 a4 a3 a2; Sextet a1 a0 b7 b6 b5 b4;
     Sextet b3 b2 b1 b0 _ _] =>
      [Ascii a0 a1 a2 a3 a4 a5 a6 a7; Ascii b0 b1 b2 b3 b4 b5 b6 b7]
  | [Sextet a7 a6 a5 a4 a3 a2; Sextet a1 a0 _ _ _ _] =>
      [Ascii a0 a1 a2 a3 a4 a5 a6 a7]
  | _ => []
  end.

Fixpoint until_pad (l : list ascii) : list ascii :=
  match l with
  | [] => []
  | c :: l' => if Ascii.eqb c pad then [] else c :: until_pad l'
  end.

(** [Buffer.from(text, 'base64')]: decoding stops at the first [=], and
    characters outside the alphabet are skipped. *)
Definition from_base64 (text : string) : Buffer :=
  bytes_of (omap sextet_of_char (until_pad (list_ascii_of_string text))).

End Base64.

(** ** JSON texts ([JSON.stringify], [JSON.parse]) *)

Module Json.

(** A number is [mantissa * 10 ^ exponent]. *)
Inductive value : Type :=
| JNull
| JBool (b : bool)
| JNumber (mantissa exponent : Z)
| JString (s : string)
| JArray (items : list value)
| JObject (members : list (string * value)).

(** What an expression evaluates to: [undefined], or a value. *)
Inductive jsval : Type :=
| Undefined
| Val (v : value).

Definition dquote : ascii := ascii_of_nat 34.
Definition backslash : ascii := ascii_of_nat 92.

Definition hex_digit (n : nat) : ascii :=
  nth n (list_ascii_of_string "0123456789abcdef") "0"%char.

(** *** JSON.stringify *)

(** The characters that a string literal holds as they are. *)
Definition plain (c : ascii) : Prop :=
  Ascii.eqb c dquote = false ∧ Ascii.eqb c backslash = false ∧
  (nat_of_ascii c <? 32)%nat = false.

(** The text of one character inside a string literal. *)
Definition escape (c : ascii) : list ascii :=
  let n := nat_of_ascii c in
  if Ascii.eqb c dquote then [backslash; dquote]
  else if Ascii.eqb c backslash then [backslash; backslash]
  else if (n =? 8)%nat then [backslash; "b"%char]
  else if (n =? 12)%nat then [backslash; "f"%char]
  else if (n =? 10)%nat then [backslash; "n"%char]
  else if (n =? 13)%nat then [backslash; "r"%char]
  else if (n =? 9)%nat then [backslash; "t"%char]
  else if (n <? 32)%nat then
    [backslash; "u"%char; "0"%char; "0"%char; hex_digit (n / 16); hex_digit (n mod 16)]
  else [c].

Definition quote (s : string) : list ascii :=
  dquote :: concat (escape <$> list_ascii_of_string s) ++ [dquote].

(** An integer is printed in decimal; any other number by a literal that
    denotes it. *)
Definition number_text (mantissa exponent : Z) : list ascii :=
  if exponent =? 0 then list_ascii_of_string (show mantissa)
  else list_ascii_of_string (show mantissa +:+ "e" +:+ show exponent).

Definition comma_separated (texts : list (list ascii)) : list ascii :=
  match texts with
  | [] => []
  | t :: ts => t ++ concat ((λ u, ","%char :: u) <$> ts)
  end.

Fixpoint stringify_chars (v : value) : list ascii :=
  match v with
  | JNull => list_ascii_of_string "null"
  | JBool true => list_ascii_of_string "true"
  | JBool false => list_ascii_of_string "false"
  | JNumber m e => number_text m e
  | JString s => quote s
  | JArray items =>
      "["%char :: comma_separated (stringify_chars <$> items) ++ ["]"%char]
  | JObject members =>
      "{"%char ::
        comma_separated
          ((λ kv, quote kv.1 ++ ":"%char :: stringify_chars kv.2) <$> members)
        ++ ["}"%char]
  end.

Definition stringify (v : value) : string :=
  string_of_list_ascii (stringify_chars v).

(** *** JSON.parse *)

Definition is_ws (c : ascii) : bool :=
  let n := nat_of_ascii c in
  (n =? 32)%nat || (n =? 9)%nat || (n =? 10)%nat || (n =? 13)%nat.

Fixpoint skip_ws (l : list ascii) : list ascii :=
  match l with
  | c :: l' => if is_ws c then skip_ws l' else l
  | [] => []
  end.

Definition digit_value (c : ascii) : option Z :=
  let n := nat_of_ascii c in
  if (48 <=? n)%nat && (n <=? 57)%nat then Some (Z.of_nat (n - 48)) else None.

Definition hex_value (c : ascii) : option nat :=
  let n := nat_of_ascii c in
  if (48 <=? n)%nat && (n <=? 57)%nat then Some (n - 48)%nat
  else if (97 <=? n)%nat && (n <=? 102)%nat then Some (n - 87)%nat
  else if (65 <=? n)%nat && (n <=? 70)%nat then Some (n - 55)%nat
  else None.

(** The UTF-8 bytes of a code unit written as [\uXXXX]. *)
Definition utf8_of_code (n : nat) : list ascii :=
  if (n <? 128)%nat then [ascii_of_nat n]
  else if (n <? 2048)%nat then
    [ascii_of_nat (192 + n / 64); ascii_of_nat (128 + n mod 64)]
  else
    [ascii_of_nat (224 + n / 4096); ascii_of_nat (128 + (n / 64) mod 64);
     ascii_of_nat (128 + n mod 64)].

(** The characters of a string literal, after its opening quote, and the
    text that follows its closing quote. *)
Fixpoint parse_string_body (l : list ascii) : option (list ascii * list ascii) :=
  match l with
  | [] => None
  | c :: rest =>
      if Ascii.eqb c dquote then Some ([], rest)
      else if Ascii.eqb c backslash then
        match rest with
        | e :: rest' =>
            let plain (d : ascii) :=
              match parse_string_body rest' with
              | Some (s, after) => Some (d :: s, after)
              | None => None
              end in
            if Ascii.eqb e dquote then plain dquote
            else if Ascii.eqb e backslash then plain backslash
            else if Ascii.eqb e "/" then plain "/"%char
            else if Ascii.eqb e "b" then plain (ascii_of_nat 8)
            else if Ascii.eqb e "f" then plain (ascii_of_nat 12)
            else if Ascii.eqb e "n" then plain (ascii_of_nat 10)
            else if Ascii.eqb e "r" then plain (ascii_of_nat 13)
            else if Ascii.eqb e "t" then plain (ascii_of_nat 9)
            else if Ascii.eqb e "u" then
              match rest' with
              | h1 :: h2 :: h3 :: h4 :: rest'' =>
                  match hex_value h1, hex_value h2, hex_value h3, hex_value h4 with
                  | Some d1, Some d2, Some d3, Some d4 =>
                      match parse_string_body rest'' with
                      | Some (s, after) =>
                          Some (utf8_of_code (d1 * 4096 + d2 * 256 + d3 * 16 + d4) ++ s,
                                after)
                      | None => None
                      end
                  | _, _, _, _ => None
                  end
              | _ => None
              end
            else None
        | [] => None
        end
      else if (nat_of_ascii c <? 32)%nat then None
      else
        match parse_string_body rest with
        | Some (s, after) => Some (c :: s, after)
        | None => None
        end
  end.

(** The longest run of digits at the front: their number, their value
    after [acc], and the rest. *)
Fixpoint digits (l : list ascii) (acc : Z) (count : nat) : Z * nat * list ascii :=
  match l with
  | c :: l' =>
      match digit_value c with
      | Some d => digits l' (10 * acc + d) (S count)
      | None => (acc, count, l)
      end
  | [] => (acc, count, [])
  end.

Definition parse_exponent (l : list ascii) : option (Z * list ascii) :=
  match l with
  | c :: l1 =>
      if Ascii.eqb c "e" || Ascii.eqb c "E" then
        let '(negative, l2) :=
          match l1 with
          | s :: l2 => if Ascii.eqb s "-" then (true, l2)
                       else if Ascii.eqb s "+" then (false, l2)
                       else (false, l1)
          | [] => (false, l1)
          end in
        match digits l2 0 0 with
        | (_, O, _) => None
        | (e, _, rest) => Some (if negative then - e else e, rest)
        end
      else Some (0, l)
  | [] => Some (0, l)
  end.

Definition parse_number (l : list ascii) : option (value * list ascii) :=
  let '(negative, l1) :=
    match l with
    | c :: l1 => if Ascii.eqb c "-" then (true, l1) else (false, l)
    | [] => (false, l)
    end in
  match digits l1 0 0 with
  | (_, O, _) => None
  | (int, count, l2) =>
      (* no leading zero before further digits *)
      if (1 <? count)%nat && (match l1 with c :: _ => Ascii.eqb c "0" | [] => false end)
      then None
      else
        match l2 with
        | c :: l3 =>
            if Ascii.eqb c "." then
              match digits l3 int 0 with
              | (_, O, _) => None
              | (m, fraction, l4) =>
                  match parse_exponent l4 with
                  | Some (e, rest) =>
                      Some (JNumber (if negative then - m else m)
                              (e - Z.of_nat fraction), rest)
                  | None => None
                  end
              end
            else
              match parse_exponent l2 with
              | Some (e, rest) => Some (JNumber (if negative then - int else int) e, rest)
              | None => None
              end
        | [] => Some (JNumber (if negative then - int else int) 0, [])
        end
  end.

Definition literal (word : string) (v : value) (l : list ascii)
    : option (value * list ascii) :=
  let w := list_ascii_of_string word in
  if decide (take (length w) l = w) then Some (v, drop (length w) l) else None.

(** One value at the front of the text.  Every nested call is made after
    at least one character has been read, so [fuel] above the length of
    the text never runs out. *)
Fixpoint parse_value (fuel : nat) (l : list ascii) : option (value * list ascii) :=
  match fuel with
  | O => None
  | S fuel' =>
      match skip_ws l with
      | [] => None
      | c :: rest =>
          if Ascii.eqb c "{" then
            match skip_ws rest with
            | d :: rest' =>
                if Ascii.eqb d "}" then Some (JObject [], rest')
                else parse_members fuel' rest []
            | [] => None
            end
          else if Ascii.eqb c "[" then
            match skip_ws rest with
            | d :: rest' =>
                if Ascii.eqb d "]" then Some (JArray [], rest')
                else parse_items fuel' rest []
            | [] => None
            end
          else if Ascii.eqb c dquote then
            match parse_string_body rest with
            | Some (s, after) => Some (JString (string_of_list_ascii s), after)
            | None => None
            end
          else if Ascii.eqb c "t" then literal "true" (JBool true) (c :: rest)
          else if Ascii.eqb c "f" then literal "false" (JBool false) (c :: rest)
          else if Ascii.eqb c "n" then literal "null" JNull (c :: rest)
          else parse_number (c :: rest)
      end
  end
with parse_members (fuel : nat) (l : list ascii) (seen : list (string * value))
    : option (value * list ascii) :=
  match fuel with
  | O => None
  | S fuel' =>
      match skip_ws l with
      | c :: rest =>
          if Ascii.eqb c dquote then
            match parse_string_body rest with
            | Some (key, after_key) =>
                match skip_ws after_key with
                | colon :: after_colon =>
                    if Ascii.eqb colon ":" then
                      match parse_value fuel' after_colon with
                      | Some (v, after_value) =>
                          let seen := seen ++ [(string_of_list_ascii key, v)] in
                          match skip_ws after_value with
                          | d :: more =>
                              if Ascii.eqb d "," then parse_members fuel' more seen
                              else if Ascii.eqb d "}" then Some (JObject seen, more)
                              else None
                          | [] => None
                          end
                      | None => None
                      end
                    else None
                | [] => None
                end
            | None => None
            end
          else None
      | [] => None
      end
  end
with parse_items (fuel : nat) (l : list ascii) (seen : list value)
    : option (value * list ascii) :=
  match fuel with
  | O => None
  | S fuel' =>
      match parse_value fuel' l with
      | Some (v, after_value) =>
          let seen := seen ++ [v] in
          match skip_ws after_value with
          | d :: more =>
              if Ascii.eqb d "," then parse_items fuel' more seen
              else if Ascii.eqb d "]" then Some (JArray seen, more)
              else None
          | [] => None
          end
      | None => None
      end
  end.

(** [JSON.parse(text)]: one value, then nothing but white space. *)
Definition parse (text : string) : completion value :=
  let l := list_ascii_of_string text in
  match parse_value (S (length l)) l with
  | Some (v, rest) =>
      match skip_ws rest with
      | [] => Return v
      | _ :: _ => Throw (Error "Unexpected non-whitespace character after JSON")
      end
  | None => Throw (Error "Unexpected token in JSON")
  end.

(** *** Reading parsed values *)

(** The member of an object: the last one with that key, as later
    duplicates overwrite earlier ones. *)
Fixpoint member (key : string) (members : list (string * value)) : jsval :=
  match members with
  | [] => Undefined
  | (k, v) :: rest =>
      match member key rest with
      | Val v' => Val v'
      | Undefined => if String.eqb k key then Val v else Undefined
      end
  end.

(** [o.key]: reading a property of [null] or [undefined] throws a
    TypeError; the other values that are not objects have none of the
    properties read here. *)
Definition get (o : jsval) (key : string) : completion jsval :=
  match o with
  | Undefined =>
      Throw (Error ("Cannot read properties of undefined (reading '" +:+ key +:+ "')"))
  | Val JNull =>
      Throw (Error ("Cannot read properties of null (reading '" +:+ key +:+ "')"))
  | Val (JObject members) => Return (member key members)
  | Val _ => Return Undefined
  end.

(** [!x] is true on the falsy values. *)
Definition falsy (x : jsval) : bool :=
  match x with
  | Undefined => true
  | Val JNull => true
  | Val (JBool b) => negb b
  | Val (JNumber m _) => m =? 0
  | Val (JString s) => String.eqb s ""
  | Val (JArray _) => false
  | Val (JObject _) => false
  end.

End Json.

(** ** Payment proof envelope (src/x402/payment-creator.ts) *)

Module PaymentCreator.
Import Base64 Json.

Inductive Language : Type := es | en.
Inductive CognitiveLevel : Type := simple | medium | advanced.

Record AccessibilityPreferences : Type := {
  language : option Language;
  cognitiveLevel : option CognitiveLevel;
  audioFriendly : option bool;
}.

(** The object of the preferences; a field left [undefined] has no
    member in the JSON text. *)
Definition accessibility_value (a : AccessibilityPreferences) : value :=
  JObject
    (match language a with
     | Some es => [("language", JString "es")]
     | Some en => [("language", JString "en")]
     | None => []
     end ++
     match cognitiveLevel a with
     | Some simple => [("cognitiveLevel", JString "simple")]
     | Some medium => [("cognitiveLevel", JString "medium")]
     | Some advanced => [("cognitiveLevel", JString "advanced")]
     | None => []
     end ++
     match audioFriendly a with
     | Some b => [("audioFriendly", JBool b)]
     | None => []
     end).

(** The [paymentPayload] object literal. *)
Definition paymentPayload (txHex : string) (network : Network)
    (accessibility : option AccessibilityPreferences) : value :=
  JObject
    ([("x402Version", JNumber 1 0);
      ("scheme", JString "exact");
      ("network", JString match network with
                          | testnet => "bsv-testnet"
                          | mainnet => "bsv-mainnet"
                          end);
      ("payload", JObject [("transaction", JString txHex)])]
     ++ match accessibility with
        | Some a => [("accessibility", accessibility_value a)]
        | None => []
        end).

Definition createPaymentPayloadFromHex (txHex : string) (network : Network)
    (accessibility : option AccessibilityPreferences) : completion string :=
  let payloadJson := stringify (paymentPayload txHex network accessibility) in
  Return (toString_base64 (from_utf8 payloadJson)).

Definition parsePaymentPayload (payloadBase64 : string) : completion value :=
  rethrow "Error al parsear payload X402: "
    (let payloadJson := toString_utf8 (from_base64 payloadBase64) in
     and_then (parse payloadJson) (λ payload,
     and_then (get (Val payload) "x402Version") (λ x402Version,
     if falsy x402Version then Throw (Error "Estructura de payload X402 inválida") else
     and_then (get (Val payload) "scheme") (λ scheme,
     if falsy scheme then Throw (Error "Estructura de payload X402 inválida") else
     and_then (get (Val payload) "network") (λ network,
     if falsy network then Throw (Error "Estructura de payload X402 inválida") else
     and_then (get (Val payload) "payload") (λ inner,
     if falsy inner then Throw (Error "Estructura de payload X402 inválida") else
     Return payload)))))).

Definition extractTransactionFromPayload (payloadBase64 : string) : completion jsval :=
  rethrow "Error al extraer transacción: "
    (and_then (parsePaymentPayload payloadBase64) (λ payload,
     and_then (get (Val payload) "payload") (λ inner,
     get inner "transaction"))).

(** The characters of a transaction hex string. *)
Definition is_hex_digit (c : ascii) : bool :=
  match hex_value c with Some _ => true | None => false end.

Definition is_hex (s : string) : Prop :=
  Forall (λ c, is_hex_digit c = true) (list_ascii_of_string s).

End PaymentCreator.

(** ** Credential vault (src/wallet/crypto.ts) *)

Module WalletCrypto.
Import Base64.

Record EncryptedData : Type := {
  algorithm : string;
  salt : string;
  iv : string;
  authTag : string;
  data : string;
}.

Record ScryptParams : Type := {
  N : Z;
  r : Z;
  p : Z;
  keyLen : nat;
}.

Definition SCRYPT_PARAMS : ScryptParams :=
  {| N := 32768; r := 8; p := 1; keyLen := 32 |}.

Definition ALGORITHM : string := "aes-256-gcm".
Definition IV_LENGTH : nat := 16.
Definition SALT_LENGTH : nat := 32.

(** The options of Node's [crypto.scrypt(password, salt, keylen, options)].
    When the caller passes no options, Node uses cost 16384, block size 8
    and parallelization 1 (Node.js documentation of [crypto.scrypt]). *)
Record ScryptOptions : Type := {
  cost : Z;
  blockSize : Z;
  parallelization : Z;
}.

Definition node_scrypt_defaults : ScryptOptions :=
  {| cost := 16384; blockSize := 8; parallelization := 1 |}.

Definition authentication_failed : JsError :=
  Error "Password incorrecto o datos corruptos".

Section Primitives.
(** The primitives of Node's [crypto] module.  [scrypt_kdf] is the scrypt
    function.  AES-256-GCM encrypts and decrypts with a key stream
    ([gcm_crypt], its own inverse for a key and an IV) and authenticates the
    ciphertext with a tag that is a function of key, IV and ciphertext
    ([gcm_tag]).  [entropy] is the stream of bytes that [randomBytes]
    draws from. *)
Variable scrypt_kdf : string → Buffer → ScryptOptions → nat → Buffer.
Variable gcm_crypt : Buffer → Buffer → Buffer → Buffer.
Variable gcm_tag : Buffer → Buffer → Buffer → Buffer.
Variable entropy : nat → ascii.

(** [randomBytes(size)], drawing from position [from] of the stream. *)
Definition randomBytes (from size : nat) : Buffer := entropy <$> seq from size.

(** [scryptAsync(password, salt, keylen, options?)] *)
Definition scryptAsync (password : string) (salt : Buffer) (keylen : nat)
    (options : option ScryptOptions) : Buffer :=
  scrypt_kdf password salt (default node_scrypt_defaults options) keylen.

Definition deriveKey (password : string) (salt : Buffer) : Buffer :=
  scryptAsync password salt (keyLen SCRYPT_PARAMS) None.

(** [createCipheriv] and [createDecipheriv] for aes-256-gcm check the key
    and the IV. *)
Definition check_key_iv (key iv : Buffer) : completion unit :=
  if negb (length key =? 32)%nat then Throw (Error "Invalid key length")
  else if (length iv =? 0)%nat then Throw (Error "Invalid initialization vector")
  else Return tt.

Definition encryptWif (wif password : string) : completion EncryptedData :=
  rethrow "Error al encriptar WIF: "
    (if String.eqb wif "" || (String.length (trim wif) =? 0)%nat
     then Throw (Error "WIF no puede estar vacío")
     else if String.eqb password "" || (String.length password =? 0)%nat
     then Throw (Error "Password no puede estar vacío")
     else
       let salt := randomBytes 0 SALT_LENGTH in
       let iv := randomBytes SALT_LENGTH IV_LENGTH in
       let key := deriveKey password salt in
       and_then (check_key_iv key iv) (λ _,
       let encrypted := gcm_crypt key iv (from_utf8 wif) ++ [] in
       let authTag := gcm_tag key iv encrypted in
       Return {| algorithm := ALGORITHM;
                 salt := toString_base64 salt;
                 iv := toString_base64 iv;
                 authTag := toString_base64 authTag;
                 data := toString_base64 encrypted |})).

(** [decipher.setAuthTag(authTag)], the decipher having been created with
    [authTagLength: 16]. *)
Definition setAuthTag (authTag : Buffer) : completion unit :=
  if (length authTag =? 16)%nat then Return tt
  else Throw (Error ("Invalid authentication tag length: " +:+
                     show (Z.of_nat (length authTag)))).

(** [decipher.final()]: the tag set on the decipher must be the tag of the
    ciphertext it was given. *)
Definition decipher_final (key iv data authTag : Buffer) : completion Buffer :=
  if decide (authTag = gcm_tag key iv data) then Return []
  else Throw (Error "Unsupported state or unable to authenticate data").

Definition decryptWif (encrypted : EncryptedData) (password : string)
    : completion string :=
  match
    (if negb (String.eqb (algorithm encrypted) ALGORITHM)
     then Throw (Error ("Algoritmo no soportado: " +:+ algorithm encrypted))
     else
       let salt := from_base64 (salt encrypted) in
       let iv := from_base64 (iv encrypted) in
       let authTag := from_base64 (authTag encrypted) in
       let data := from_base64 (data encrypted) in
       let key := deriveKey password salt in
       and_then (check_key_iv key iv) (λ _,
       and_then (setAuthTag authTag) (λ _,
       let updated := gcm_crypt key iv data in
       and_then (decipher_final key iv data authTag) (λ final,
       let decrypted := updated ++ final in
       Return (toString_utf8 decrypted)))))
  with
  | Return wif => Return wif
  | Throw error =>
      if includes (message error) "Unsupported state" ||
         includes (message error) "auth" ||
         includes (message error) "TAG"
      then Throw authentication_failed
      else Throw (Error ("Error al desencriptar WIF: " +:+ message error))
  end.

End Primitives.

(** [{ ...encrypted, authTag: tampered }] and [{ ...encrypted, data:
    tampered }] *)
Definition with_authTag (encrypted : EncryptedData) (tampered : string)
    : EncryptedData :=
  {| algorithm := algorithm encrypted; salt := salt encrypted;
     iv := iv encrypted; authTag := tampered; data := data encrypted |}.

Definition with_data (encrypted : EncryptedData) (tampered : string)
    : EncryptedData :=
  {| algorithm := algorithm encrypted; salt := salt encrypted;
     iv := iv encrypted; authTag := authTag encrypted; data := tampered |}.

End WalletCrypto.

(** ** Chain data client, continued (src/bsv/network-client.ts) *)

Module NetworkQueries.
Import NetworkClient.

Section Client.
Variable network : Network.
Variable retryConfig : RetryConfig.

Definition getBalance (axios_get : string → nat → Reply (list Unspent))
    (address : string) : completion Z * list Z :=
  let '(utxos, slept) := getUTXOs network retryConfig axios_get address in
  (and_then utxos (λ utxos,
     Return (foldl (λ sum utxo, sum + utxo_value utxo) 0 utxos)),
   slept).

Definition transactionExists (axios_get : string → nat → Reply string)
    (txid : string) : completion bool * list Z :=
  let '(txHex, slept) := getTransactionHex network retryConfig axios_get txid in
  (match txHex with
   | Return _ => Return true
   | Throw _ => Return false
   end,
   slept).

End Client.

(** The state of a client object. *)
Record Client : Type := {
  client_network : Network;
  client_retryConfig : RetryConfig;
}.

Definition createNetworkClient (network : Network) : Client :=
  {| client_network := network; client_retryConfig := DEFAULT_RETRY_CONFIG |}.

Definition getNetworkInfo (client : Client) : Network * string :=
  (client_network client, baseUrl (client_network client)).

(** *** Successive calls

    Over a session the remote source is sent one request after another.
    A [Source] gives the reply to request number [clock] of the session;
    a call that starts at [clock] sends its attempts as the requests
    [clock], [clock + 1], ... *)
Definition Source (D : Type) : Type := nat → string → Reply D.

Definition replies_from {D} (source : Source D) (clock : nat)
    (url : string) (attempt : nat) : Reply D :=
  source (clock + attempt)%nat url.

(** The number of requests of a call that slept [slept]: every iteration
    of the loop sends one request, and the loop sleeps once between two
    iterations. *)
Definition requests_of (retryConfig : RetryConfig) (slept : list Z) : nat :=
  match iterations retryConfig with
  | O => O
  | S _ => S (length slept)
  end.

End NetworkQueries.

(** ** Transaction builder, continued (src/bsv/transaction-builder.ts) *)

Module TransactionPipeline.
Import NetworkClient NetworkQueries TransactionBuilder.

(** [{ ...utxo, sourceTransactionHex: txHex }], with the fields of
    [UTXOWithSource] that the builder and its callers read. *)
Definition with_source (utxo : UTXO) (txHex : string) : UTXOWithSource :=
  {| txid := utxo_txid utxo; vout := utxo_vout utxo; value := utxo_value utxo;
     height := Some (utxo_height utxo); sourceTransactionHex := txHex |}.

(** The [for (const utxo of utxos)] loop of [fetchSourceTransactions]:
    the completion, the clock of the session and the delays slept. *)
Fixpoint fetch_loop (client : Client) (source : Source string) (clock : nat)
    (utxos : list UTXO) (utxosWithSource : list UTXOWithSource) (slept : list Z)
    : completion (list UTXOWithSource) * nat * list Z :=
  match utxos with
  | [] => (Return utxosWithSource, clock, slept)
  | utxo :: rest =>
      let '(txHex, waits) :=
        getTransactionHex (client_network client) (client_retryConfig client)
          (replies_from source clock) (utxo_txid utxo) in
      let clock := (clock + requests_of (client_retryConfig client) waits)%nat in
      match txHex with
      | Return txHex =>
          fetch_loop client source clock rest
            (utxosWithSource ++ [with_source utxo txHex]) (slept ++ waits)
      | Throw error =>
          (Throw (Error ("Error al obtener transacción fuente " +:+ utxo_txid utxo
                         +:+ ": " +:+ message error)),
           clock, slept ++ waits)
      end
  end.

Definition fetchSourceTransactions (client : Client) (source : Source string)
    (clock : nat) (utxos : list UTXO)
    : completion (list UTXOWithSource) * nat * list Z :=
  fetch_loop client source clock utxos [] [].

(** An output as [fetchSourceTransactions] returns it for [utxo]: the
    hex attached to it is the trimmed body of a 200 reply to one of the
    requests from [from] up to [to], made for the hex of its
    transaction. *)
Definition fetched_between (client : Client) (source : Source string)
    (from to : nat) (utxo : UTXO) (u : UTXOWithSource) : Prop :=
  u = with_source utxo (sourceTransactionHex u) ∧
  ∃ n body, (from ≤ n < to)%nat ∧
    source n (baseUrl (client_network client) +:+ "/tx/" +:+ utxo_txid utxo
              +:+ "/hex")
    = Fulfilled 200 body ∧
    sourceTransactionHex u = trim body.

Section Sdk.
Context {PrivateKey SourceTransaction Script : Type}.
Variable Transaction_fromHex : string → completion SourceTransaction.
Variable P2PKH_lock : string → completion Script.
Variable toAddress : PrivateKey → option string → string.
Local Abbreviation Tx :=
  (Transaction (PrivateKey := PrivateKey)
     (SourceTransaction := SourceTransaction) (Script := Script)).
Variable Transaction_sign : Tx → completion (list Script).
(** [tx.toHex()], [tx.id('hex')], and
    [sourceTransaction.outputs?.[index]?.satoshis], which is absent when
    the parent has no such output. *)
Variable Transaction_toHex : Tx → completion string.
Variable Transaction_id : Tx → completion string.
Variable source_satoshis : SourceTransaction → Z → option Z.

Record TransactionInfo : Type := {
  info_txid : string;
  info_size : Q;
  info_inputs : nat;
  info_outputs : nat;
  info_fee : Z;
  info_hex : string;
}.

Definition getTransactionInfo (tx : Tx) : completion TransactionInfo :=
  and_then (Transaction_toHex tx) (λ hex,
  let inputs := length (inputs tx) in
  let outputs := length (outputs tx) in
  let totalInput :=
    foldl (λ totalInput input,
             match source_satoshis (sourceTransaction input) (sourceOutputIndex input) with
             | Some satoshis => if satoshis =? 0 then totalInput else totalInput + satoshis
             | None => totalInput
             end) 0 (TransactionBuilder.inputs tx) in
  let totalOutput :=
    foldl (λ totalOutput output,
             if satoshis output =? 0 then totalOutput
             else totalOutput + satoshis output) 0 (TransactionBuilder.outputs tx) in
  let fee := totalInput - totalOutput in
  and_then (Transaction_id tx) (λ txid,
  Return {| info_txid := txid;
            info_size := Z.of_nat (String.length hex) # 2;
            info_inputs := inputs;
            info_outputs := outputs;
            info_fee := fee;
            info_hex := hex |})).

(** [buildTransactionComplete]: the completion and the heap, the clock
    of the session and the delays slept. *)
Definition buildTransactionComplete (privateKey : PrivateKey)
    (payToAddress : string) (amount : Z) (network : Network) (client : Client)
    (changeAddress : option string) (feeRate : option Q)
    (unspent : Source (list Unspent)) (hex : Source string) (clock : nat)
    (h : gmap loc (list UTXOWithSource))
    : (completion Tx * gmap loc (list UTXOWithSource)) * nat * list Z :=
  let wrap (error : JsError) : JsError :=
    Error ("Error al construir transacción completa: " +:+ message error) in
  let address :=
    toAddress privateKey
      (match network with testnet => Some "testnet" | mainnet => None end) in
  let '(utxos, slept) :=
    getUTXOs (client_network client) (client_retryConfig client)
      (replies_from unspent clock) address in
  let clock := (clock + requests_of (client_retryConfig client) slept)%nat in
  match utxos with
  | Throw error => ((Throw (wrap error), h), clock, slept)
  | Return utxos =>
      if (length utxos =? 0)%nat then
        ((Throw (wrap (Error "No hay fondos disponibles en esta wallet")), h),
         clock, slept)
      else
        let '(utxosWithSource, clock, waits) :=
          fetchSourceTransactions client hex clock utxos in
        let slept := slept ++ waits in
        match utxosWithSource with
        | Throw error => ((Throw (wrap error), h), clock, slept)
        | Return utxosWithSource =>
            (try_catch
               (let* utxosWithSource := new_array utxosWithSource in
                buildTransaction Transaction_fromHex P2PKH_lock toAddress
                  Transaction_sign
                  {| privateKey := privateKey;
                     params_utxos := utxosWithSource;
                     payToAddress := payToAddress;
                     amount := amount;
                     changeAddress := changeAddress;
                     feeRate := feeRate;
                     network := network |})
               (λ error, throw (wrap error)) h,
             clock, slept)
        end
  end.

End Sdk.

End TransactionPipeline.

(** ** Vocabulary of the properties *)

(** An input that spends [utxo] as [buildTransaction] adds it. *)
Definition input_for {PrivateKey SourceTransaction : Type}
    (fromHex : string → completion SourceTransaction) (key : PrivateKey)
    (utxo : UTXOWithSource)
    (input : TransactionBuilder.TransactionInput) : Prop :=
  TransactionBuilder.spent input = utxo ∧
  fromHex (sourceTransactionHex utxo)
  = Return (TransactionBuilder.sourceTransaction input) ∧
  TransactionBuilder.sourceOutputIndex input = vout utxo ∧
  TransactionBuilder.unlockingKey input = key ∧
  TransactionBuilder.sequence input = 0xffffffff.

(** A computation that leaves every array that exists before it runs as
    it is. *)
Definition preserves {A} (m : M UTXOWithSource A) : Prop :=
  ∀ h a l, h !! a = Some l → (m h).2 !! a = Some l.

(** ** Payment proof envelope, continued (src/x402/payment-creator.ts) *)

Module PaymentInspection.
Import Base64 Json PaymentCreator.

Section Sdk.
Context {Transaction : Type}.
Variable Transaction_toHex : Transaction → completion string.

Definition createPaymentPayload (tx : Transaction) (network : Network)
    (accessibility : option AccessibilityPreferences) : completion string :=
  rethrow "Error al crear payload X402: "
    (and_then (Transaction_toHex tx) (λ txHex,
     let payloadJson := stringify (paymentPayload txHex network accessibility) in
     Return (toString_base64 (from_utf8 payloadJson)))).

End Sdk.

(** [x === n] for an integer [n], and [x === s] for a string [s]. *)
Definition is_number (x : jsval) (n : Z) : bool :=
  match x with
  | Val (JNumber mantissa exponent) =>
      Qeq_bool (inject_Z mantissa * Qpower 10 exponent) (inject_Z n)
  | _ => false
  end.

Definition is_string (x : jsval) (s : string) : bool :=
  match x with
  | Val (JString t) => String.eqb t s
  | _ => false
  end.

(** [x.length]: the length of a string or of an array, and the property
    of that name of any other value.  (The length of a string counts the
    bytes of the model; it is 0 exactly when the string is empty.) *)
Definition length_of (x : jsval) : completion jsval :=
  match x with
  | Val (JString s) => Return (Val (JNumber (Z.of_nat (String.length s)) 0))
  | Val (JArray items) => Return (Val (JNumber (Z.of_nat (length items)) 0))
  | _ => get x "length"
  end.

(** The entries of [errors].  The first three quote a field of the
    payload and carry its value; the last two carry the message of the
    error caught. *)
Inductive ValidationError : Type :=
| UnsupportedVersion (x402Version : jsval)
| UnsupportedScheme (scheme : jsval)
| InvalidNetwork (network : jsval)
| TransactionMissing
| TransactionEmpty
| ExtractionFailed (message : string)
| ParseFailed (message : string).

(** The text of an entry, given the text that a template literal makes
    of a value. *)
Definition error_text (interpolate : jsval → string) (e : ValidationError)
    : string :=
  match e with
  | UnsupportedVersion x402Version =>
      "Versión X402 no soportada: " +:+ interpolate x402Version
  | UnsupportedScheme scheme => "Scheme no soportado: " +:+ interpolate scheme
  | InvalidNetwork network => "Network inválida: " +:+ interpolate network
  | TransactionMissing => "Transacción no presente en el payload"
  | TransactionEmpty => "Transacción vacía"
  | ExtractionFailed message => "Error al extraer transacción: " +:+ message
  | ParseFailed message => "Error al parsear payload: " +:+ message
  end.

Record Validation : Type := {
  valid : bool;
  errors : list ValidationError;
  validated : option value;
}.

Definition validatePaymentPayload (payloadBase64 : string) : Validation :=
  let caught (errors : list ValidationError) (error : JsError) : Validation :=
    {| valid := false;
       errors := errors ++ [ParseFailed (message error)];
       validated := None |} in
  let errors : list ValidationError := [] in
  match parsePaymentPayload payloadBase64 with
  | Throw error => caught errors error
  | Return payload =>
  match get (Val payload) "x402Version" with
  | Throw error => caught errors error
  | Return x402Version =>
  let errors :=
    if negb (is_number x402Version 1)
    then errors ++ [UnsupportedVersion x402Version] else errors in
  match get (Val payload) "scheme" with
  | Throw error => caught errors error
  | Return scheme =>
  let errors :=
    if negb (is_string scheme "exact")
    then errors ++ [UnsupportedScheme scheme] else errors in
  match get (Val payload) "network" with
  | Throw error => caught errors error
  | Return network =>
  let errors :=
    if negb (is_string network "bsv-mainnet") && negb (is_string network "bsv-testnet")
    then errors ++ [InvalidNetwork network] else errors in
  match and_then (get (Val payload) "payload") (λ inner, get inner "transaction") with
  | Throw error => caught errors error
  | Return transaction =>
  let errors :=
    if falsy transaction then errors ++ [TransactionMissing] else errors in
  let errors :=
    match
      and_then (extractTransactionFromPayload payloadBase64) (λ txHex,
      and_then (length_of txHex) (λ length, Return (is_number length 0)))
    with
    | Return true => errors ++ [TransactionEmpty]
    | Return false => errors
    | Throw error => errors ++ [ExtractionFailed (message error)]
    end in
  {| valid := (length errors =? 0)%nat; errors := errors; validated := Some payload |}
  end end end end end.

End PaymentInspection.

(** ** Credential vault, continued (src/wallet/crypto.ts) *)

Module WalletCryptoChecks.
Import Base64 Json WalletCrypto.

(** The object of an [EncryptedData], as [encryptWif] builds it and the
    wallet file stores it. *)
Definition encrypted_object (e : EncryptedData) : value :=
  JObject [("algorithm", JString (algorithm e));
           ("salt", JString (salt e));
           ("iv", JString (iv e));
           ("authTag", JString (authTag e));
           ("data", JString (data e))].

(** [typeof x === 'string'] *)
Definition is_a_string (x : jsval) : bool :=
  match x with
  | Val (JString _) => true
  | _ => false
  end.

Definition validateEncryptedData (encrypted : jsval) : bool :=
  if falsy encrypted then false
  else
    match encrypted with
    | Val (JObject members) =>
        match member "algorithm" members with
        | Val (JString a) => String.eqb a ALGORITHM
        | _ => false
        end
        && is_a_string (member "salt" members)
        && is_a_string (member "iv" members)
        && is_a_string (member "authTag" members)
        && is_a_string (member "data" members)
    | Val (JArray _) => false
    | _ => false
    end.

Section Primitives.
Variable entropy : nat → ascii.

(** [generateSalt()] and [generateIV()], drawing from position [from]
    of the stream. *)
Definition generateSalt (from : nat) : string :=
  toString_base64 (randomBytes entropy from SALT_LENGTH).

Definition generateIV (from : nat) : string :=
  toString_base64 (randomBytes entropy from IV_LENGTH).

End Primitives.

End WalletCryptoChecks.

(** ** Wallet manager (src/wallet/manager.ts)

    The length of a password counts the bytes of the model, which is
    its number of characters when the password is ASCII. *)

Module WalletManager.
Import Base64 WalletCrypto.

Record WalletData : Type := {
  wallet_version : string;
  wallet_id : string;
  wallet_name : string;
  wallet_network : Network;
  wallet_address : string;
  wallet_createdAt : string;
  wallet_encrypted : EncryptedData;
}.

Record WalletMetadata : Type := {
  metadata_id : string;
  metadata_name : string;
  metadata_address : string;
  metadata_network : Network;
  metadata_createdAt : string;
}.

Record WalletInfo : Type := {
  info_id : string;
  info_name : string;
  info_address : string;
  info_network : Network;
  info_createdAt : string;
  info_mnemonic : option string;
}.

Record UnlockedWallet {PrivateKey PublicKey : Type} : Type := {
  unlocked_id : string;
  unlocked_name : string;
  unlocked_network : Network;
  unlocked_address : string;
  unlocked_privateKey : PrivateKey;
  unlocked_publicKey : PublicKey;
}.
Global Arguments UnlockedWallet : clear implicits.

(** [{ ...wallet, encrypted }]: the assignment [wallet.encrypted =
    encrypted]. *)
Definition with_encrypted (wallet : WalletData) (encrypted : EncryptedData)
    : WalletData :=
  {| wallet_version := wallet_version wallet; wallet_id := wallet_id wallet;
     wallet_name := wallet_name wallet; wallet_network := wallet_network wallet;
     wallet_address := wallet_address wallet;
     wallet_createdAt := wallet_createdAt wallet;
     wallet_encrypted := encrypted |}.

(** [buf.toString('hex')] *)
Definition toString_hex (bytes : Buffer) : string :=
  string_of_list_ascii
    (concat ((λ byte, [Json.hex_digit (nat_of_ascii byte / 16);
                       Json.hex_digit (nat_of_ascii byte mod 16)]) <$> bytes)).

Section Manager.
(** The wallet files are reached through src/wallet/storage.ts, whose
    functions are parameters here: [Storage] is the state of the wallets
    directory; loading reads it; saving and deleting give the new state,
    or throw and leave it as it was.  The primitives of Node's [crypto]
    and the key classes of the @bsv/sdk are parameters as before. *)
Context {Storage PrivateKey PublicKey : Type}.
Variable storage_loadWallet : Storage → string → completion WalletData.
Variable storage_saveWallet : Storage → WalletData → completion Storage.
Variable storage_deleteWallet : Storage → string → completion Storage.
Variable scrypt_kdf : string → Buffer → ScryptOptions → nat → Buffer.
Variable gcm_crypt : Buffer → Buffer → Buffer → Buffer.
Variable gcm_tag : Buffer → Buffer → Buffer → Buffer.
Variable PrivateKey_fromWif : string → completion PrivateKey.
Variable toPublicKey : PrivateKey → PublicKey.
Variable toAddress : PublicKey → option string → string.

Local Abbreviation decrypt := (decryptWif scrypt_kdf gcm_crypt gcm_tag).

(** The outcome of a method that changes the wallets directory: its
    completion and the state it leaves. *)
Definition run (s : Storage) (c : completion Storage) (prefix : string)
    : completion unit * Storage :=
  match c with
  | Return s' => (Return tt, s')
  | Throw error => (Throw (Error (prefix +:+ message error)), s)
  end.

(** [generateWalletId()], drawing from position [from] of the stream. *)
Definition generateWalletId (entropy : nat → ascii) (from : nat) : string :=
  toString_hex (randomBytes entropy from 16).

(** [importWallet]; [entropy] is the random source at the time of the
    call and [now] the reading of the clock.  (A [Network] is one of the
    two networks, so the check of the network has nothing to reject.) *)
Definition importWallet (s : Storage) (entropy : nat → ascii) (now : string)
    (name wif : string) (network : Network) (password : string)
    : completion WalletInfo * Storage :=
  let result :=
    if String.eqb name "" || (String.length (trim name) =? 0)%nat
    then Throw (Error "El nombre de la wallet es requerido")
    else if String.eqb wif "" || (String.length (trim wif) =? 0)%nat
    then Throw (Error "El WIF es requerido")
    else if String.eqb password "" || (String.length password <? 8)%nat
    then Throw (Error "El password debe tener al menos 8 caracteres")
    else
      and_then
        (match PrivateKey_fromWif (trim wif) with
         | Return privateKey => Return privateKey
         | Throw _ => Throw (Error "WIF inválido")
         end) (λ privateKey,
      let publicKey := toPublicKey privateKey in
      let address :=
        toAddress publicKey
          (match network with testnet => Some "testnet" | mainnet => None end) in
      let walletId := generateWalletId entropy 0 in
      and_then
        (encryptWif scrypt_kdf gcm_crypt gcm_tag (λ i, entropy (16 + i)%nat)
           (trim wif) password) (λ encrypted,
      let wallet :=
        {| wallet_version := "1.0"; wallet_id := walletId;
           wallet_name := trim name; wallet_network := network;
           wallet_address := address; wallet_createdAt := now;
           wallet_encrypted := encrypted |} in
      and_then (storage_saveWallet s wallet) (λ s',
      Return ({| info_id := wallet_id wallet; info_name := wallet_name wallet;
                 info_address := wallet_address wallet;
                 info_network := wallet_network wallet;
                 info_createdAt := wallet_createdAt wallet;
                 info_mnemonic := None |}, s')))) in
  match result with
  | Return (info, s') => (Return info, s')
  | Throw error =>
      (Throw (Error ("Error al importar wallet: " +:+ message error)), s)
  end.

Definition loadWallet (s : Storage) (walletId password : string)
    : completion (UnlockedWallet PrivateKey PublicKey) :=
  rethrow "Error al cargar wallet: "
    (and_then (storage_loadWallet s walletId) (λ wallet,
     and_then (decrypt (wallet_encrypted wallet) password) (λ wif,
     and_then (PrivateKey_fromWif wif) (λ privateKey,
     let publicKey := toPublicKey privateKey in
     Return {| unlocked_id := wallet_id wallet;
               unlocked_name := wallet_name wallet;
               unlocked_network := wallet_network wallet;
               unlocked_address := wallet_address wallet;
               unlocked_privateKey := privateKey;
               unlocked_publicKey := publicKey |})))).

Definition exportWif (s : Storage) (walletId password : string)
    : completion string :=
  rethrow "Error al exportar WIF: "
    (and_then (storage_loadWallet s walletId) (λ wallet,
     decrypt (wallet_encrypted wallet) password)).

(** [removeWallet]: an absent password and the empty one are falsy. *)
Definition removeWallet (s : Storage) (walletId : string)
    (password : option string) : completion unit * Storage :=
  let checked : completion unit :=
    match password with
    | Some password =>
        if String.eqb password "" then Return tt
        else
          and_then (storage_loadWallet s walletId) (λ wallet,
          and_then (decrypt (wallet_encrypted wallet) password) (λ _,
          Return tt))
    | None => Return tt
    end in
  run s (and_then checked (λ _, storage_deleteWallet s walletId))
    "Error al eliminar wallet: ".

Definition getWalletMetadata (s : Storage) (walletId : string)
    : completion WalletMetadata :=
  rethrow "Error al obtener metadata: "
    (and_then (storage_loadWallet s walletId) (λ wallet,
     Return {| metadata_id := wallet_id wallet;
               metadata_name := wallet_name wallet;
               metadata_address := wallet_address wallet;
               metadata_network := wallet_network wallet;
               metadata_createdAt := wallet_createdAt wallet |})).

Definition changePassword (s : Storage) (entropy : nat → ascii)
    (walletId oldPassword newPassword : string) : completion unit * Storage :=
  run s
    (if String.eqb newPassword "" || (String.length newPassword <? 8)%nat
     then Throw (Error "El nuevo password debe tener al menos 8 caracteres")
     else
       and_then (storage_loadWallet s walletId) (λ wallet,
       and_then (decrypt (wallet_encrypted wallet) oldPassword) (λ wif,
       and_then (encryptWif scrypt_kdf gcm_crypt gcm_tag entropy wif newPassword)
         (λ encrypted,
       let wallet := with_encrypted wallet encrypted in
       storage_saveWallet s wallet))))
    "Error al cambiar password: ".

End Manager.

End WalletManager.

(** ** Price cache (src/price/price-cache.ts) *)

Module PriceCache.

Record CacheEntry (T : Type) : Type := {
  data : T;
  timestamp : Z;
  expiresAt : Z;
}.
Global Arguments data {T} _.
Global Arguments timestamp {T} _.
Global Arguments expiresAt {T} _.

(** The state of a [PriceCache<T>] object.  Times are in milliseconds;
    [now] is the reading of [Date.now()] when a method runs. *)
Record PriceCache (T : Type) : Type := {
  cache : gmap string (CacheEntry T);
  ttlMs : Z;
}.
Global Arguments cache {T} _.
Global Arguments ttlMs {T} _.

(** [new PriceCache(ttlMinutes)], 3 minutes when the argument is left
    out. *)
Definition create {T} (ttlMinutes : option Z) : PriceCache T :=
  {| cache := ∅; ttlMs := default 3 ttlMinutes * 60 * 1000 |}.

Definition set {T} (c : PriceCache T) (now : Z) (key : string) (value : T)
    : PriceCache T :=
  {| cache := <[key := {| data := value; timestamp := now;
                          expiresAt := now + ttlMs c |}]> (cache c);
     ttlMs := ttlMs c |}.

(** [get(key)]: the value or [null], and the state it leaves. *)
Definition get {T} (c : PriceCache T) (now : Z) (key : string)
    : option T * PriceCache T :=
  match cache c !! key with
  | None => (None, c)
  | Some entry =>
      if expiresAt entry <? now
      then (None, {| cache := delete key (cache c); ttlMs := ttlMs c |})
      else (Some (data entry), c)
  end.

Definition clear {T} (c : PriceCache T) : PriceCache T :=
  {| cache := ∅; ttlMs := ttlMs c |}.

Definition getAge {T} (c : PriceCache T) (now : Z) (key : string) : option Z :=
  match cache c !! key with
  | None => None
  | Some entry => Some (now - timestamp entry)
  end.

(** The singleton [priceCache]. *)
Definition priceCache {T} : PriceCache T := create (Some 3).

End PriceCache.

(** ** Price client (src/price/coingecko-client.ts)

    The file repeats [RetryConfig], [DEFAULT_RETRY_CONFIG],
    [getBackoffDelay] and [isRetryableError] of the chain data client word
    for word; the definitions of [NetworkClient] stand for them. *)

Module CoinGecko.
Import NetworkClient Json.

(** [marketData]: the three figures, in the order [marketCapUsd],
    [volume24hUsd], [priceChange24h]. *)
Record MarketData : Type := {
  marketCapUsd : jsval;
  volume24hUsd : jsval;
  priceChange24h : jsval;
}.

Record PriceResponse : Type := {
  prices_usd : jsval;
  prices_eur : jsval;
  marketData : option MarketData;
  timestamp : string;
}.

(** [error.response?.status === 429] *)
Definition is_429 (error : AxiosError) : bool :=
  match response error with
  | Some r => status r =? 429
  | None => false
  end.

(** [x || 0] *)
Definition or_zero (x : jsval) : jsval :=
  if falsy x then Val (JNumber 0 0) else x.

(** The [try] block of one iteration; [now] is the reading of the clock
    when the reply is handled. *)
Definition try_price (includeMarketData : bool) (now : string)
    (reply : Reply value) : PriceResponse + Thrown :=
  let invalid : PriceResponse + Thrown :=
    inr (OtherError (Error "Invalid response format from CoinGecko")) in
  match reply with
  | Fulfilled st body =>
      if st =? 200 then
        match get (Val body) "bitcoin-sv" with
        | Throw error => inr (OtherError error)
        | Return data =>
            if falsy data then invalid else
            match get data "usd", get data "eur" with
            | Return usd, Return eur =>
                if falsy usd then invalid
                else if falsy eur then invalid
                else
                  inl {| prices_usd := usd;
                         prices_eur := eur;
                         marketData :=
                           if includeMarketData then
                             match get data "usd_market_cap", get data "usd_24h_vol",
                                   get data "usd_24h_change" with
                             | Return cap, Return vol, Return change =>
                                 Some {| marketCapUsd := or_zero cap;
                                         volume24hUsd := or_zero vol;
                                         priceChange24h := or_zero change |}
                             | _, _, _ => None
                             end
                           else None;
                         timestamp := now |}
            | Throw error, _ => inr (OtherError error)
            | _, Throw error => inr (OtherError error)
            end
        end
      else inr (OtherError (Error ("Unexpected status: " +:+ show st)))
  | Rejected t => inr t
  end.

Fixpoint price_loop (retryConfig : RetryConfig) (includeMarketData : bool)
    (now : string) (remote : nat → Reply value) (fuel attempt : nat)
    (slept : list Z) : completion PriceResponse * list Z :=
  match fuel with
  | O => (Throw (Error "Max retries exceeded fetching BSV price"), slept)
  | S fuel' =>
      match try_price includeMarketData now (remote attempt) with
      | inl result => (Return result, slept)
      | inr (IsAxiosError error) =>
          if is_429 error then
            if Z.of_nat attempt <? maxRetries retryConfig then
              let delay := getBackoffDelay attempt retryConfig in
              price_loop retryConfig includeMarketData now remote fuel'
                (S attempt) (slept ++ [delay])
            else
              (Throw (Error "CoinGecko rate limit exceeded. Please try again in a few minutes."),
               slept)
          else if isRetryableError error && (Z.of_nat attempt <? maxRetries retryConfig)
          then
            let delay := getBackoffDelay attempt retryConfig in
            price_loop retryConfig includeMarketData now remote fuel'
              (S attempt) (slept ++ [delay])
          else
            (Throw (Error ("Error fetching BSV price: " +:+ axios_message error)),
             slept)
      | inr (OtherError e) =>
          (Throw (Error ("Error fetching BSV price: " +:+ message e)), slept)
      end
  end.

(** [getBsvPrice(includeMarketData)]; [axios_get] gives, for the URL,
    the reply to each successive request (the query parameters, which
    depend on [includeMarketData] only, are part of the request that is
    answered). *)
Definition getBsvPrice (retryConfig : RetryConfig) (now : string)
    (axios_get : string → nat → Reply value) (includeMarketData : bool)
    : completion PriceResponse * list Z :=
  let url := "https://api.coingecko.com/api/v3" +:+ "/simple/price" in
  price_loop retryConfig includeMarketData now (axios_get url)
    (iterations retryConfig) 0 [].

End CoinGecko.

(** ** The send_transaction tool (src/tools/send-transaction.ts) *)

Module SendTransaction.
Import NetworkClient NetworkQueries TransactionBuilder TransactionPipeline.
Import WalletManager.

(** The arguments of the tool; a field that is left out is [None]. *)
Record SendTransactionParams : Type := {
  param_walletId : option string;
  param_password : option string;
  param_toAddress : option string;
  param_amount : option Z;
  param_changeAddress : option string;
  param_feeRate : option Q;
}.

(** The fields of a response with [success: true]. *)
Record SendTransactionResponse : Type := {
  response_txid : string;
  response_amount : Z;
  response_fee : Z;
  response_change : Z;
  response_toAddress : string;
  response_fromAddress : string;
  response_network : Network;
  response_inputs : nat;
  response_outputs : nat;
  response_size : Q;
  response_broadcasted : bool;
}.

(** The record handed to [logTransaction]; its [type] is ['sent'] and
    its [purpose] ['Simple transaction']. *)
Record LocalTransactionRecord : Type := {
  record_txid : string;
  record_walletId : string;
  record_timestamp : string;
  record_type : string;
  record_amount : Z;
  record_fee : Z;
  record_toAddress : string;
  record_network : Network;
  record_purpose : string;
  record_changeAmount : Z;
  record_inputs : nat;
  record_outputs : nat;
}.

(** The object whose JSON text the tool returns: the response, or
    [{ success: false, error }]. *)
Inductive ToolResult : Type :=
| Succeeded (response : SendTransactionResponse)
| Failed (error : string).

(** The remote source over the session of one call. *)
Record Remote : Type := {
  unspent_source : Source (list Unspent);
  hex_source : Source string;
  post_source : nat → string → string → Reply string;
}.

(** What a call does: its result, the record it handed to
    [logTransaction] if any, the number of requests it made and the
    delays it slept. *)
Record Outcome : Type := {
  result : ToolResult;
  logged : option LocalTransactionRecord;
  requests : nat;
  slept : list Z;
}.

(** [!s] is false on a string that is present and not empty. *)
Definition given (s : option string) : option string :=
  match s with
  | Some s => if String.eqb s "" then None else Some s
  | None => None
  end.

Section Handler.
Context {PrivateKey PublicKey SourceTransaction Script : Type}.
Variable Transaction_fromHex : string → completion SourceTransaction.
Variable P2PKH_lock : string → completion Script.
Variable PrivateKey_toAddress : PrivateKey → option string → string.
Local Abbreviation Tx :=
  (Transaction (PrivateKey := PrivateKey)
     (SourceTransaction := SourceTransaction) (Script := Script)).
Variable Transaction_sign : Tx → completion (list Script).
Variable Transaction_toHex : Tx → completion string.
Variable Transaction_id : Tx → completion string.
Variable source_satoshis : SourceTransaction → Z → option Z.
(** [walletManager.loadWallet] on the wallets directory as it is, and
    the reading of the clock, [new Date().toISOString()]. *)
Variable walletManager_loadWallet :
  string → string → completion (UnlockedWallet PrivateKey PublicKey).
Variable now : string.

Definition failed (error : JsError) (requests : nat) (slept : list Z) : Outcome :=
  {| result := Failed (message error); logged := None;
     requests := requests; slept := slept |}.

Definition handleSendTransaction (params : SendTransactionParams)
    (remote : Remote) : Outcome :=
  let feeRate := default (1 # 2) (param_feeRate params) in
  match given (param_walletId params) with
  | None => failed (Error "Se requiere walletId") 0 []
  | Some walletId =>
  match given (param_password params) with
  | None => failed (Error "Se requiere password") 0 []
  | Some password =>
  match given (param_toAddress params) with
  | None =>
      failed (Error "Se requiere toAddress (dirección del destinatario)") 0 []
  | Some toAddress =>
  match (match param_amount params with
         | Some amount => if amount <=? 0 then None else Some amount
         | None => None
         end) with
  | None => failed (Error "Se requiere amount (debe ser mayor a 0)") 0 []
  | Some amount =>
  match walletManager_loadWallet walletId password with
  | Throw error => failed error 0 []
  | Return wallet =>
  let networkClient := createNetworkClient (unlocked_network wallet) in
  let '(utxos, slept) :=
    getUTXOs (client_network networkClient) (client_retryConfig networkClient)
      (replies_from (unspent_source remote) 0) (unlocked_address wallet) in
  let clock := requests_of (client_retryConfig networkClient) slept in
  match utxos with
  | Throw error => failed error clock slept
  | Return utxos =>
  if (length utxos =? 0)%nat
  then failed (Error "No hay fondos disponibles en esta wallet") clock slept
  else
  let '(fetched, clock, waits) :=
    fetchSourceTransactions networkClient (hex_source remote) clock utxos in
  let slept := slept ++ waits in
  match fetched with
  | Throw error => failed error clock slept
  | Return fetched =>
  let '(built, heap) :=
    (let* utxosWithSource := new_array fetched in
     let* tx :=
       buildTransaction Transaction_fromHex P2PKH_lock PrivateKey_toAddress
         Transaction_sign
         {| privateKey := unlocked_privateKey wallet;
            params_utxos := utxosWithSource;
            payToAddress := toAddress;
            TransactionBuilder.amount := amount;
            changeAddress := param_changeAddress params;
            TransactionBuilder.feeRate := Some feeRate;
            network := unlocked_network wallet |} in
     ret (utxosWithSource, tx)) ∅ in
  match built with
  | Throw error => failed error clock slept
  | Return (utxosWithSource, tx) =>
  match getTransactionInfo Transaction_toHex Transaction_id source_satoshis tx with
  | Throw error => failed error clock slept
  | Return txInfo =>
  let '(broadcastResult, waits) :=
    broadcastTransaction (client_network networkClient)
      (client_retryConfig networkClient)
      (λ url txHex attempt, post_source remote (clock + attempt)%nat url txHex)
      (info_hex txInfo) in
  let clock := (clock + requests_of (client_retryConfig networkClient) waits)%nat in
  let slept := slept ++ waits in
  match broadcastResult with
  | Throw error => failed error clock slept
  | Return broadcastResult =>
  if negb (success broadcastResult)
  then failed (Error ("Error al enviar transacción: " +:+
                      default "undefined" (error broadcastResult))) clock slept
  else
  let totalInput :=
    foldl (λ sum utxo, sum + value utxo) 0
      (take (length (inputs tx)) (default [] (heap !! utxosWithSource))) in
  let change := totalInput - amount - info_fee txInfo in
  {| result :=
       Succeeded
         {| response_txid := info_txid txInfo;
            response_amount := amount;
            response_fee := info_fee txInfo;
            response_change := change;
            response_toAddress := toAddress;
            response_fromAddress := unlocked_address wallet;
            response_network := unlocked_network wallet;
            response_inputs := info_inputs txInfo;
            response_outputs := info_outputs txInfo;
            response_size := info_size txInfo;
            response_broadcasted := true |};
     logged :=
       Some {| record_txid := info_txid txInfo;
               record_walletId := unlocked_id wallet;
               record_timestamp := now;
               record_type := "sent";
               record_amount := amount;
               record_fee := info_fee txInfo;
               record_toAddress := toAddress;
               record_network := unlocked_network wallet;
               record_purpose := "Simple transaction";
               record_changeAmount := change;
               record_inputs := info_inputs txInfo;
               record_outputs := info_outputs txInfo |};
     requests := clock;
     slept := slept |}
  end end end end end end end end end end.

End Handler.

End SendTransaction.


(** ** Concrete inputs used below *)

Definition output_worth (v : Z) : UTXOWithSource :=
  {| txid := "9f2c"; vout := 0; value := v; height := None;
     sourceTransactionHex := "0100" |}.

(** Scenario A: the caller's array holds outputs worth 50000, 30000 and
    20000 satoshis. *)
Definition scenario_A_outputs : list UTXOWithSource :=
  [output_worth 50000; output_worth 30000; output_worth 20000].

Definition scenario_A_heap : gmap loc (list UTXOWithSource) :=
  {[ 1%positive := scenario_A_outputs ]}.

(** A wallet whose second output is worth less than what spending it
    costs. *)
Definition dusty_outputs : list UTXOWithSource :=
  [output_worth 1000; output_worth 1].

Definition dusty_heap : gmap loc (list UTXOWithSource) :=
  {[ 1%positive := dusty_outputs ]}.

Definition empty_wallet_heap : gmap loc (list UTXOWithSource) :=
  {[ 1%positive := [] ]}.

(** A stand-in for the @bsv/sdk classes in which every parent
    transaction parses, every address has a locking script and signing
    succeeds. *)
Module ToySdk.
Definition PrivateKey : Type := string.
Definition Transaction_fromHex (hex : string) : completion string := Return hex.
Definition P2PKH_lock (address : string) : completion string :=
  Return ("76a914" +:+ address +:+ "88ac").
Definition toAddress (key : PrivateKey) (prefix : option string) : string :=
  match prefix with Some _ => "m" +:+ key | None => "1" +:+ key end.
Definition Transaction_sign
    (tx : TransactionBuilder.Transaction (PrivateKey := PrivateKey)
            (SourceTransaction := string) (Script := string))
    : completion (list string) :=
  Return ((λ i, "sig" +:+ txid (TransactionBuilder.spent i))
            <$> TransactionBuilder.inputs tx).
Definition build := TransactionBuilder.buildTransaction
  Transaction_fromHex P2PKH_lock toAddress Transaction_sign.
End ToySdk.

(** A payment of 500 satoshis from a wallet holding one output of 1000. *)
Definition payment_params (rate : option Q)
    : TransactionBuilder.BuildTxParams (PrivateKey := ToySdk.PrivateKey) :=
  {| TransactionBuilder.privateKey := "key";
     TransactionBuilder.params_utxos := 1%positive;
     TransactionBuilder.payToAddress := "merchant";
     TransactionBuilder.amount := 500;
     TransactionBuilder.changeAddress := None;
     TransactionBuilder.feeRate := rate;
     TransactionBuilder.network := testnet |}.

Definition payment_heap : gmap loc (list UTXOWithSource) :=
  {[ 1%positive := [output_worth 1000] ]}.

(** Replies of the remote source: HTTP 429 to every request; HTTP 400 to
    every request; a rejection whose body says that the transaction is
    already known. *)
Definition http_error (code : Z) (body : NetworkClient.ResponseData)
    : NetworkClient.AxiosError :=
  {| NetworkClient.response :=
       Some {| NetworkClient.status := code; NetworkClient.data := body |};
     NetworkClient.axios_message :=
       "Request failed with status code " +:+ show code |}.

Definition always_429 {D} (url : string) (attempt : nat) : NetworkClient.Reply D :=
  NetworkClient.Rejected
    (NetworkClient.IsAxiosError (http_error 429 NetworkClient.DataAbsent)).

Definition always_400 {D} (url : string) (attempt : nat) : NetworkClient.Reply D :=
  NetworkClient.Rejected
    (NetworkClient.IsAxiosError (http_error 400 NetworkClient.DataAbsent)).

(** Scenario D: HTTP 429 three times, then 200 with one unspent output. *)
Definition recovers_after_three (url : string) (attempt : nat)
    : NetworkClient.Reply (list NetworkClient.Unspent) :=
  if (attempt <? 3)%nat then always_429 url attempt
  else NetworkClient.Fulfilled 200
         [{| NetworkClient.tx_hash := "9f2c"; NetworkClient.tx_pos := 0;
             NetworkClient.unspent_value := 50000;
             NetworkClient.unspent_height := 800000 |}].

Definition already_known (url txHex : string) (attempt : nat)
    : NetworkClient.Reply string :=
  NetworkClient.Rejected
    (NetworkClient.IsAxiosError
       (http_error 400 (NetworkClient.DataText "257: txn-already-known"))).

Definition inputs_spent (url txHex : string) (attempt : nat)
    : NetworkClient.Reply string :=
  NetworkClient.Rejected
    (NetworkClient.IsAxiosError
       (http_error 500 (NetworkClient.DataText "258: txn-mempool-conflict"))).

(** The transaction of the unit tests, and the same with capital
    letters in it. *)
Definition validTxHex : string :=
  "01000000010000000000000000000000000000000000000000000000000000000000000000ffffffff0704ffff001d0104ffffffff0100f2052a0100000043410496b538e853519c726a2c91e61ec11600ae1390813a627c66fb8be7947be63c52da7589379515d4e0a604f8141781e62294721166bf621e73a82cbf2342c858eeac00000000".

Definition mixedCaseTxHex : string := "0100ABcdEF00ac".

(** Stand-ins for the primitives of Node's [crypto]: a key derivation
    that shows its cost parameter, and a cipher whose tag is made of the
    key and the ciphertext. *)
Module ToyCrypto.
Import Base64.
Definition fit (size : nat) (bytes : Buffer) : Buffer :=
  take size (bytes ++ replicate size "000"%char).
Definition scrypt_kdf (password : string) (salt : Buffer)
    (options : WalletCrypto.ScryptOptions) (keylen : nat) : Buffer :=
  fit keylen (ascii_of_nat (Z.to_nat (WalletCrypto.cost options / 1024))
              :: from_utf8 password ++ salt).
Definition gcm_crypt (key iv text : Buffer) : Buffer := text.
Definition gcm_tag (key iv ciphertext : Buffer) : Buffer :=
  fit 16 (take 12 key ++ ciphertext).
Definition entropy (i : nat) : ascii := ascii_of_nat (7 * i + 3).
Definition encryptWif :=
  WalletCrypto.encryptWif scrypt_kdf gcm_crypt gcm_tag entropy.
Definition decryptWif :=
  WalletCrypto.decryptWif scrypt_kdf gcm_crypt gcm_tag.
End ToyCrypto.

(** Scenario B *)
Definition testWif : string := "L1aW4aubDFB7yfras2S1mN3bqg9nwySY8nkoLmJebSLD5BWv3ENZ".
Definition testPassword : string := "test-password-123".

(** HTTP 404 to every request. *)
Definition address_unknown {D} (url : string) (attempt : nat)
    : NetworkClient.Reply D :=
  NetworkClient.Rejected
    (NetworkClient.IsAxiosError (http_error 404 NetworkClient.DataAbsent)).

(** The same over a session. *)
Definition nothing_known {D} : NetworkQueries.Source D :=
  λ clock url, address_unknown url clock.

(** Two unspent outputs of one parent transaction, as the client lists
    them. *)
Definition first_unspent : NetworkClient.UTXO :=
  {| NetworkClient.utxo_txid := "9f2c"; NetworkClient.utxo_vout := 0;
     NetworkClient.utxo_value := 1000; NetworkClient.utxo_satoshis := 1000;
     NetworkClient.utxo_height := 800000; NetworkClient.utxo_tx_pos := 0 |}.

Definition second_unspent : NetworkClient.UTXO :=
  {| NetworkClient.utxo_txid := "9f2c"; NetworkClient.utxo_vout := 1;
     NetworkClient.utxo_value := 50000; NetworkClient.utxo_satoshis := 50000;
     NetworkClient.utxo_height := 800000; NetworkClient.utxo_tx_pos := 1 |}.

Definition two_unspent : list NetworkClient.UTXO :=
  [first_unspent; second_unspent].

(** A source that serves every parent transaction, and one that serves
    the first request and answers 404 from then on. *)
Definition parents_served : NetworkQueries.Source string :=
  λ clock url, NetworkClient.Fulfilled 200 "0100
".

Definition second_parent_missing : NetworkQueries.Source string :=
  λ clock url,
    match clock with
    | O => NetworkClient.Fulfilled 200 "0100"
    | S _ => address_unknown url clock
    end.

(** Further stand-ins for the @bsv/sdk: a serialisation, an identifier,
    and parents whose output 0 is worth 1000 satoshis and whose other
    outputs are worth 50000. *)
Module ToySdkInfo.
Definition Transaction_toHex
    (tx : TransactionBuilder.Transaction (PrivateKey := ToySdk.PrivateKey)
            (SourceTransaction := string) (Script := string))
    : completion string :=
  Return "0100beef".
Definition Transaction_id
    (tx : TransactionBuilder.Transaction (PrivateKey := ToySdk.PrivateKey)
            (SourceTransaction := string) (Script := string))
    : completion string :=
  Return "c0de".
Definition source_satoshis (parent : string) (index : Z) : option Z :=
  if index =? 0 then Some 1000 else Some 50000.
Definition getTransactionInfo :=
  TransactionPipeline.getTransactionInfo Transaction_toHex Transaction_id
    source_satoshis.
End ToySdkInfo.

(** A text that is not the base64 of a JSON text, and the base64 of the
    envelope [{"x402Version":2,"scheme":"exact","network":"bsv-testnet",
    "payload":{"transaction":"00"}}]. *)
Definition not_an_envelope : string := "not-valid-base64!!!".

Definition version_2_envelope : string :=
  Base64.toString_base64 (Base64.from_utf8 (Json.stringify
    (Json.JObject
       [("x402Version", Json.JNumber 2 0);
        ("scheme", Json.JString "exact");
        ("network", Json.JString "bsv-testnet");
        ("payload", Json.JObject [("transaction", Json.JString "00")])]))).

(** Data labelled with another algorithm. *)
Definition legacy_data : WalletCrypto.EncryptedData :=
  {| WalletCrypto.algorithm := "aes-256-cbc";
     WalletCrypto.salt := "c2FsdA==";
     WalletCrypto.iv := "aXY=";
     WalletCrypto.authTag := "dGFn";
     WalletCrypto.data := "ZGF0YQ==" |}.

(** A wallets directory kept as a list of wallets, newest first, and
    stand-ins for the key classes of the @bsv/sdk in which a key is its
    own text. *)
Module ToyStorage.
Definition Storage : Type := list WalletManager.WalletData.
Fixpoint loadWallet (s : Storage) (walletId : string)
    : completion WalletManager.WalletData :=
  match s with
  | [] => Throw (Error ("Wallet no encontrada: " +:+ walletId))
  | wallet :: rest =>
      if String.eqb (WalletManager.wallet_id wallet) walletId then Return wallet
      else loadWallet rest walletId
  end.
Definition saveWallet (s : Storage) (wallet : WalletManager.WalletData)
    : completion Storage :=
  Return (wallet :: s).
Definition deleteWallet (s : Storage) (walletId : string) : completion Storage :=
  match loadWallet s walletId with
  | Return _ =>
      Return (filter (λ wallet, WalletManager.wallet_id wallet ≠ walletId) s)
  | Throw error => Throw error
  end.
Definition fromWif (wif : string) : completion string :=
  if String.eqb wif "not-a-key" then Throw (Error "Invalid checksum") else Return wif.
Definition toPublicKey (key : string) : string := key.
Definition exportWif :=
  WalletManager.exportWif loadWallet ToyCrypto.scrypt_kdf ToyCrypto.gcm_crypt
    ToyCrypto.gcm_tag.
Definition changePassword :=
  WalletManager.changePassword loadWallet saveWallet ToyCrypto.scrypt_kdf
    ToyCrypto.gcm_crypt ToyCrypto.gcm_tag.
Definition removeWallet :=
  WalletManager.removeWallet loadWallet deleteWallet ToyCrypto.scrypt_kdf
    ToyCrypto.gcm_crypt ToyCrypto.gcm_tag.
Definition importWallet :=
  WalletManager.importWallet saveWallet ToyCrypto.scrypt_kdf ToyCrypto.gcm_crypt
    ToyCrypto.gcm_tag fromWif toPublicKey ToySdk.toAddress.
End ToyStorage.

(** The test key encrypted under the test passphrase, and a directory
    that holds one wallet with it. *)
Definition stored_key : WalletCrypto.EncryptedData :=
  match ToyCrypto.encryptWif testWif testPassword with
  | Return encrypted => encrypted
  | Throw _ => legacy_data
  end.

Definition stored_wallet : WalletManager.WalletData :=
  {| WalletManager.wallet_version := "1.0";
     WalletManager.wallet_id := "w1";
     WalletManager.wallet_name := "savings";
     WalletManager.wallet_network := testnet;
     WalletManager.wallet_address := "mkey";
     WalletManager.wallet_createdAt := "2025-01-01T00:00:00.000Z";
     WalletManager.wallet_encrypted := stored_key |}.

Definition one_wallet : ToyStorage.Storage := [stored_wallet].

(** Replies of the price service: HTTP 429 to every request; a price of
    52.31 USD and 48.07 EUR; a reply without the EUR price. *)
Definition price_body (members : list (string * Json.value)) : Json.value :=
  Json.JObject [("bitcoin-sv", Json.JObject members)].

Definition price_quoted (url : string) (attempt : nat)
    : NetworkClient.Reply Json.value :=
  NetworkClient.Fulfilled 200
    (price_body [("usd", Json.JNumber 5231 (-2)); ("eur", Json.JNumber 4807 (-2))]).

Definition price_without_eur (url : string) (attempt : nat)
    : NetworkClient.Reply Json.value :=
  NetworkClient.Fulfilled 200 (price_body [("usd", Json.JNumber 5231 (-2))]).

(** A session in which the indexer lists an output of 1000 satoshis
    before one of 50000, every parent is served and every broadcast is
    accepted; and one in which the broadcast is answered as already
    known. *)
Definition unspent_listed : NetworkQueries.Source (list NetworkClient.Unspent) :=
  λ clock url,
    NetworkClient.Fulfilled 200
      [{| NetworkClient.tx_hash := "9f2c"; NetworkClient.tx_pos := 0;
          NetworkClient.unspent_value := 1000;
          NetworkClient.unspent_height := 800000 |};
       {| NetworkClient.tx_hash := "9f2c"; NetworkClient.tx_pos := 1;
          NetworkClient.unspent_value := 50000;
          NetworkClient.unspent_height := 800000 |}].

Definition accepting : SendTransaction.Remote :=
  {| SendTransaction.unspent_source := unspent_listed;
     SendTransaction.hex_source := parents_served;
     SendTransaction.post_source :=
       λ clock url txHex, NetworkClient.Fulfilled 200 "c0de" |}.

Definition knowing_already : SendTransaction.Remote :=
  {| SendTransaction.unspent_source := unspent_listed;
     SendTransaction.hex_source := parents_served;
     SendTransaction.post_source := λ clock url txHex, already_known url txHex clock |}.

Definition send_40000 : SendTransaction.SendTransactionParams :=
  {| SendTransaction.param_walletId := Some "w1";
     SendTransaction.param_password := Some testPassword;
     SendTransaction.param_toAddress := Some "merchant";
     SendTransaction.param_amount := Some 40000;
     SendTransaction.param_changeAddress := None;
     SendTransaction.param_feeRate := None |}.

(** A wallet manager that opens the wallet [w1] with the test
    passphrase. *)
Definition toy_loadWallet (walletId password : string)
    : completion (WalletManager.UnlockedWallet ToySdk.PrivateKey string) :=
  if String.eqb walletId "w1" && String.eqb password testPassword
  then Return {| WalletManager.unlocked_id := "w1";
                 WalletManager.unlocked_name := "savings";
                 WalletManager.unlocked_network := testnet;
                 WalletManager.unlocked_address := "mkey";
                 WalletManager.unlocked_privateKey := "key";
                 WalletManager.unlocked_publicKey := "key" |}
  else Throw (Error "Error al cargar wallet: Password incorrecto o datos corruptos").

Definition toy_send :=
  SendTransaction.handleSendTransaction ToySdk.Transaction_fromHex
    ToySdk.P2PKH_lock ToySdk.toAddress ToySdk.Transaction_sign
    ToySdkInfo.Transaction_toHex ToySdkInfo.Transaction_id
    ToySdkInfo.source_satoshis toy_loadWallet "2025-01-01T00:00:00.000Z".


(** * Properties *)

Import TransactionBuilder.

(** *** Running the heap operations *)

Section Run.
Context {T : Type}.
Implicit Types (h : gmap loc (list T)) (a : loc) (l : list T).

Lemma run_elements_of h a l :
  h !! a = Some l → elements_of a h = (Return l, h).
Proof. intros E. unfold elements_of. by rewrite E. Qed.

Lemma run_array_length h a l :
  h !! a = Some l → array_length a h = (Return (length l), h).
Proof. intros E. unfold array_length, bind. by rewrite (run_elements_of _ _ _ E). Qed.

Lemma run_push h a l x :
  h !! a = Some l → push a x h = (Return tt, <[a := l ++ [x]]> h).
Proof. intros E. unfold push, bind. by rewrite (run_elements_of _ _ _ E). Qed.

Lemma run_sort h a l f :
  h !! a = Some l → sort a f h = (Return tt, <[a := sorted_by f l]> h).
Proof. intros E. unfold sort, bind. by rewrite (run_elements_of _ _ _ E). Qed.

Lemma fresh_unallocated h : h !! fresh (dom h) = None.
Proof. apply not_elem_of_dom, is_fresh. Qed.

Lemma fresh_other h a l : h !! a = Some l → fresh (dom h) ≠ a.
Proof. intros E F. rewrite <- F, fresh_unallocated in E. discriminate. Qed.
End Run.

Lemma total_value_app l1 l2 :
  total_value (l1 ++ l2) = total_value l1 + total_value l2.
Proof. induction l1 as [|u l1 IH]; simpl; [done | rewrite IH; lia]. Qed.

(** What the selection loop does, started with [done] already pushed
    and [total] their value. *)
Lemma select_loop_spec sel amount rate rest :
  ∀ done total h, h !! sel = Some done →
  match select_loop sel amount rate rest total h with
  | (Return (inl r), h') =>
      ∃ k, (1 ≤ k ≤ length rest)%nat ∧
        h' = <[sel := done ++ take k rest]> h ∧
        utxos r = sel ∧
        totalValue r = total + total_value (take k rest) ∧
        fee r = estimateFee (Z.of_nat (length done + k)) 2 rate ∧
        amount + fee r ≤ totalValue r ∧
        change r = totalValue r - amount - fee r ∧
        ∀ m, (1 ≤ m < k)%nat →
          total + total_value (take m rest)
          < amount + estimateFee (Z.of_nat (length done + m)) 2 rate
  | (Return (inr t), h') =>
      h' = <[sel := done ++ rest]> h ∧
      t = total + total_value rest ∧
      ∀ m, (1 ≤ m ≤ length rest)%nat →
        total + total_value (take m rest)
        < amount + estimateFee (Z.of_nat (length done + m)) 2 rate
  | (Throw _, _) => False
  end.
Proof.
  induction rest as [|u rest IH]; intros done total h E; simpl.
  - unfold ret. split_and!; [by rewrite app_nil_r, insert_id | lia | ].
    intros m Hm. simpl in Hm. lia.
  - unfold bind at 1. rewrite (run_push _ _ _ _ E).
    unfold bind at 1.
    rewrite (run_array_length _ sel (done ++ [u])) by apply lookup_insert_eq.
    rewrite length_app. change (length [u]) with 1%nat.
    destruct (amount + estimateFee (Z.of_nat (length done + 1)) 2 rate
              <=? total + value u) eqn:Hc.
    + unfold ret; cbv beta iota. exists 1%nat. simpl.
      apply Z.leb_le in Hc.
      split_and!; try done; try lia.
    + cbv beta iota. apply Z.leb_gt in Hc.
      specialize (IH (done ++ [u]) (total + value u)
                     (<[sel := done ++ [u]]> h) (lookup_insert_eq _ _ _)).
      destruct (select_loop sel amount rate rest (total + value u)
                  (<[sel := done ++ [u]]> h)) as [[[r|t]|e] h'];
        cbv beta iota in IH; [| |done].
      * destruct IH as (k & Hk & -> & Hu & Ht & Hf & Hle & Hch & Hmin).
        exists (S k). simpl.
        rewrite insert_insert_eq, <- app_assoc. simpl.
        rewrite length_app in Hf, Hmin. simpl in Hf, Hmin.
        replace (Z.of_nat (length done + S k)) with (Z.of_nat (length done + 1 + k)) by lia.
        split_and!; try done; try lia.
        intros [|m] Hm; [lia|]. simpl.
        destruct m as [|m].
        -- rewrite take_0. simpl. lia.
        -- replace (Z.of_nat (length done + S (S m)))
             with (Z.of_nat (length done + 1 + S m)) by lia.
           specialize (Hmin (S m)). lia.
      * destruct IH as (-> & -> & Hmin).
        rewrite insert_insert_eq, <- app_assoc. simpl.
        split_and!; try done; try lia.
        intros [|m] Hm; [lia|]. simpl.
        destruct m as [|m].
        -- rewrite take_0. simpl. lia.
        -- rewrite length_app in Hmin. simpl in Hmin.
           replace (Z.of_nat (length done + S (S m)))
             with (Z.of_nat (length done + 1 + S m)) by lia.
           specialize (Hmin (S m)). simpl in Hm. lia.
Qed.

(** *** The largest-first order *)

Definition descending (l : list UTXOWithSource) : Prop :=
  StronglySorted (λ a b, value b ≤ value a) l.

Lemma sort_insert_perm {T} (f : T → T → Z) x l :
  sort_insert f x l ≡ₚ x :: l.
Proof.
  induction l as [|y l IH]; simpl; [done|].
  destruct (f x y <=? 0); [done|].
  rewrite IH. apply Permutation_swap.
Qed.

Lemma sorted_by_perm {T} (f : T → T → Z) l : sorted_by f l ≡ₚ l.
Proof.
  induction l as [|x l IH]; simpl; [done|].
  rewrite sort_insert_perm. by rewrite IH.
Qed.

Lemma sorted_by_length {T} (f : T → T → Z) l :
  length (sorted_by f l) = length l.
Proof. apply Permutation_length, sorted_by_perm. Qed.

Lemma sort_insert_descending x l :
  descending l → descending (sort_insert largest_first x l).
Proof.
  unfold descending.
  induction 1 as [|y l Hl IH Hy]; simpl.
  - repeat constructor.
  - unfold largest_first at 1.
    destruct (value y - value x <=? 0) eqn:Hc.
    + apply Z.leb_le in Hc.
      constructor; [by constructor|].
      constructor; [lia|].
      eapply Forall_impl; [exact Hy|]. simpl. intros; lia.
    + apply Z.leb_gt in Hc.
      constructor; [done|].
      rewrite sort_insert_perm. constructor; [lia | done].
Qed.

Lemma sorted_by_descending l : descending (sorted_by largest_first l).
Proof.
  induction l as [|x l IH]; simpl; [constructor|].
  by apply sort_insert_descending.
Qed.

Lemma total_value_perm l1 l2 : l1 ≡ₚ l2 → total_value l1 = total_value l2.
Proof. induction 1; simpl; lia. Qed.

(** *** What [selectUTXOs] does to the heap and what it returns *)

Lemma selectUTXOs_empty h a amount rate :
  h !! a = Some [] →
  selectUTXOs a amount rate h = (Throw (Error "No hay UTXOs disponibles"), h).
Proof.
  intros E. unfold selectUTXOs, bind at 1.
  by rewrite (run_array_length _ _ _ E).
Qed.

Lemma selectUTXOs_spec h a us amount rate :
  h !! a = Some us → us ≠ [] →
  let s := sorted_by largest_first us in
  ∃ c sel, c ≠ a ∧ sel ≠ a ∧ sel ≠ c ∧ h !! c = None ∧ h !! sel = None ∧
    match selectUTXOs a amount rate h with
    | (Return r, h') =>
        ∃ k, (1 ≤ k ≤ length us)%nat ∧
          h' = <[sel := take k s]> (<[c := s]> h) ∧
          utxos r = sel ∧
          totalValue r = total_value (take k s) ∧
          fee r = estimateFee (Z.of_nat k) 2 rate ∧
          amount + fee r ≤ totalValue r ∧
          change r = totalValue r - amount - fee r ∧
          ∀ m, (1 ≤ m < k)%nat →
            total_value (take m s) < amount + estimateFee (Z.of_nat m) 2 rate
    | (Throw e, h') =>
        h' = <[sel := s]> (<[c := s]> h) ∧
        e = insufficient_funds
              (amount + estimateFee (Z.of_nat (length us)) 2 rate)
              (total_value us) ∧
        ∀ m, (1 ≤ m ≤ length us)%nat →
          total_value (take m s) < amount + estimateFee (Z.of_nat m) 2 rate
    end.
Proof.
  intros E Hne s.
  set (c := fresh (dom h)).
  set (h2 := <[c := s]> h).
  set (sel := fresh (dom h2)).
  assert (Hc : h !! c = None) by apply fresh_unallocated.
  assert (Hca : c ≠ a) by (eapply fresh_other; exact E).
  assert (Hsel : h2 !! sel = None) by apply fresh_unallocated.
  assert (Hselc : sel ≠ c).
  { eapply fresh_other. unfold h2. apply lookup_insert_eq. }
  assert (Hsela : sel ≠ a).
  { eapply (fresh_other h2). unfold h2. rewrite lookup_insert_ne by done. exact E. }
  exists c, sel. split_and!; try done.
  { unfold h2 in Hsel. by rewrite lookup_insert_ne in Hsel. }
  unfold selectUTXOs, bind at 1.
  rewrite (run_array_length _ _ _ E).
  destruct us as [|u0 us']; [done|]. cbv beta iota.
  change (length (u0 :: us') =? 0)%nat with false. cbv iota.
  set (us := u0 :: us') in *.
  unfold bind at 1. rewrite (run_elements_of _ _ _ E).
  unfold bind at 1, new_array at 1. cbv beta zeta. fold c.
  unfold bind at 1.
  rewrite (run_sort _ c us) by apply lookup_insert_eq.
  rewrite insert_insert_eq. fold s. fold h2.
  unfold bind at 1, new_array at 1. cbv beta zeta. fold sel.
  unfold bind at 1.
  rewrite (run_elements_of _ c s)
    by (rewrite lookup_insert_ne by done; apply lookup_insert_eq).
  unfold bind at 1.
  pose proof (select_loop_spec sel amount rate s [] 0 (<[sel := []]> h2)
                (lookup_insert_eq _ _ _)) as L.
  destruct (select_loop sel amount rate s 0 (<[sel := []]> h2))
    as [[[r|t]|e] h']; cbv beta iota in L; [| |done].
  - destruct L as (k & Hk & -> & Hu & Ht & Hf & Hle & Hch & Hmin).
    unfold ret. exists k.
    rewrite insert_insert_eq.
    assert (Hls : length s = length us) by apply sorted_by_length.
    change ([] ++ take k s) with (take k s).
    change (length [] + k)%nat with k in Hf.
    rewrite Z.add_0_l in Ht.
    split_and!; try done; try lia.
  - destruct L as (-> & -> & Hmin).
    rewrite insert_insert_eq. change ([] ++ s) with s.
    assert (Hls : length s = length us) by apply sorted_by_length.
    unfold bind at 1.
    rewrite (run_array_length _ sel s) by apply lookup_insert_eq.
    unfold throw. rewrite Hls.
    split_and!; try done.
    + f_equal. f_equal.
      unfold s. rewrite (total_value_perm _ _ (sorted_by_perm _ us)). lia.
    + intros m Hm. rewrite Hls in Hmin. specialize (Hmin m Hm).
      change (length [] + m)%nat with m in Hmin. lia.
Qed.


(** *** Claims about [selectUTXOs] *)



(** C10.  [selectUTXOs] sorts a copy: the array the caller passed holds
    the same elements in the same order after the call as before it,
    whether the call returns or throws. *)
Theorem selectUTXOs_leaves_input_unchanged h a us amount rate :
  h !! a = Some us →
  (selectUTXOs a amount rate h).2 !! a = Some us.
Proof.
  intros E. destruct us as [|u0 us'].
  { by rewrite (selectUTXOs_empty _ _ _ _ E). }
  destruct (selectUTXOs_spec h a (u0 :: us') amount rate E)
    as (c & sel & Hca & Hsela & Hselc & Hc & Hsel & L); [done|].
  destruct (selectUTXOs a amount rate h) as [[r|e] h']; simpl.
  - destruct L as (k & _ & -> & _).
    by rewrite !lookup_insert_ne.
  - destruct L as (-> & _).
    by rewrite !lookup_insert_ne.
Qed.

Lemma selectUTXOs_leaves_input_unchanged_witness :
  (selectUTXOs 1%positive 40000 (1 # 2) scenario_A_heap).2 !! 1%positive
  = Some scenario_A_outputs
  ∧ (selectUTXOs 1%positive 999999 (1 # 2) scenario_A_heap).2 !! 1%positive
    = Some scenario_A_outputs.
Proof.
  split; apply selectUTXOs_leaves_input_unchanged; vm_compute; reflexivity.
Defined.

(** *** String search *)

Lemma includes_unfold s needle :
  includes s needle =
  if startsWith s needle then true
  else match s with EmptyString => false | String _ s' => includes s' needle end.
Proof. by destruct s. Qed.

Lemma startsWith_app s t : startsWith (s +:+ t) s = true.
Proof. induction s as [|c s IH]; simpl; [done|]. by rewrite Ascii.eqb_refl. Qed.

Lemma includes_here s t : includes (s +:+ t) s = true.
Proof. by rewrite includes_unfold, startsWith_app. Qed.

Lemma includes_app_r p s needle :
  includes s needle = true → includes (p +:+ s) needle = true.
Proof.
  intros H. induction p as [|c p IH]; simpl; [done|].
  by destruct (startsWith (String c (p +:+ s)) needle).
Qed.




(** *** Inverting successful runs *)

Section Inversion.
Context {T : Type}.
Implicit Types (h : gmap loc (list T)).

Lemma bind_Return {A B} (m : M T A) (k : A → M T B) h b h' :
  bind m k h = (Return b, h') →
  ∃ a h1, m h = (Return a, h1) ∧ k a h1 = (Return b, h').
Proof.
  unfold bind. destruct (m h) as [[a|e] h1]; [eauto | discriminate].
Qed.

Lemma try_catch_rethrow {A} (m : M T A) (f : JsError → JsError) h a h' :
  try_catch m (λ e, throw (f e)) h = (Return a, h') → m h = (Return a, h').
Proof.
  unfold try_catch, throw. by destruct (m h) as [[a'|e] h1].
Qed.

Lemma elements_of_Return a h l h' :
  elements_of (T := T) a h = (Return l, h') → h !! a = Some l ∧ h' = h.
Proof.
  unfold elements_of. destruct (h !! a); [|discriminate].
  intros [= -> ->]. done.
Qed.

Lemma array_length_Return a h n h' :
  array_length (T := T) a h = (Return n, h') →
  ∃ l, h !! a = Some l ∧ n = length l ∧ h' = h.
Proof.
  unfold array_length. intros H.
  apply bind_Return in H as (l & h1 & H1 & H2).
  apply elements_of_Return in H1 as [E ->].
  unfold ret in H2. injection H2 as <- <-. eauto.
Qed.
End Inversion.

Ltac invert_bind H x h H1 :=
  apply bind_Return in H as (x & h & H1 & H).

Lemma estimateFee_nonneg n k rate :
  0 ≤ n → 0 ≤ k → (0 <= rate)%Q → 0 ≤ estimateFee n k rate.
Proof.
  intros Hn Hk Hr. unfold estimateFee, headerSize, inputSize, outputSize.
  change 0 with (Qceiling 0). apply Qceiling_resp_le.
  apply Qmult_le_0_compat; [|done].
  change 0%Q with (inject_Z 0). rewrite <- Zle_Qle. lia.
Qed.

Section BuildTransaction.
Context {PrivateKey SourceTransaction Script : Type}.
Variable fromHex : string → completion SourceTransaction.
Variable lock : string → completion Script.
Variable toAddress : PrivateKey → option string → string.
Local Abbreviation Tx :=
  (Transaction (PrivateKey := PrivateKey)
     (SourceTransaction := SourceTransaction) (Script := Script)).
Variable sign : Tx → completion (list Script).

Lemma lift_Return {A} (c : completion A) h a h' :
  lift c h = (Return a, h') → c = Return a ∧ h' = h.
Proof. destruct c; simpl; unfold ret, throw; intros [= -> ->]; done. Qed.

Lemma add_inputs_Return (key : PrivateKey) selected :
  ∀ (tx : Tx) h tx' h',
    add_inputs fromHex key tx selected h = (Return tx', h') →
    h' = h ∧
    spent <$> inputs tx' = (spent <$> inputs tx) ++ selected ∧
    outputs tx' = outputs tx.
Proof.
  induction selected as [|u rest IH]; intros tx h tx' h' H; simpl in H.
  - unfold ret in H. injection H as <- <-. by rewrite app_nil_r.
  - invert_bind H src h1 Hsrc.
    apply lift_Return in Hsrc as [_ ->].
    apply IH in H as (-> & Hs & Ho). simpl in Hs, Ho.
    rewrite fmap_app, <- app_assoc in Hs. done.
Qed.


End BuildTransaction.



(** * Further properties *)

(** ** Output selection among all selections *)

Lemma total_value_take_S l k u :
  l !! k = Some u → total_value (take (S k) l) = total_value (take k l) + value u.
Proof.
  intros H. rewrite (take_S_r _ _ _ H), total_value_app. simpl. lia.
Qed.

Lemma descending_lookup x s k u :
  descending (x :: s) → s !! k = Some u → value u ≤ value x.
Proof.
  intros H Hk. apply StronglySorted_inv in H as [_ H].
  rewrite Forall_forall in H. apply H. by eapply list_elem_of_lookup_2.
Qed.

(** In a value-descending list, no selection of [k] elements is worth
    more than the first [k]. *)
Lemma top_k_dominates s :
  descending s → ∀ sel, sel ⊆+ s →
  total_value sel ≤ total_value (take (length sel) s).
Proof.
  induction s as [|x s IH]; intros Hs sel Hsub.
  - apply submseteq_nil_r in Hsub. subst. simpl. lia.
  - pose proof Hs as Hs'. apply StronglySorted_inv in Hs' as [Hs' Hx].
    apply submseteq_cons_r in Hsub as [Hsub | (sel' & Hp & Hsub)].
    + destruct sel as [|y sel]; [simpl; lia|].
      specialize (IH Hs' _ Hsub).
      pose proof (submseteq_length _ _ Hsub) as Hlen. simpl in Hlen.
      destruct (lookup_lt_is_Some_2 s (length sel)) as [u Hu]; [lia|].
      change (length (y :: sel)) with (S (length sel)) in *.
      rewrite (total_value_take_S _ _ _ Hu) in IH.
      change (take (S (length sel)) (x :: s)) with (x :: take (length sel) s).
      pose proof (descending_lookup _ _ _ _ Hs Hu).
      change (total_value (x :: take (length sel) s))
        with (value x + total_value (take (length sel) s)). lia.
    + rewrite (total_value_perm _ _ Hp), (Permutation_length Hp).
      specialize (IH Hs' _ Hsub). simpl. simpl in IH. lia.
Qed.

Lemma top_k_of_any us sel :
  sel ⊆+ us →
  total_value sel ≤ total_value (take (length sel) (sorted_by largest_first us)).
Proof.
  intros H. apply top_k_dominates; [apply sorted_by_descending|].
  by rewrite sorted_by_perm.
Qed.





(** ** The fee estimate *)

Lemma estimateFee_unfold n k rate :
  estimateFee n k rate = Qceiling (inject_Z (10 + n * 148 + k * 34) * rate).
Proof. reflexivity. Qed.



(** ** What [buildTransaction] builds *)

Section Preservation.

Lemma preserves_ret {A} (a : A) : preserves (ret a).
Proof. by intros h a' l H. Qed.

Lemma preserves_throw {A} e : preserves (throw (A := A) e).
Proof. by intros h a' l H. Qed.

Lemma preserves_bind {A B} (m : M UTXOWithSource A) (k : A → M UTXOWithSource B) :
  preserves m → (∀ a, preserves (k a)) → preserves (bind m k).
Proof.
  intros Hm Hk h a l H. unfold bind.
  specialize (Hm h a l H).
  destruct (m h) as [[x|e] h1]; simpl in *; [by apply Hk | done].
Qed.

Lemma preserves_try_catch {A} (m : M UTXOWithSource A) handler :
  preserves m → (∀ e, preserves (handler e)) → preserves (try_catch m handler).
Proof.
  intros Hm Hk h a l H. unfold try_catch.
  specialize (Hm h a l H).
  destruct (m h) as [[x|e] h1]; simpl in *; [done | by apply Hk].
Qed.

Lemma preserves_elements_of a : preserves (elements_of a).
Proof. intros h a' l H. unfold elements_of. by destruct (h !! a). Qed.

Lemma preserves_array_length a : preserves (array_length a).
Proof.
  apply preserves_bind; [apply preserves_elements_of | intros; apply preserves_ret].
Qed.

Lemma preserves_new_array l : preserves (new_array l).
Proof.
  intros h a l' H. unfold new_array. simpl.
  rewrite lookup_insert_ne; [done|]. by eapply fresh_other.
Qed.

Lemma preserves_selectUTXOs a amount rate : preserves (selectUTXOs a amount rate).
Proof.
  intros h a' l H.
  destruct (h !! a) as [us|] eqn:Ha.
  - destruct (decide (us = [])) as [->|Hus].
    + by rewrite (selectUTXOs_empty _ _ _ _ Ha).
    + destruct (selectUTXOs_spec h a us amount rate Ha Hus)
        as (c & s & _ & _ & _ & Hc & Hs & Hrun).
      assert (a' ≠ c) by congruence. assert (a' ≠ s) by congruence.
      destruct (selectUTXOs a amount rate h) as [[r|e] h']; simpl.
      * destruct Hrun as (k & _ & -> & _). by rewrite !lookup_insert_ne.
      * destruct Hrun as (-> & _). by rewrite !lookup_insert_ne.
  - unfold selectUTXOs, bind at 1, array_length, bind, elements_of.
    by rewrite Ha.
Qed.

End Preservation.

Section BuildTransactionShape.
Context {PrivateKey SourceTransaction Script : Type}.
Variable fromHex : string → completion SourceTransaction.
Variable lock : string → completion Script.
Variable toAddress : PrivateKey → option string → string.
Local Abbreviation Tx :=
  (Transaction (PrivateKey := PrivateKey)
     (SourceTransaction := SourceTransaction) (Script := Script)).
Variable sign : Tx → completion (list Script).
Local Abbreviation build := (buildTransaction fromHex lock toAddress sign).

Lemma preserves_lift {A} (c : completion A) : preserves (lift c).
Proof. destruct c; [apply preserves_ret | apply preserves_throw]. Qed.

Lemma preserves_add_inputs (key : PrivateKey) selected :
  ∀ tx : Tx, preserves (add_inputs fromHex key tx selected).
Proof.
  induction selected as [|u rest IH]; intros tx; simpl.
  - apply preserves_ret.
  - apply preserves_bind; [apply preserves_lift | intros; apply IH].
Qed.

Lemma preserves_buildTransaction params : preserves (build params).
Proof.
  unfold buildTransaction.
  apply preserves_try_catch; [|intros; apply preserves_throw].
  destruct (amount params <=? 0); [apply preserves_throw|].
  apply preserves_bind; [apply preserves_array_length|]. intros n.
  destruct (n =? 0)%nat; [apply preserves_throw|].
  apply preserves_bind; [apply preserves_selectUTXOs|]. intros selected.
  apply preserves_bind; [apply preserves_elements_of|]. intros chosen.
  apply preserves_bind; [apply preserves_add_inputs|]. intros tx1.
  apply preserves_bind; [apply preserves_lift|]. intros payScript.
  apply preserves_bind.
  { destruct (0 <? change selected); [|apply preserves_ret].
    apply preserves_bind; [apply preserves_lift | intros; apply preserves_ret]. }
  intros tx2.
  apply preserves_bind; [apply preserves_lift | intros; apply preserves_ret].
Qed.

Lemma add_inputs_shape (key : PrivateKey) selected :
  ∀ (tx : Tx) h tx' h',
    add_inputs fromHex key tx selected h = (Return tx', h') →
    h' = h ∧
    outputs tx' = outputs tx ∧
    unlockingScripts tx' = unlockingScripts tx ∧
    ∃ added, inputs tx' = inputs tx ++ added ∧
      Forall2 (input_for fromHex key) selected added.
Proof.
  induction selected as [|u rest IH]; intros tx h tx' h' H; simpl in H.
  - unfold ret in H. injection H as <- <-. split_and!; try done.
    exists []. by rewrite app_nil_r.
  - invert_bind H src h1 Hsrc.
    apply lift_Return in Hsrc as [Hsrc ->].
    apply IH in H as (-> & Ho & Hs & added & Hi & Hall). simpl in *.
    split_and!; try done.
    eexists (_ :: added). rewrite <- app_assoc in Hi. split; [exact Hi|].
    constructor; [|done]. by repeat split.
Qed.

(** All that a successful run of [buildTransaction] establishes. *)
Lemma buildTransaction_Return (params : BuildTxParams) h tx h' :
  build params h = (Return tx, h') →
  let rate := default default_feeRate (feeRate params) in
  ∃ us k payScript scripts,
    let chosen := take k (sorted_by largest_first us) in
    let fee := estimateFee (Z.of_nat k) 2 rate in
    let change := total_value chosen - amount params - fee in
    let pay := {| lockingScript := payScript; satoshis := amount params |} in
    0 < amount params ∧
    h !! params_utxos params = Some us ∧
    (1 ≤ k ≤ length us)%nat ∧
    amount params + fee ≤ total_value chosen ∧
    (∀ m, (1 ≤ m < k)%nat →
       total_value (take m (sorted_by largest_first us))
       < amount params + estimateFee (Z.of_nat m) 2 rate) ∧
    Forall2 (input_for fromHex (privateKey params)) chosen (inputs tx) ∧
    lock (payToAddress params) = Return payScript ∧
    (if 0 <? change
     then ∃ changeScript,
            lock (change_address toAddress params) = Return changeScript ∧
            outputs tx = [pay; {| lockingScript := changeScript; satoshis := change |}]
     else outputs tx = [pay]) ∧
    unlockingScripts tx = Some scripts ∧
    sign {| inputs := inputs tx; outputs := outputs tx; unlockingScripts := None |}
    = Return scripts.
Proof.
  intros H rate.
  unfold buildTransaction in H. apply try_catch_rethrow in H.
  destruct (amount params <=? 0) eqn:Hamount; [discriminate|].
  apply Z.leb_gt in Hamount.
  invert_bind H n h1 Hn.
  apply array_length_Return in Hn as (us & E & -> & ->).
  destruct (decide (us = [])) as [->|Hne]; [discriminate|].
  assert (Hl : (length us =? 0)%nat = false) by (by destruct us).
  cbv beta in H. rewrite Hl in H.
  invert_bind H selected h2 Hselect. fold rate in Hselect.
  destruct (selectUTXOs_spec h _ us (amount params) rate E Hne)
    as (c & sel & Hca & Hsela & Hselc & Hc & Hsel & L).
  rewrite Hselect in L.
  destruct L as (k & Hk & -> & Hu & Ht & Hf & Hle & Hch & Hmin).
  set (s := sorted_by largest_first us) in *.
  invert_bind H chosen h3 Hchosen.
  apply elements_of_Return in Hchosen as [Echosen ->].
  rewrite Hu, lookup_insert_eq in Echosen. injection Echosen as <-.
  invert_bind H tx1 h4 Hadd.
  apply add_inputs_shape in Hadd as (-> & Hout & Hscr & added & Hin & Hall).
  destruct tx1 as [ins outs scr]. simpl in Hin, Hout, Hscr. subst ins outs scr.
  invert_bind H payScript h5 Hpay.
  apply lift_Return in Hpay as [Hpay ->].
  invert_bind H tx2 h6 Hchg.
  invert_bind H scripts h7 Hsign.
  apply lift_Return in Hsign as [Hsign ->].
  unfold ret in H. injection H as <- <-.
  assert (Hchange : total_value (take k s) - amount params
                      - estimateFee (Z.of_nat k) 2 rate = change selected) by lia.
  exists us, k, payScript, scripts. cbv zeta. fold s.
  rewrite Hchange.
  destruct (0 <? change selected) eqn:Hpos.
  - invert_bind Hchg changeScript h8 Hlock.
    apply lift_Return in Hlock as [Hlock ->].
    unfold ret in Hchg. injection Hchg as <- <-.
    unfold addOutput in *. simpl in *.
    split_and!; try done; try lia.
    by exists changeScript.
  - unfold ret in Hchg. injection Hchg as <- <-.
    unfold addOutput in *. simpl in *.
    split_and!; try done; try lia.
Qed.

(** X4.  Where the money of a built transaction goes.  The first output
    pays the amount to the payee's address.  A second output exists only
    for change, and it is locked to the caller's change address when one
    is given and not empty, and to the address of the signing key on the
    wallet's network otherwise.  Every input spends, at the index the
    indexer reported, an output of the parent transaction parsed from the
    hex that came with it, is unlocked with the caller's key and has the
    final sequence number; the transaction is returned signed. *)
Theorem buildTransaction_destinations (params : BuildTxParams) h tx h' :
  build params h = (Return tx, h') →
  (∃ payScript rest,
     lock (payToAddress params) = Return payScript ∧
     outputs tx = {| lockingScript := payScript; satoshis := amount params |} :: rest ∧
     (length rest ≤ 1)%nat ∧
     ∀ o, o ∈ rest →
       0 < satoshis o ∧
       lock (match changeAddress params with
             | Some a =>
                 if decide (a = "") then
                   toAddress (privateKey params)
                     (match network params with
                      | testnet => Some "testnet" | mainnet => None end)
                 else a
             | None =>
                 toAddress (privateKey params)
                   (match network params with
                    | testnet => Some "testnet" | mainnet => None end)
             end) = Return (lockingScript o))
  ∧ Forall (λ input,
       sourceOutputIndex input = vout (spent input) ∧
       fromHex (sourceTransactionHex (spent input))
       = Return (sourceTransaction input) ∧
       unlockingKey input = privateKey params ∧
       sequence input = 4294967295) (inputs tx)
  ∧ ∃ scripts,
      unlockingScripts tx = Some scripts ∧
      sign {| inputs := inputs tx; outputs := outputs tx; unlockingScripts := None |}
      = Return scripts.
Proof.
  intros H.
  apply buildTransaction_Return in H
    as (us & k & payScript & scripts & Hamount & Hus & Hk & Hpay & Hmin &
        Hin & Hlock & Hout & Hscr & Hsign).
  split_and!.
  - destruct (0 <? _) eqn:Hpos.
    + destruct Hout as (changeScript & Hchg & ->).
      eexists payScript, [_]. split_and!; [done | done | simpl; lia|].
      intros o ->%list_elem_of_singleton. simpl.
      apply Z.ltb_lt in Hpos. split; [lia|].
      rewrite <- Hchg. unfold change_address.
      destruct (changeAddress params) as [a|]; [|done].
      destruct (decide (a = "")) as [->|Hne]; [done|].
      by apply String.eqb_neq in Hne as ->.
    + exists payScript, []. split_and!; [done | done | simpl; lia|].
      intros o Ho. by apply elem_of_nil in Ho.
  - clear -Hin. induction Hin as [|u i l l' Hi _ IH]; constructor; [|done].
    destruct Hi as (<- & ? & ? & ? & ?). done.
  - by exists scripts.
Qed.




(** X6.  [buildTransaction] changes no array that exists when it is
    called, whether it returns or throws: the caller's array of outputs,
    and any other array, holds afterwards what it held before. *)
Theorem buildTransaction_leaves_arrays_unchanged (params : BuildTxParams) h a l :
  h !! a = Some l → (build params h).2 !! a = Some l.
Proof. apply preserves_buildTransaction. Qed.

End BuildTransactionShape.

Lemma buildTransaction_destinations_witness :
  ∃ tx h',
    ToySdk.build (payment_params None) payment_heap = (Return tx, h') ∧
    lockingScript <$> outputs tx = ["76a914merchant88ac"; "76a914mkey88ac"].
Proof.
  eexists _, _. split; [vm_compute; reflexivity|].
  destruct (buildTransaction_destinations ToySdk.Transaction_fromHex
              ToySdk.P2PKH_lock ToySdk.toAddress ToySdk.Transaction_sign
              (payment_params None) payment_heap _ _
              ltac:(vm_compute; reflexivity)) as (_ & _ & _).
  vm_compute. reflexivity.
Defined.


Lemma buildTransaction_leaves_arrays_unchanged_witness :
  (ToySdk.build (payment_params None) payment_heap).2 !! 1%positive
  = Some [output_worth 1000].
Proof.
  apply (buildTransaction_leaves_arrays_unchanged ToySdk.Transaction_fromHex
           ToySdk.P2PKH_lock ToySdk.toAddress ToySdk.Transaction_sign
           (payment_params None) payment_heap 1%positive).
  reflexivity.
Defined.

(** ** Chain data client *)

Import NetworkClient.

Lemma retryable_not_404 error :
  isRetryableError error = true → is_404 error = false.
Proof.
  unfold isRetryableError, is_404. destruct (response error) as [r|]; [|done].
  destruct (500 <=? status r) eqn:H5.
  - intros _. apply Z.leb_le in H5. apply Z.eqb_neq. lia.
  - destruct (status r =? 429) eqn:H429; [|done].
    intros _. apply Z.eqb_eq in H429. apply Z.eqb_neq. lia.
Qed.

Lemma transient_inv {D} (reply : Reply D) :
  transient reply = true →
  ∃ error, reply = Rejected (IsAxiosError error) ∧ isRetryableError error = true.
Proof. destruct reply as [st body|[error|e]]; simpl; [done| eauto |done]. Qed.

Section ReadLoop.
Context {D R : Type}.
Variable op : ReadOperation D R.
Variable config : RetryConfig.
Variable remote : nat → Reply D.

Lemma read_loop_retries n :
  ∀ fuel attempt slept,
    (∀ j, (attempt ≤ j < attempt + n)%nat → transient (remote j) = true) →
    Z.of_nat (attempt + n) ≤ maxRetries config →
    (n ≤ fuel)%nat →
    read_loop op config remote fuel attempt slept
    = read_loop op config remote (fuel - n) (attempt + n)
        (slept ++ ((λ a, getBackoffDelay a config) <$> seq attempt n)).
Proof.
  induction n as [|n IH]; intros fuel attempt slept Htr Hmax Hfuel.
  - simpl. by rewrite Nat.sub_0_r, Nat.add_0_r, app_nil_r.
  - destruct fuel as [|fuel]; [lia|].
    destruct (transient_inv _ (Htr attempt ltac:(lia))) as (error & Hreply & Hretry).
    simpl read_loop. rewrite Hreply. simpl try_request. cbv beta iota.
    rewrite (retryable_not_404 _ Hretry), Hretry.
    replace (Z.of_nat attempt <? maxRetries config) with true
      by (symmetry; apply Z.ltb_lt; lia).
    simpl andb. cbv iota.
    rewrite IH; [| intros j Hj; apply Htr; lia | lia | lia].
    replace (S attempt + n)%nat with (attempt + S n)%nat by lia.
    by rewrite <- app_assoc.
Qed.

Lemma read_loop_settles fuel attempt slept :
  Z.of_nat attempt = maxRetries config ∨ transient (remote attempt) = false →
  read_loop op config remote (S fuel) attempt slept
  = (settle op (remote attempt), slept).
Proof.
  intros Hlast. simpl. unfold settle.
  destruct (try_request op (remote attempt)) as [r|[error|e]] eqn:Htry; try done.
  destruct (if is_404 error then on_404 op else None); [done|].
  assert (Hstop : isRetryableError error && (Z.of_nat attempt <? maxRetries config) = false).
  { destruct Hlast as [Hlast|Hlast].
    - rewrite <- Hlast, Z.ltb_irrefl. apply andb_false_r.
    - destruct (remote attempt) as [st body|t]; simpl in Htry.
      + by destruct (st =? 200).
      + injection Htry as ->. simpl in Hlast. by rewrite Hlast. }
  by rewrite Hstop.
Qed.

(** A read makes its requests one after the other; it waits the backoff
    delay after each transient failure, and ends on the first reply that
    is not one, or on the reply to the last attempt. *)
Lemma read_characterisation k :
  Z.of_nat k ≤ maxRetries config →
  (∀ j, (j < k)%nat → transient (remote j) = true) →
  Z.of_nat k = maxRetries config ∨ transient (remote k) = false →
  read op config remote = (settle op (remote k), backoff_delays config k).
Proof.
  intros Hk Htr Hlast. unfold read, iterations.
  rewrite (read_loop_retries k); [| intros j Hj; apply Htr; lia | lia | lia].
  replace (Z.to_nat (maxRetries config + 1) - k)%nat
    with (S (Z.to_nat (maxRetries config) - k)) by lia.
  by rewrite read_loop_settles.
Qed.

End ReadLoop.

Section BroadcastLoop.
Variable config : RetryConfig.
Variable remote : nat → Reply string.

Lemma transient_post_inv (reply : Reply string) :
  transient_post reply = true →
  ∃ error, reply = Rejected (IsAxiosError error) ∧
    classified error = false ∧ isRetryableError error = true.
Proof.
  destruct reply as [st body|[error|e]]; simpl; [done| |done].
  intros [Hc Hr]%andb_prop. apply negb_true_iff in Hc. eauto.
Qed.

Lemma unclassified_inv error :
  classified error = false →
  match errorMessage error with Some m => already_broadcast m | None => false end = false ∧
  match errorMessage error with Some m => inputs_missing_or_spent m | None => false end = false.
Proof.
  unfold classified. destruct (errorMessage error); [|done].
  by intros [-> ->]%orb_false_elim.
Qed.

Lemma broadcast_loop_retries n :
  ∀ fuel attempt slept,
    (∀ j, (attempt ≤ j < attempt + n)%nat → transient_post (remote j) = true) →
    Z.of_nat (attempt + n) ≤ maxRetries config →
    (n ≤ fuel)%nat →
    broadcast_loop config remote fuel attempt slept
    = broadcast_loop config remote (fuel - n) (attempt + n)
        (slept ++ ((λ a, getBackoffDelay a config) <$> seq attempt n)).
Proof.
  induction n as [|n IH]; intros fuel attempt slept Htr Hmax Hfuel.
  - simpl. by rewrite Nat.sub_0_r, Nat.add_0_r, app_nil_r.
  - destruct fuel as [|fuel]; [lia|].
    destruct (transient_post_inv _ (Htr attempt ltac:(lia)))
      as (error & Hreply & Hclass & Hretry).
    destruct (unclassified_inv _ Hclass) as [H1 H2].
    simpl broadcast_loop. rewrite Hreply. simpl try_post. cbv beta iota zeta.
    rewrite H1, H2, Hretry.
    replace (Z.of_nat attempt <? maxRetries config) with true
      by (symmetry; apply Z.ltb_lt; lia).
    simpl andb. cbv iota.
    rewrite IH; [| intros j Hj; apply Htr; lia | lia | lia].
    replace (S attempt + n)%nat with (attempt + S n)%nat by lia.
    by rewrite <- app_assoc.
Qed.

Lemma broadcast_loop_settles fuel attempt slept :
  Z.of_nat attempt = maxRetries config ∨ transient_post (remote attempt) = false →
  broadcast_loop config remote (S fuel) attempt slept
  = (Return (settle_post (remote attempt)), slept).
Proof.
  intros Hlast. simpl. unfold settle_post.
  destruct (try_post (remote attempt)) as [r|[error|e]] eqn:Htry; try done.
  cbv zeta.
  destruct (errorMessage error) as [m|] eqn:Hm.
  - destruct (already_broadcast m) eqn:Hab; [done|].
    destruct (inputs_missing_or_spent m) eqn:Him; [done|].
    assert (Hstop : isRetryableError error && (Z.of_nat attempt <? maxRetries config) = false).
    { destruct Hlast as [Hlast|Hlast].
      - rewrite <- Hlast, Z.ltb_irrefl. apply andb_false_r.
      - destruct (remote attempt) as [st body|t]; simpl in Htry.
        + by destruct (st =? 200).
        + injection Htry as ->. simpl in Hlast. unfold classified in Hlast.
          rewrite Hm, Hab, Him in Hlast. simpl in Hlast. by rewrite Hlast. }
    by rewrite Hstop.
  - assert (Hstop : isRetryableError error && (Z.of_nat attempt <? maxRetries config) = false).
    { destruct Hlast as [Hlast|Hlast].
      - rewrite <- Hlast, Z.ltb_irrefl. apply andb_false_r.
      - destruct (remote attempt) as [st body|t]; simpl in Htry.
        + by destruct (st =? 200).
        + injection Htry as ->. simpl in Hlast. unfold classified in Hlast.
          rewrite Hm in Hlast. simpl in Hlast. by rewrite Hlast. }
    by rewrite Hstop.
Qed.

Lemma broadcast_characterisation k :
  Z.of_nat k ≤ maxRetries config →
  (∀ j, (j < k)%nat → transient_post (remote j) = true) →
  Z.of_nat k = maxRetries config ∨ transient_post (remote k) = false →
  broadcast_loop config remote (iterations config) 0 []
  = (Return (settle_post (remote k)), backoff_delays config k).
Proof.
  intros Hk Htr Hlast. unfold iterations.
  rewrite (broadcast_loop_retries k); [| intros j Hj; apply Htr; lia | lia | lia].
  replace (Z.to_nat (maxRetries config + 1) - k)%nat
    with (S (Z.to_nat (maxRetries config) - k)) by lia.
  by rewrite broadcast_loop_settles.
Qed.

End BroadcastLoop.

Lemma first_settled {D} (is_transient : Reply D → bool) (remote : nat → Reply D) n :
  ∃ k, (k ≤ n)%nat ∧
    (∀ j, (j < k)%nat → is_transient (remote j) = true) ∧
    (k = n ∨ is_transient (remote k) = false).
Proof.
  induction n as [|n (k & Hk & Hbefore & Hat)].
  - exists 0%nat. split_and!; [lia | intros; lia | by left].
  - destruct Hat as [->|Hat].
    + destruct (is_transient (remote n)) eqn:Hn.
      * exists (S n). split_and!; [lia | | by left].
        intros j Hj. destruct (decide (j = n)) as [->|]; [done|]. apply Hbefore. lia.
      * exists n. split_and!; [lia | done | by right].
    + exists k. split_and!; [lia | done | by right].
Qed.

Lemma read_always_settles {D R} (op : ReadOperation D R) config (remote : nat → Reply D) :
  0 ≤ maxRetries config →
  ∃ k, Z.of_nat k ≤ maxRetries config ∧
    (∀ j, (j < k)%nat → transient (remote j) = true) ∧
    (Z.of_nat k = maxRetries config ∨ transient (remote k) = false) ∧
    read op config remote = (settle op (remote k), backoff_delays config k).
Proof.
  intros Hmax.
  destruct (first_settled transient remote (Z.to_nat (maxRetries config)))
    as (k & Hk & Hbefore & Hat).
  assert (Hlast : Z.of_nat k = maxRetries config ∨ transient (remote k) = false).
  { destruct Hat as [->|]; [left; lia | by right]. }
  exists k. split_and!; [lia | done | done |].
  apply read_characterisation; [lia | done | done].
Qed.

Lemma broadcast_always_settles config (remote : nat → Reply string) :
  0 ≤ maxRetries config →
  ∃ k, Z.of_nat k ≤ maxRetries config ∧
    (∀ j, (j < k)%nat → transient_post (remote j) = true) ∧
    (Z.of_nat k = maxRetries config ∨ transient_post (remote k) = false) ∧
    broadcast_loop config remote (iterations config) 0 []
    = (Return (settle_post (remote k)), backoff_delays config k).
Proof.
  intros Hmax.
  destruct (first_settled transient_post remote (Z.to_nat (maxRetries config)))
    as (k & Hk & Hbefore & Hat).
  assert (Hlast : Z.of_nat k = maxRetries config ∨ transient_post (remote k) = false).
  { destruct Hat as [->|]; [left; lia | by right]. }
  exists k. split_and!; [lia | done | done |].
  apply broadcast_characterisation; [lia | done | done].
Qed.

Lemma backoff_delays_default k :
  (k ≤ 3)%nat → backoff_delays DEFAULT_RETRY_CONFIG k = take k [1000; 2000; 4000].
Proof. intros Hk. destruct k as [|[|[|[|k]]]]; try lia; reflexivity. Qed.

Lemma loop_extends_slept config remote fuel :
  ∀ attempt slept,
    ∃ more, (broadcast_loop config remote fuel attempt slept).2 = slept ++ more.
Proof.
  induction fuel as [|fuel IH]; intros attempt slept; simpl.
  - exists []. by rewrite app_nil_r.
  - destruct (try_post (remote attempt)) as [r|[error|e]];
      try (exists []; by rewrite app_nil_r).
    cbv zeta.
    repeat (match goal with |- context [if ?b then _ else _] => destruct b end;
            try (exists []; by rewrite app_nil_r)).
    destruct (IH (S attempt) (slept ++ [getBackoffDelay attempt config])) as [more ->].
    exists (getBackoffDelay attempt config :: more). by rewrite <- app_assoc.
Qed.

Lemma broadcast_loop_returns config remote fuel :
  ∀ attempt slept,
    is_thrown (broadcast_loop config remote fuel attempt slept).1 = false.
Proof.
  induction fuel as [|fuel IH]; intros attempt slept; simpl; [done|].
  destruct (try_post (remote attempt)) as [r|[error|e]]; try done.
  cbv zeta.
  repeat (match goal with |- context [if ?b then _ else _] => destruct b end;
          try done).
Qed.

(** C7.  The retry policy.  An error is retryable exactly when no
    response was received, or the status is 5xx, or it is 429.  The delay
    before retry [k] is min(1000 ms * 2^k, 10000 ms): 1 s, 2 s, 4 s.  Every
    read operation, and a broadcast whose rejections carry none of the
    classified texts, repeats the request after each transient failure,
    waiting these delays, and ends on the first reply that is not a
    transient failure or on the fourth reply: whatever the remote source
    answers, there are at most 3 retries.  A 4xx status other than 429 is
    not a transient failure, so it is never retried and the call ends on it
    at once. *)
Theorem retry_policy :
  (∀ error, isRetryableError error = true ↔
     response error = None ∨
     ∃ r, response error = Some r ∧ (500 ≤ status r ∨ status r = 429))
  ∧ (∀ k, getBackoffDelay k DEFAULT_RETRY_CONFIG
          = Z.min (1000 * 2 ^ Z.of_nat k) 10000)
  ∧ backoff_delays DEFAULT_RETRY_CONFIG 3 = [1000; 2000; 4000]
  ∧ (∀ D R (op : ReadOperation D R) (remote : nat → Reply D) k,
       (k ≤ 3)%nat →
       (∀ j, (j < k)%nat → transient (remote j) = true) →
       k = 3%nat ∨ transient (remote k) = false →
       read op DEFAULT_RETRY_CONFIG remote
       = (settle op (remote k), take k [1000; 2000; 4000]))
  ∧ (∀ D R (op : ReadOperation D R) (remote : nat → Reply D),
       ∃ k, (k ≤ 3)%nat ∧
         (∀ j, (j < k)%nat → transient (remote j) = true) ∧
         (k = 3%nat ∨ transient (remote k) = false) ∧
         read op DEFAULT_RETRY_CONFIG remote
         = (settle op (remote k), take k [1000; 2000; 4000]))
  ∧ (∀ D R (op : ReadOperation D R) error r,
       response error = Some r → 400 ≤ status r < 500 → status r ≠ 429 →
       transient (Rejected (D := D) (IsAxiosError error)) = false ∧
       settle op (Rejected (IsAxiosError error))
       = match (if status r =? 404 then on_404 op else None) with
         | Some c => c
         | None => Throw (Error (failure_prefix op +:+ axios_message error))
         end)
  ∧ (∀ network axios_post txHex k,
       let remote := axios_post (baseUrl network +:+ "/tx/raw") txHex in
       (k ≤ 3)%nat →
       (∀ j, (j < k)%nat → transient_post (remote j) = true) →
       k = 3%nat ∨ transient_post (remote k) = false →
       broadcastTransaction network DEFAULT_RETRY_CONFIG axios_post txHex
       = (Return (settle_post (remote k)), take k [1000; 2000; 4000]))
  ∧ (∀ network axios_post txHex,
       let remote := axios_post (baseUrl network +:+ "/tx/raw") txHex in
       ∃ k, (k ≤ 3)%nat ∧
         (∀ j, (j < k)%nat → transient_post (remote j) = true) ∧
         (k = 3%nat ∨ transient_post (remote k) = false) ∧
         broadcastTransaction network DEFAULT_RETRY_CONFIG axios_post txHex
         = (Return (settle_post (remote k)), take k [1000; 2000; 4000]))
  ∧ (∀ error, classified error = false →
       transient_post (Rejected (IsAxiosError error)) = isRetryableError error).
Proof.
  split_and!.
  - intros error. unfold isRetryableError.
    destruct (response error) as [r|]; [|naive_solver].
    destruct (500 <=? status r) eqn:H5; [apply Z.leb_le in H5; naive_solver|].
    apply Z.leb_gt in H5.
    destruct (status r =? 429) eqn:H429.
    + apply Z.eqb_eq in H429. naive_solver.
    + apply Z.eqb_neq in H429. split; [done|].
      intros [|(r' & [= <-] & [|])]; [done | lia | done].
  - done.
  - done.
  - intros D R op remote k Hk Htr Hlast.
    rewrite <- backoff_delays_default by done.
    apply read_characterisation; [simpl; lia | done |].
    destruct Hlast as [->|]; [by left | by right].
  - intros D R op remote.
    destruct (read_always_settles op DEFAULT_RETRY_CONFIG remote)
      as (k & Hk & Hbefore & Hlast & Hrun); [done|].
    simpl in Hk, Hlast.
    exists k. rewrite <- backoff_delays_default by lia.
    split_and!; [lia | done | | done].
    destruct Hlast as [Hlast|]; [left; lia | by right].
  - intros D R op error r Hr Hst H429.
    assert (Hnot : isRetryableError error = false).
    { unfold isRetryableError. rewrite Hr.
      replace (500 <=? status r) with false by (symmetry; apply Z.leb_gt; lia).
      by replace (status r =? 429) with false by (symmetry; apply Z.eqb_neq; lia). }
    split; [done|].
    unfold settle, is_404. simpl. by rewrite Hr.
  - intros network axios_post txHex k remote Hk Htr Hlast.
    rewrite <- backoff_delays_default by done.
    unfold broadcastTransaction.
    apply broadcast_characterisation; [simpl; lia | done |].
    destruct Hlast as [->|]; [by left | by right].
  - intros network axios_post txHex remote.
    destruct (broadcast_always_settles DEFAULT_RETRY_CONFIG remote)
      as (k & Hk & Hbefore & Hlast & Hrun); [done|].
    simpl in Hk, Hlast.
    exists k. rewrite <- backoff_delays_default by lia.
    split_and!; [lia | done | | done].
    destruct Hlast as [Hlast|]; [left; lia | by right].
  - intros error Hc. simpl. by rewrite Hc.
Qed.

(** Scenario D: three 429 replies, then 200: the outputs are returned
    after waiting 1 s, 2 s and 4 s. *)
Lemma retry_policy_witness :
  getUTXOs testnet DEFAULT_RETRY_CONFIG recovers_after_three "addr"
  = (settle (getUTXOs_op)
       (recovers_after_three
          (baseUrl testnet +:+ "/address/" +:+ "addr" +:+ "/unspent") 3),
     take 3 [1000; 2000; 4000]).
Proof.
  unfold getUTXOs.
  apply (proj1 (proj2 (proj2 (proj2 retry_policy)))).
  - lia.
  - intros j Hj. destruct j as [|[|[|j]]]; [reflexivity .. | lia].
  - by left.
Defined.

(** C2.  What a read throws when the retries are exhausted.  Four
    consecutive 429 replies make [getUTXOs] throw, after the three delays,
    the error that wraps the message of the last failure; it is built
    exactly as the error of a request that fails at once with a 400.  Under
    the default configuration every read operation ends as [settle] says
    on one of its first four replies, and the error after the loop of
    [getUTXOs], "Max retries excedido al obtener UTXOs", is thrown for no
    sequence of replies at all. *)
Theorem getUTXOs_exhaustion_is_not_distinguished :
  getUTXOs testnet DEFAULT_RETRY_CONFIG always_429 "addr"
  = (Throw (Error "Error al obtener UTXOs: Request failed with status code 429"),
     [1000; 2000; 4000])
  ∧ getUTXOs testnet DEFAULT_RETRY_CONFIG always_400 "addr"
    = (Throw (Error "Error al obtener UTXOs: Request failed with status code 400"),
       [])
  ∧ (∀ D R (op : ReadOperation D R) (remote : nat → Reply D),
       ∃ k, (k ≤ 3)%nat ∧
         (read op DEFAULT_RETRY_CONFIG remote).1 = settle op (remote k))
  ∧ (∀ network axios_get address,
       (getUTXOs network DEFAULT_RETRY_CONFIG axios_get address).1
       ≠ Throw (Error "Max retries excedido al obtener UTXOs")).
Proof.
  assert (Hsettles : ∀ D R (op : ReadOperation D R) (remote : nat → Reply D),
    ∃ k, (k ≤ 3)%nat ∧
      (read op DEFAULT_RETRY_CONFIG remote).1 = settle op (remote k)).
  { intros D R op remote.
    destruct (read_always_settles op DEFAULT_RETRY_CONFIG remote)
      as (k & Hk & _ & _ & ->); [done|].
    exists k. split; [simpl in Hk; lia | done]. }
  split_and!; [vm_compute; reflexivity | vm_compute; reflexivity | done |].
  intros network axios_get address. unfold getUTXOs.
  destruct (Hsettles _ _ getUTXOs_op
              (axios_get (baseUrl network +:+ "/address/" +:+ address +:+ "/unspent")))
    as (k & _ & ->).
  unfold settle.
  destruct (axios_get _ k) as [st body|[error|e]]; simpl.
  - by destruct (st =? 200).
  - by destruct (is_404 error).
  - done.
Qed.



(** ** The read operations and their callers *)

Import NetworkQueries.

(** How any read ends, for any configuration: without a request when
    [maxRetries] is negative, and otherwise on the first reply that is not
    followed by a retry. *)
Lemma read_outcome {D R} (op : ReadOperation D R) config (remote : nat → Reply D) :
  (maxRetries config < 0 ∧
   read op config remote = (Throw (Error (after_loop op)), []) ∧
   requests_of config [] = 0%nat)
  ∨ (∃ k, Z.of_nat k ≤ maxRetries config ∧
       (∀ j, (j < k)%nat → transient (remote j) = true) ∧
       (Z.of_nat k = maxRetries config ∨ transient (remote k) = false) ∧
       read op config remote = (settle op (remote k), backoff_delays config k) ∧
       requests_of config (backoff_delays config k) = S k).
Proof.
  destruct (decide (maxRetries config < 0)) as [Hneg|Hpos].
  - left. unfold read, requests_of, iterations.
    replace (Z.to_nat (maxRetries config + 1)) with 0%nat by lia. done.
  - right.
    destruct (read_always_settles op config remote ltac:(lia))
      as (k & Hk & Htr & Hlast & Hread).
    exists k. split_and!; try done.
    unfold requests_of, iterations, backoff_delays.
    rewrite length_fmap, length_seq.
    destruct (Z.to_nat (maxRetries config + 1)) eqn:E; [lia | done].
Qed.

Lemma read_not_found {D R} (op : ReadOperation D R) config (remote : nat → Reply D)
    k error :
  Z.of_nat k ≤ maxRetries config →
  (∀ j, (j < k)%nat → transient (remote j) = true) →
  remote k = Rejected (IsAxiosError error) →
  is_404 error = true →
  read op config remote
  = (match on_404 op with
     | Some c => c
     | None => Throw (Error (failure_prefix op +:+ axios_message error))
     end, backoff_delays config k).
Proof.
  intros Hk Htr Hr H404.
  rewrite (read_characterisation op config remote k Hk Htr).
  - unfold settle. rewrite Hr. simpl. by rewrite H404.
  - right. rewrite Hr. simpl.
    destruct (isRetryableError error) eqn:Hre; [|done].
    apply retryable_not_404 in Hre. congruence.
Qed.

(** X7.  A 404 is an answer, not a failure to retry.  When the reply that
    follows [k] retried ones is a 404, each operation ends there, having
    slept the [k] backoff delays: the unspent outputs and the history of
    the address are empty and its balance is 0; the transaction is
    reported as not found, by name, and as not existing.  The block
    height has no such case and fails with the message of the HTTP
    error. *)
Theorem not_found_is_an_answer network config k error :
  Z.of_nat k ≤ maxRetries config →
  is_404 error = true →
  let answered {D} (remote : nat → Reply D) :=
    (∀ j, (j < k)%nat → transient (remote j) = true) ∧
    remote k = Rejected (IsAxiosError error) in
  let slept := backoff_delays config k in
  (∀ axios_get address,
     answered (axios_get (baseUrl network +:+ "/address/" +:+ address +:+ "/unspent")) →
     getUTXOs network config axios_get address = (Return [], slept) ∧
     getBalance network config axios_get address = (Return 0, slept))
  ∧ (∀ axios_get address limit,
       answered (axios_get (baseUrl network +:+ "/address/" +:+ address +:+ "/history")) →
       getTransactionHistory network config axios_get address limit
       = (Return [], slept))
  ∧ (∀ axios_get txid,
       answered (axios_get (baseUrl network +:+ "/tx/" +:+ txid +:+ "/hex")) →
       getTransactionHex network config axios_get txid
       = (Throw (Error ("Transacción no encontrada: " +:+ txid)), slept) ∧
       transactionExists network config axios_get txid = (Return false, slept))
  ∧ (∀ Details (axios_get : string → nat → Reply Details) txid,
       answered (axios_get (baseUrl network +:+ "/tx/hash/" +:+ txid)) →
       getTransactionDetails network config axios_get txid
       = (Throw (Error ("Transacción no encontrada: " +:+ txid)), slept))
  ∧ (∀ axios_get,
       answered (axios_get (baseUrl network +:+ "/chain/info")) →
       getCurrentBlockHeight network config axios_get
       = (Throw (Error ("Error al obtener altura del bloque: " +:+
                        axios_message error)), slept)).
Proof.
  intros Hk H404 answered slept. split_and!.
  - intros axios_get address [Htr Hr].
    assert (H : getUTXOs network config axios_get address = (Return [], slept))
      by (unfold getUTXOs; by rewrite (read_not_found _ _ _ k error)).
    split; [done|]. unfold getBalance. by rewrite H.
  - intros axios_get address limit [Htr Hr].
    unfold getTransactionHistory. by rewrite (read_not_found _ _ _ k error).
  - intros axios_get txid [Htr Hr].
    assert (H : getTransactionHex network config axios_get txid
                = (Throw (Error ("Transacción no encontrada: " +:+ txid)), slept))
      by (unfold getTransactionHex; by rewrite (read_not_found _ _ _ k error)).
    split; [done|]. unfold transactionExists. by rewrite H.
  - intros Details axios_get txid [Htr Hr].
    unfold getTransactionDetails. by rewrite (read_not_found _ _ _ k error).
  - intros axios_get [Htr Hr].
    unfold getCurrentBlockHeight. by rewrite (read_not_found _ _ _ k error).
Qed.

Lemma not_found_is_an_answer_witness :
  getUTXOs testnet DEFAULT_RETRY_CONFIG address_unknown "addr" = (Return [], [])
  ∧ getBalance testnet DEFAULT_RETRY_CONFIG address_unknown "addr" = (Return 0, []).
Proof.
  destruct (not_found_is_an_answer testnet DEFAULT_RETRY_CONFIG 0
              (http_error 404 DataAbsent) ltac:(simpl; lia) ltac:(reflexivity))
    as (H & _).
  apply (H address_unknown "addr"). split; [intros j Hj; lia | reflexivity].
Defined.

Lemma settle_getTransactionHex txid (reply : Reply string) hex :
  settle (getTransactionHex_op txid) reply = Return hex ↔
  ∃ body, reply = Fulfilled 200 body ∧ hex = trim body.
Proof.
  unfold settle. split.
  - destruct reply as [st body|[error|e]]; simpl.
    + destruct (st =? 200) eqn:Hst; [|done].
      apply Z.eqb_eq in Hst as ->. intros [= <-]. by exists body.
    + by destruct (is_404 error).
    + done.
  - intros (body & -> & ->). done.
Qed.

(** The reply on which a call ends is determined by the replies: it is
    the first that is not retried. *)
Lemma settled_index_unique {D} (remote : nat → Reply D) (limit : Z) k k' :
  Z.of_nat k ≤ limit → Z.of_nat k' ≤ limit →
  (∀ j, (j < k)%nat → transient (remote j) = true) →
  (Z.of_nat k = limit ∨ transient (remote k) = false) →
  (∀ j, (j < k')%nat → transient (remote j) = true) →
  transient (remote k') = false →
  k' = k.
Proof.
  intros Hk Hk' Htr Hlast Htr' Hlast'.
  destruct (Nat.lt_trichotomy k' k) as [Hlt|[Heq|Hgt]]; [|done|].
  - specialize (Htr k' Hlt). congruence.
  - specialize (Htr' k Hgt). destruct Hlast as [Heq|Hnt]; [lia | congruence].
Qed.

(** X8.  [transactionExists] never throws, and it answers [true] exactly
    when, after replies that were retried, a request for the hex of the
    transaction was answered with status 200 within the attempts allowed.
    Every other course, the source being unreachable or limiting the rate
    among them, gives [false]. *)
Theorem transactionExists_means_a_200 network config axios_get txid :
  let remote := axios_get (baseUrl network +:+ "/tx/" +:+ txid +:+ "/hex") in
  ∃ b, (transactionExists network config axios_get txid).1 = Return b ∧
    (b = true ↔
     ∃ k body, Z.of_nat k ≤ maxRetries config ∧
       (∀ j, (j < k)%nat → transient (remote j) = true) ∧
       remote k = Fulfilled 200 body).
Proof.
  intros remote. unfold transactionExists, getTransactionHex. fold remote.
  destruct (read_outcome (getTransactionHex_op txid) config remote)
    as [(Hneg & -> & _) | (k & Hk & Htr & Hlast & -> & _)].
  - exists false. split; [done|]. split; [done|].
    intros (k & body & Hk & _). lia.
  - destruct (settle (getTransactionHex_op txid) (remote k)) as [hex|e] eqn:Hs.
    + exists true. split; [done|]. split; [|done]. intros _.
      apply settle_getTransactionHex in Hs as (body & Hr & _).
      by exists k, body.
    + exists false. split; [done|]. split; [done|].
      intros (k' & body & Hk' & Htr' & Hr').
      assert (k' = k) as ->.
      { eapply (settled_index_unique remote); try done. by rewrite Hr'. }
      assert (settle (getTransactionHex_op txid) (remote k) = Return (trim body))
        by (apply settle_getTransactionHex; by exists body).
      congruence.
Qed.

Lemma settle_not_after_loop {D R} (op : ReadOperation D R) (reply : Reply D) :
  (∀ m, failure_prefix op +:+ m ≠ after_loop op) →
  on_404 op ≠ Some (Throw (Error (after_loop op))) →
  settle op reply ≠ Throw (Error (after_loop op)).
Proof.
  intros Hprefix H404. unfold settle.
  destruct reply as [st body|[error|e]]; simpl.
  - destruct (st =? 200); [done|]. intros [= H]. by apply Hprefix in H.
  - destruct (is_404 error).
    + destruct (on_404 op) as [c|]; [congruence|].
      intros [= H]. by apply Hprefix in H.
    + intros [= H]. by apply Hprefix in H.
  - intros [= H]. by apply Hprefix in H.
Qed.

Lemma read_after_loop {D R} (op : ReadOperation D R) config (remote : nat → Reply D) :
  (∀ m, failure_prefix op +:+ m ≠ after_loop op) →
  on_404 op ≠ Some (Throw (Error (after_loop op))) →
  (read op config remote).1 = Throw (Error (after_loop op)) ↔ maxRetries config < 0.
Proof.
  intros Hprefix H404.
  destruct (read_outcome op config remote)
    as [(Hneg & -> & _) | (k & Hk & _ & _ & -> & _)]; simpl.
  - done.
  - split; [|lia]. intros H. by apply settle_not_after_loop in H.
Qed.

(** X9.  The error thrown after the loop of a read operation, [Max
    retries excedido ...], is thrown exactly when the client is
    configured with a negative [maxRetries], in which case no request is
    made; a broadcast then reports [Max retries excedido] without posting
    the transaction.  With [maxRetries] of 0 or more, a read that runs
    out of attempts fails with the message of its last error instead. *)
Theorem max_retries_error_means_no_attempt network config :
  (∀ axios_get address,
     (getUTXOs network config axios_get address).1
     = Throw (Error "Max retries excedido al obtener UTXOs")
     ↔ maxRetries config < 0)
  ∧ (∀ axios_get txid,
       (getTransactionHex network config axios_get txid).1
       = Throw (Error "Max retries excedido al obtener transacción")
       ↔ maxRetries config < 0)
  ∧ (∀ axios_get address limit,
       (getTransactionHistory network config axios_get address limit).1
       = Throw (Error "Max retries excedido al obtener historial de transacciones")
       ↔ maxRetries config < 0)
  ∧ (∀ Details (axios_get : string → nat → Reply Details) txid,
       (getTransactionDetails network config axios_get txid).1
       = Throw (Error "Max retries excedido al obtener detalles de transacción")
       ↔ maxRetries config < 0)
  ∧ (∀ axios_get,
       (getCurrentBlockHeight network config axios_get).1
       = Throw (Error "Max retries excedido al obtener altura del bloque")
       ↔ maxRetries config < 0)
  ∧ (maxRetries config < 0 →
     ∀ axios_post txHex,
       broadcastTransaction network config axios_post txHex
       = (Return (failure "Max retries excedido"), [])).
Proof.
  split_and!.
  - intros. apply (read_after_loop getUTXOs_op); [by intros m [=] | by intros [=]].
  - intros. apply (read_after_loop (getTransactionHex_op _));
      [by intros m [=] | by intros [=]].
  - intros. apply (read_after_loop (getTransactionHistory_op _));
      [by intros m [=] | by intros [=]].
  - intros. apply (read_after_loop (getTransactionDetails_op _));
      [by intros m [=] | by intros [=]].
  - intros. apply (read_after_loop getCurrentBlockHeight_op);
      [by intros m [=] | by intros [=]].
  - intros Hneg axios_post txHex. unfold broadcastTransaction, iterations.
    by replace (Z.to_nat (maxRetries config + 1)) with 0%nat by lia.
Qed.

Lemma backoff_delays_bounded config k :
  Forall (λ delay, delay ≤ maxDelayMs config) (backoff_delays config k) ∧
  foldr Z.add 0 (backoff_delays config k) ≤ Z.of_nat k * maxDelayMs config.
Proof.
  unfold backoff_delays.
  assert (H : ∀ from, Forall (λ delay, delay ≤ maxDelayMs config)
                ((λ attempt, getBackoffDelay attempt config) <$> seq from k) ∧
              foldr Z.add 0 ((λ attempt, getBackoffDelay attempt config) <$> seq from k)
              ≤ Z.of_nat k * maxDelayMs config); [|apply H].
  induction k as [|k IH]; intros from; [split; [constructor | simpl; lia]|].
  destruct (IH (S from)) as [H1 H2].
  assert (getBackoffDelay from config ≤ maxDelayMs config)
    by (unfold getBackoffDelay; lia).
  rewrite Nat2Z.inj_succ. csimpl.
  split; [by constructor | lia].
Qed.

(** X10.  The time a call spends waiting is bounded by its configuration.
    A read or a broadcast sleeps at most [maxRetries] times; the delays
    are the backoff delays of the attempts 0, 1, ... in this order; none
    exceeds [maxDelayMs], so the total wait is at most their number
    times [maxDelayMs]. *)
Theorem waiting_is_bounded config :
  let bounded (slept : list Z) :=
    Z.of_nat (length slept) ≤ Z.max 0 (maxRetries config) ∧
    slept = backoff_delays config (length slept) ∧
    Forall (λ delay, delay ≤ maxDelayMs config) slept ∧
    foldr Z.add 0 slept ≤ Z.of_nat (length slept) * maxDelayMs config in
  (∀ D R (op : ReadOperation D R) (remote : nat → Reply D),
     bounded (read op config remote).2)
  ∧ (∀ network axios_post txHex,
       bounded (broadcastTransaction network config axios_post txHex).2).
Proof.
  intros bounded.
  assert (Hb : ∀ k, Z.of_nat k ≤ Z.max 0 (maxRetries config) →
                 bounded (backoff_delays config k)).
  { intros k Hk. unfold bounded.
    assert (length (backoff_delays config k) = k) as ->
      by (unfold backoff_delays; by rewrite length_fmap, length_seq).
    split_and!; [done | done | apply backoff_delays_bounded..]. }
  split.
  - intros D R op remote.
    destruct (read_outcome op config remote)
      as [(Hneg & -> & _) | (k & Hk & _ & _ & -> & _)]; simpl.
    + apply (Hb 0%nat). lia.
    + apply Hb. lia.
  - intros network axios_post txHex. unfold broadcastTransaction.
    destruct (decide (maxRetries config < 0)) as [Hneg|Hpos].
    + unfold iterations.
      replace (Z.to_nat (maxRetries config + 1)) with 0%nat by lia. simpl.
      apply (Hb 0%nat). lia.
    + destruct (broadcast_always_settles config
                  (axios_post (baseUrl network +:+ "/tx/raw") txHex) ltac:(lia))
        as (k & Hk & _ & _ & ->). simpl. apply Hb. lia.
Qed.

(** ** Fetching the parent transactions *)

Import TransactionPipeline.

Lemma getTransactionHex_outcome client source clock txid :
  let config := client_retryConfig client in
  let run := getTransactionHex (client_network client) config
               (replies_from source clock) txid in
  let url := baseUrl (client_network client) +:+ "/tx/" +:+ txid +:+ "/hex" in
  (maxRetries config < 0 ∧ is_thrown run.1 = true ∧ requests_of config run.2 = 0%nat)
  ∨ (∃ k, Z.of_nat k ≤ maxRetries config ∧
       run.1 = settle (getTransactionHex_op txid) (source (clock + k)%nat url) ∧
       requests_of config run.2 = S k).
Proof.
  intros config run url. unfold run, getTransactionHex. fold url.
  destruct (read_outcome (getTransactionHex_op txid) config
              (replies_from source clock url))
    as [(Hneg & -> & Hreq) | (k & Hk & _ & _ & -> & Hreq)].
  - left. done.
  - right. exists k. done.
Qed.

Lemma fetch_loop_spec client source utxos :
  ∀ clock acc slept,
    match fetch_loop client source clock utxos acc slept with
    | (Return result, clock', _) =>
        ∃ fetched, result = acc ++ fetched ∧
          Forall2 (fetched_between client source clock clock') utxos fetched ∧
          (clock + length utxos ≤ clock'
           ≤ clock + length utxos * iterations (client_retryConfig client))%nat
    | (Throw e, clock', _) =>
        ∃ before utxo rest fetched t waits,
          utxos = before ++ utxo :: rest ∧
          fetch_loop client source clock before acc slept
          = (Return (acc ++ fetched), t, waits) ∧
          let run := getTransactionHex (client_network client)
                       (client_retryConfig client) (replies_from source t)
                       (utxo_txid utxo) in
          ∃ cause, run.1 = Throw cause ∧
            e = Error ("Error al obtener transacción fuente " +:+ utxo_txid utxo
                       +:+ ": " +:+ message cause) ∧
            clock' = (t + requests_of (client_retryConfig client) run.2)%nat
    end.
Proof.
  induction utxos as [|utxo rest IH]; intros clock acc slept.
  - simpl. exists []. rewrite app_nil_r. split_and!; [done | constructor | lia | lia].
  - simpl.
    pose proof (getTransactionHex_outcome client source clock (utxo_txid utxo)) as Hrun.
    cbv zeta in Hrun.
    destruct (getTransactionHex (client_network client) (client_retryConfig client)
                (replies_from source clock) (utxo_txid utxo)) as [[txHex|cause] waits]
      eqn:Hcall; simpl in Hrun.
    + destruct Hrun as [(_ & ? & _) | (k & Hk & Hsettle & Hreq)]; [done|].
      symmetry in Hsettle.
      apply settle_getTransactionHex in Hsettle as (body & Hbody & ->).
      rewrite Hreq.
      specialize (IH (clock + S k)%nat (acc ++ [with_source utxo (trim body)])
                    (slept ++ waits)).
      destruct (fetch_loop client source (clock + S k) rest _ _)
        as [[[result|e] clock'] slept'].
      * destruct IH as (fetched & -> & Hall & Hclock).
        exists (with_source utxo (trim body) :: fetched).
        rewrite <- app_assoc. split; [done|].
        assert (Hit : (S k ≤ iterations (client_retryConfig client))%nat)
          by (unfold iterations; lia).
        split; [|simpl; lia].
        constructor.
        -- split; [done|]. exists (clock + k)%nat, body.
           split_and!; [lia | lia | done | done].
        -- eapply Forall2_impl; [exact Hall|].
           intros x y (Hw & n & b & Hn & Hs & Ht). split; [done|].
           exists n, b. split_and!; [lia | lia | done | done].
      * destruct IH as (before & u' & rest' & fetched & t & waits' & -> & Hpre &
                        cause & Hc & -> & ->).
        exists (utxo :: before), u', rest',
          (with_source utxo (trim body) :: fetched), t, waits'.
        split_and!; [done | |by exists cause].
        simpl. rewrite Hcall, Hreq, Hpre. by rewrite <- app_assoc.
    + exists [], utxo, rest, [], clock, slept. split_and!; [done | |].
      * simpl. by rewrite app_nil_r.
      * rewrite Hcall. simpl. by exists cause.
Qed.


(** X12.  [fetchSourceTransactions] stops at the first output whose
    parent it cannot get.  The outputs before it were fetched; the lookup
    for it, made right after them, failed; the error names its
    transaction and carries the message of that failure; and the session
    ends with the requests of that lookup, so the outputs after it are
    not asked for. *)
Theorem fetchSourceTransactions_stops_at_first_failure client source clock utxos
    e clock' slept :
  fetchSourceTransactions client source clock utxos = (Throw e, clock', slept) →
  ∃ before utxo rest fetched t waits cause,
    utxos = before ++ utxo :: rest ∧
    fetchSourceTransactions client source clock before = (Return fetched, t, waits) ∧
    let run := getTransactionHex (client_network client)
                 (client_retryConfig client) (replies_from source t)
                 (utxo_txid utxo) in
    run.1 = Throw cause ∧
    e = Error ("Error al obtener transacción fuente " +:+ utxo_txid utxo
               +:+ ": " +:+ message cause) ∧
    clock' = (t + requests_of (client_retryConfig client) run.2)%nat.
Proof.
  intros H. unfold fetchSourceTransactions in H.
  pose proof (fetch_loop_spec client source utxos clock [] []) as Hspec.
  rewrite H in Hspec.
  destruct Hspec as (before & utxo & rest & fetched & t & waits & -> & Hpre &
                     cause & Hc & -> & ->).
  exists before, utxo, rest, fetched, t, waits, cause. done.
Qed.


Lemma fetchSourceTransactions_stops_at_first_failure_witness :
  ∃ before utxo rest,
    two_unspent = before ++ utxo :: rest ∧
    (fetchSourceTransactions (createNetworkClient testnet) second_parent_missing
       0 two_unspent).1.1
    = Throw (Error ("Error al obtener transacción fuente " +:+ utxo_txid utxo +:+
                    ": Transacción no encontrada: 9f2c")).
Proof.
  destruct (fetchSourceTransactions_stops_at_first_failure
              (createNetworkClient testnet) second_parent_missing 0 two_unspent
              (Error "Error al obtener transacción fuente 9f2c: Transacción no encontrada: 9f2c")
              2 [] ltac:(vm_compute; reflexivity))
    as (before & utxo & rest & _ & _ & _ & _ & H & _).
  exists [first_unspent], second_unspent, [].
  split; vm_compute; reflexivity.
Defined.

(** ** The information about a transaction *)

Section TransactionInfo.
Context {PrivateKey SourceTransaction Script : Type}.
Variable fromHex : string → completion SourceTransaction.
Variable lock : string → completion Script.
Variable toAddress : PrivateKey → option string → string.
Local Abbreviation Tx :=
  (Transaction (PrivateKey := PrivateKey)
     (SourceTransaction := SourceTransaction) (Script := Script)).
Variable sign : Tx → completion (list Script).
Variable toHex : Tx → completion string.
Variable id : Tx → completion string.
Variable source_satoshis : SourceTransaction → Z → option Z.
Local Abbreviation build := (buildTransaction fromHex lock toAddress sign).
Local Abbreviation info_of := (getTransactionInfo toHex id source_satoshis).

(** The parents agree with the indexer: the output that an input spends
    is worth, in its parent transaction, what the indexer reported. *)
Local Abbreviation Input :=
  (TransactionInput (PrivateKey := PrivateKey)
     (SourceTransaction := SourceTransaction)).
Local Abbreviation agrees := (λ input : Input,
  source_satoshis (sourceTransaction input) (sourceOutputIndex input)
  = Some (value (spent input))).

Lemma foldl_totalInput (ins : list Input) :
  Forall agrees ins →
  ∀ acc,
    foldl (λ totalInput input,
             match source_satoshis (sourceTransaction input) (sourceOutputIndex input) with
             | Some satoshis => if satoshis =? 0 then totalInput else totalInput + satoshis
             | None => totalInput
             end) acc ins
    = acc + total_value (spent <$> ins).
Proof.
  induction 1 as [|i ins Hi _ IH]; intros acc; csimpl; [lia|].
  rewrite Hi, IH.
  change (total_value (spent i :: (spent <$> ins)))
    with (value (spent i) + total_value (spent <$> ins)).
  destruct (value (spent i) =? 0) eqn:Hz; [apply Z.eqb_eq in Hz|]; lia.
Qed.

Lemma foldl_totalOutput (outs : list (TransactionOutput (Script := Script))) :
  ∀ acc,
    foldl (λ totalOutput output,
             if satoshis output =? 0 then totalOutput
             else totalOutput + satoshis output) acc outs
    = acc + foldr (λ o acc, satoshis o + acc) 0 outs.
Proof.
  induction outs as [|o outs IH]; intros acc; simpl; [lia|].
  rewrite IH. destruct (satoshis o =? 0) eqn:Hz; [apply Z.eqb_eq in Hz|]; lia.
Qed.


End TransactionInfo.


(** ** The whole pipeline *)

Section Complete.
Context {PrivateKey SourceTransaction Script : Type}.
Variable fromHex : string → completion SourceTransaction.
Variable lock : string → completion Script.
Variable toAddress : PrivateKey → option string → string.
Local Abbreviation Tx :=
  (Transaction (PrivateKey := PrivateKey)
     (SourceTransaction := SourceTransaction) (Script := Script)).
Variable sign : Tx → completion (list Script).
Local Abbreviation complete :=
  (buildTransactionComplete fromHex lock toAddress sign).

(** X14.  [buildTransactionComplete] on a wallet without funds, and the
    prefix of its errors.  When the lookup of the unspent outputs of the
    key's address ends, after [k] retried replies, with an empty list (a
    200 with no outputs, or a 404), the call fails with its own message
    for a wallet without funds; it has then made [k + 1] requests and no
    request for a parent transaction, and has left the heap as it was.
    Whatever makes the call fail, its message starts with the prefix of
    the function. *)
Theorem buildTransactionComplete_without_funds key payTo amount network client
    changeAddress feeRate unspent hex clock h :
  let run := complete key payTo amount network client changeAddress feeRate
               unspent hex clock h in
  let url := baseUrl (client_network client) +:+ "/address/" +:+
             toAddress key (match network with
                            | testnet => Some "testnet" | mainnet => None end)
             +:+ "/unspent" in
  (∀ k,
     Z.of_nat k ≤ maxRetries (client_retryConfig client) →
     (∀ j, (j < k)%nat → transient (unspent (clock + j)%nat url) = true) →
     settle getUTXOs_op (unspent (clock + k)%nat url) = Return [] →
     run = ((Throw (Error "Error al construir transacción completa: No hay fondos disponibles en esta wallet"),
             h), (clock + S k)%nat, backoff_delays (client_retryConfig client) k))
  ∧ (∀ e, run.1.1.1 = Throw e →
       startsWith (message e) "Error al construir transacción completa: " = true).
Proof.
  intros run url. split.
  - intros k Hk Htr Hsettle. unfold run, buildTransactionComplete, getUTXOs.
    fold url.
    assert (Hnt : transient (unspent (clock + k)%nat url) = false).
    { destruct (unspent (clock + k)%nat url) as [st body|[error|e]]; try done.
      simpl. destruct (isRetryableError error) eqn:Hre; [|done].
      apply retryable_not_404 in Hre.
      unfold settle in Hsettle. simpl in Hsettle. by rewrite Hre in Hsettle. }
    rewrite (read_characterisation getUTXOs_op (client_retryConfig client)
               (replies_from unspent clock url) k Hk Htr (or_intror Hnt)).
    unfold replies_from at 1. rewrite Hsettle. simpl.
    unfold requests_of, iterations, backoff_delays.
    rewrite length_fmap, length_seq.
    destruct (Z.to_nat (maxRetries (client_retryConfig client) + 1)) eqn:E; [lia|].
    done.
  - intros e. unfold run, buildTransactionComplete.
    destruct (getUTXOs _ _ _ _) as [[utxos|e0] slept]; simpl.
    + destruct (length utxos =? 0)%nat; simpl.
      { intros [= <-]. done. }
      destruct (fetchSourceTransactions client hex _ utxos)
        as [[[utxosWithSource|e1] clock'] waits]; simpl.
      * unfold try_catch.
        destruct (bind _ _ h) as [[tx|e2] h1]; simpl; [done|].
        intros [= <-]. done.
      * intros [= <-]. done.
    + intros [= <-]. done.
Qed.

End Complete.

Lemma buildTransactionComplete_without_funds_witness :
  buildTransactionComplete ToySdk.Transaction_fromHex ToySdk.P2PKH_lock
    ToySdk.toAddress ToySdk.Transaction_sign "key" "merchant" 500 testnet
    (createNetworkClient testnet) None None nothing_known parents_served 0 ∅
  = ((Throw (Error "Error al construir transacción completa: No hay fondos disponibles en esta wallet"),
      ∅), 1%nat, []).
Proof.
  destruct (buildTransactionComplete_without_funds ToySdk.Transaction_fromHex
              ToySdk.P2PKH_lock ToySdk.toAddress ToySdk.Transaction_sign
              "key" "merchant" 500 testnet (createNetworkClient testnet)
              None None nothing_known parents_served 0%nat ∅) as [H _].
  apply (H 0%nat); [simpl; lia | intros j Hj; lia | reflexivity].
Defined.

(** ** The send_transaction tool *)

Lemma sorted_by_descending_id l :
  descending l → sorted_by largest_first l = l.
Proof.
  unfold descending. induction 1 as [|x l Hl IH Hx]; [done|].
  simpl. rewrite IH. destruct l as [|y l']; [done|].
  simpl. apply Forall_cons in Hx as [Hy _].
  unfold largest_first at 1.
  replace (value y - value x <=? 0) with true by (symmetry; apply Z.leb_le; lia).
  done.
Qed.

Lemma foldl_total_value l :
  ∀ acc, foldl (λ sum utxo, sum + value utxo) acc l = acc + total_value l.
Proof.
  induction l as [|u l IH]; intros acc; simpl; [lia|]. rewrite IH. lia.
Qed.

Lemma settle_post_success (reply : Reply string) :
  success (settle_post reply) = true → ∃ body, reply = Fulfilled 200 body.
Proof.
  unfold settle_post. destruct reply as [st body|[error|e]]; simpl.
  - destruct (st =? 200) eqn:Hst; [|done].
    apply Z.eqb_eq in Hst as ->. by exists body.
  - destruct (errorMessage error) as [m|]; [|done].
    by destruct (already_broadcast m).
  - done.
Qed.

Section SendTransactionProperties.
Import WalletManager SendTransaction.
Context {PrivateKey PublicKey SourceTransaction Script : Type}.
Variable fromHex : string → completion SourceTransaction.
Variable lock : string → completion Script.
Variable keyAddress : PrivateKey → option string → string.
Local Abbreviation Tx :=
  (Transaction (PrivateKey := PrivateKey)
     (SourceTransaction := SourceTransaction) (Script := Script)).
Variable sign : Tx → completion (list Script).
Variable toHex : Tx → completion string.
Variable id : Tx → completion string.
Variable source_satoshis : SourceTransaction → Z → option Z.
Variable loadWallet : string → string → completion (UnlockedWallet PrivateKey PublicKey).
Variable now : string.

Local Abbreviation handle :=
  (handleSendTransaction fromHex lock keyAddress sign toHex id source_satoshis
     loadWallet now).
Local Abbreviation build := (buildTransaction fromHex lock keyAddress sign).
Local Abbreviation info_of := (getTransactionInfo toHex id source_satoshis).

(** All that a call that reports success has done. *)
Lemma handleSendTransaction_Succeeded params remote response :
  result (handle params remote) = Succeeded response →
  ∃ walletId password toAddress amount wallet utxos slept1 fetched clock2 waits2
      tx heap info broadcastResult waits3,
    let client := createNetworkClient (unlocked_network wallet) in
    let a := fresh (dom (∅ : gmap loc (list UTXOWithSource))) in
    let change :=
      total_value (take (length (inputs tx)) fetched) - amount - info_fee info in
    given (param_walletId params) = Some walletId ∧
    given (param_password params) = Some password ∧
    given (param_toAddress params) = Some toAddress ∧
    param_amount params = Some amount ∧
    loadWallet walletId password = Return wallet ∧
    getUTXOs (client_network client) (client_retryConfig client)
      (replies_from (unspent_source remote) 0) (unlocked_address wallet)
    = (Return utxos, slept1) ∧
    fetchSourceTransactions client (hex_source remote)
      (requests_of (client_retryConfig client) slept1) utxos
    = (Return fetched, clock2, waits2) ∧
    build {| privateKey := unlocked_privateKey wallet;
             params_utxos := a;
             payToAddress := toAddress;
             TransactionBuilder.amount := amount;
             changeAddress := param_changeAddress params;
             TransactionBuilder.feeRate :=
               Some (default (1 # 2) (param_feeRate params));
             network := unlocked_network wallet |} {[ a := fetched ]}
    = (Return tx, heap) ∧
    info_of tx = Return info ∧
    broadcastTransaction (client_network client) (client_retryConfig client)
      (λ url txHex attempt, post_source remote (clock2 + attempt)%nat url txHex)
      (info_hex info)
    = (Return broadcastResult, waits3) ∧
    success broadcastResult = true ∧
    response_txid response = info_txid info ∧
    response_amount response = amount ∧
    response_fee response = info_fee info ∧
    response_change response = change ∧
    response_toAddress response = toAddress ∧
    response_fromAddress response = unlocked_address wallet ∧
    response_inputs response = info_inputs info ∧
    response_outputs response = info_outputs info ∧
    ∃ record,
      logged (handle params remote) = Some record ∧
      record_txid record = info_txid info ∧
      record_changeAmount record = change ∧
      record_amount record = amount ∧
      record_fee record = info_fee info.
Proof.
  intros H. remember (handle params remote) as o eqn:Ho.
  unfold handleSendTransaction in Ho.
  destruct (given (param_walletId params)) as [walletId|] eqn:Hid;
    [|by subst o].
  destruct (given (param_password params)) as [password|] eqn:Hpw;
    [|by subst o].
  destruct (given (param_toAddress params)) as [toAddress|] eqn:Hto;
    [|by subst o].
  destruct (param_amount params) as [amount|] eqn:Hamount; [|by subst o].
  destruct (amount <=? 0) eqn:Hpos; [by subst o|].
  destruct (loadWallet walletId password) as [wallet|e] eqn:Hload; [|by subst o].
  cbv zeta in Ho.
  destruct (getUTXOs _ _ _ _) as [[utxos|e] slept1] eqn:Hutxos; [|by subst o].
  destruct (length utxos =? 0)%nat eqn:Hlen; [by subst o|].
  destruct (fetchSourceTransactions _ _ _ utxos)
    as [[[fetched|e] clock2] waits2] eqn:Hfetch; [|by subst o].
  unfold bind at 1 in Ho. unfold new_array at 1 in Ho. cbv beta iota zeta in Ho.
  unfold bind at 1 in Ho.
  set (a := fresh (dom (∅ : gmap loc (list UTXOWithSource)))) in *.
  replace (<[a := fetched]> (∅ : gmap loc (list UTXOWithSource)))
    with ({[ a := fetched ]} : gmap loc (list UTXOWithSource)) in Ho
    by (by rewrite insert_empty).
  destruct (buildTransaction _ _ _ _ _ _) as [[tx|e] heap] eqn:Hbuild;
    [|by subst o].
  unfold ret in Ho. cbv beta iota in Ho.
  destruct (getTransactionInfo _ _ _ tx) as [info|e] eqn:Hinfo; [|by subst o].
  destruct (broadcastTransaction _ _ _ _) as [[broadcastResult|e] waits3] eqn:Hpost;
    [|by subst o].
  destruct (success broadcastResult) eqn:Hsuccess; [|by subst o].
  simpl negb in Ho. cbv iota in Ho.
  assert (Hkept : heap !! a = Some fetched).
  { match type of Hbuild with
    | buildTransaction _ _ _ _ ?p ?h = _ =>
        pose proof (preserves_buildTransaction fromHex lock keyAddress sign p
                      h a fetched (lookup_singleton_eq _ _)) as Hkept
    end.
    by rewrite Hbuild in Hkept. }
  rewrite Hkept in Ho. simpl default in Ho. rewrite foldl_total_value in Ho.
  subst o. simpl in H. injection H as <-.
  exists walletId, password, toAddress, amount, wallet, utxos, slept1, fetched,
    clock2, waits2, tx, heap, info, broadcastResult, waits3.
  cbv zeta. fold a. simpl.
  split_and!; try done; try lia.
  eexists. split; [reflexivity|]. simpl. split_and!; try done; lia.
Qed.

(** The parents agree with the indexer, as in [getTransactionInfo]. *)
Local Abbreviation agrees := (λ input : TransactionInput (PrivateKey := PrivateKey)
                                (SourceTransaction := SourceTransaction),
  source_satoshis (sourceTransaction input) (sourceOutputIndex input)
  = Some (value (spent input))).

Lemma info_fee_balance (tx : Tx) info :
  info_of tx = Return info →
  Forall agrees (inputs tx) →
  info_fee info = input_total tx - output_total tx.
Proof.
  intros Hinfo Hagree. unfold getTransactionInfo in Hinfo.
  destruct (toHex tx) as [hex|e]; [|done]. simpl in Hinfo.
  destruct (id tx) as [txid|e]; [|done]. simpl in Hinfo.
  injection Hinfo as <-. simpl.
  rewrite (foldl_totalInput source_satoshis _ Hagree), foldl_totalOutput.
  unfold input_total, output_total. lia.
Qed.


Lemma settled_broadcast_was_accepted (remote : nat → Reply string)
    broadcastResult waits :
  broadcast_loop DEFAULT_RETRY_CONFIG remote (iterations DEFAULT_RETRY_CONFIG) 0 []
  = (Return broadcastResult, waits) →
  success broadcastResult = true →
  ∃ attempt body, remote attempt = Fulfilled 200 body.
Proof.
  intros Hrun Hsuccess.
  destruct (broadcast_always_settles DEFAULT_RETRY_CONFIG remote ltac:(done))
    as (k & _ & _ & _ & Hsettle).
  rewrite Hsettle in Hrun. injection Hrun as <- _.
  apply settle_post_success in Hsuccess as (body & Hbody). by exists k, body.
Qed.


End SendTransactionProperties.



(** ** Base64 *)

Import Base64.

Lemma sextet_of_char_of_sextet s : sextet_of_char (char_of_sextet s) = Some s.
Proof. destruct s as [[] [] [] [] [] []]; reflexivity. Qed.

Lemma char_of_sextet_not_pad s : Ascii.eqb (char_of_sextet s) pad = false.
Proof. destruct s as [[] [] [] [] [] []]; reflexivity. Qed.

Lemma until_pad_letters (groups : list sextet) tail :
  tail = [] ∨ (∃ tail', tail = pad :: tail') →
  until_pad ((char_of_sextet <$> groups) ++ tail) = char_of_sextet <$> groups.
Proof.
  intros Htail. induction groups as [|g groups IH]; csimpl.
  - destruct Htail as [->|(tail' & ->)]; reflexivity.
  - by rewrite char_of_sextet_not_pad, IH.
Qed.

Lemma omap_sextet_of_char (groups : list sextet) :
  omap sextet_of_char (char_of_sextet <$> groups) = groups.
Proof.
  induction groups as [|g groups IH]; csimpl; [done|].
  by rewrite sextet_of_char_of_sextet, IH.
Qed.

Lemma bytes_of_sextets_of bytes : bytes_of (sextets_of bytes) = bytes.
Proof.
  remember (length bytes) as n eqn:Hn.
  revert bytes Hn. induction n as [n IH] using lt_wf_ind. intros bytes Hn.
  destruct bytes as [|[a0 a1 a2 a3 a4 a5 a6 a7] [|[b0 b1 b2 b3 b4 b5 b6 b7]
                     [|[c0 c1 c2 c3 c4 c5 c6 c7] rest]]]; try reflexivity.
  simpl. do 3 f_equal. apply (IH (length rest)); [simpl in Hn; lia | done].
Qed.

Lemma padding_shape bytes :
  padding bytes = [] ∨ ∃ tail', padding bytes = pad :: tail'.
Proof.
  unfold padding. destruct (length bytes mod 3)%nat as [|[|[|n]]]; eauto.
Qed.

(** Decoding the base64 text of a buffer gives the buffer back. *)
Lemma from_base64_toString_base64 bytes :
  from_base64 (toString_base64 bytes) = bytes.
Proof.
  unfold from_base64, toString_base64.
  rewrite list_ascii_of_string_of_list_ascii.
  rewrite until_pad_letters by apply padding_shape.
  by rewrite omap_sextet_of_char, bytes_of_sextets_of.
Qed.

Lemma toString_utf8_from_utf8 s : toString_utf8 (from_utf8 s) = s.
Proof. apply string_of_list_ascii_of_string. Qed.

(** ** JSON *)

Import Json.

Lemma escape_plain c : plain c → escape c = [c].
Proof.
  intros (Hq & Hb & Hn). unfold escape. rewrite Hq, Hb, Hn.
  apply Nat.ltb_ge in Hn.
  repeat match goal with
         | |- context [(nat_of_ascii c =? ?k)%nat] =>
             replace (nat_of_ascii c =? k)%nat with false
               by (symmetry; apply Nat.eqb_neq; lia)
         end.
  done.
Qed.

Lemma concat_escape_plain l : Forall plain l → concat (escape <$> l) = l.
Proof.
  induction 1 as [|c l Hc _ IH]; csimpl; [done|].
  by rewrite (escape_plain _ Hc), IH.
Qed.

Lemma parse_string_body_plain l rest :
  Forall plain l → parse_string_body (l ++ dquote :: rest) = Some (l, rest).
Proof.
  induction 1 as [|c l (Hq & Hb & Hn) _ IH].
  - simpl. done.
  - change ((c :: l) ++ dquote :: rest) with (c :: (l ++ dquote :: rest)).
    simpl. by rewrite Hq, Hb, Hn, IH.
Qed.

(** ** Payment proof envelope *)

Import PaymentCreator.

Lemma hex_digit_plain c : is_hex_digit c = true → plain c.
Proof.
  destruct c as [[] [] [] [] [] [] [] []]; intros H;
    vm_compute in H; try discriminate H; repeat split; reflexivity.
Qed.

Lemma is_hex_check s :
  forallb is_hex_digit (list_ascii_of_string s) = true → is_hex s.
Proof. intros H. apply Forall_forall. intros c Hc. rewrite forallb_forall in H.
  apply H. by apply list_elem_of_In. Qed.

Lemma is_hex_plain s : is_hex s → Forall plain (list_ascii_of_string s).
Proof. intros H. eapply Forall_impl; [exact H | apply hex_digit_plain]. Qed.

(** Parsing the JSON text of an envelope gives the envelope back, for
    every transaction text of plain characters, either network and every
    choice of accessibility preferences. *)
Lemma parse_stringify_payload txHex network accessibility fuel :
  Forall plain (list_ascii_of_string txHex) → (14 ≤ fuel)%nat →
  parse_value fuel (stringify_chars (paymentPayload txHex network accessibility))
  = Some (paymentPayload txHex network accessibility, []).
Proof.
  intros Hp Hf. do 14 (destruct fuel as [|fuel]; [lia|]). clear Hf.
  unfold paymentPayload.
  destruct network, accessibility as [[[[]|] [[]|] [[]|]]|];
    simpl stringify_chars;
    rewrite (concat_escape_plain _ Hp);
    rewrite ?app_nil_r, <- ?app_assoc; simpl app;
    simpl;
    rewrite (parse_string_body_plain _ _ Hp);
    simpl;
    by rewrite string_of_list_ascii_of_string.
Qed.

Lemma stringify_chars_long txHex network accessibility :
  (14 ≤ length (stringify_chars (paymentPayload txHex network accessibility)))%nat.
Proof.
  unfold paymentPayload. simpl stringify_chars.
  destruct network; simpl; lia.
Qed.

Lemma parse_stringify txHex network accessibility :
  Forall plain (list_ascii_of_string txHex) →
  parse (stringify (paymentPayload txHex network accessibility))
  = Return (paymentPayload txHex network accessibility).
Proof.
  intros Hp. unfold parse, stringify.
  rewrite list_ascii_of_string_of_list_ascii.
  rewrite parse_stringify_payload; [done | done |].
  pose proof (stringify_chars_long txHex network accessibility). lia.
Qed.

(** C3.  For every transaction hex string, both networks (and every
    choice of accessibility preferences), extracting the transaction from
    the envelope that [createPaymentPayloadFromHex] encodes returns the
    very string that was encoded, character for character. *)
Theorem extract_after_create_is_identity txHex network accessibility :
  is_hex txHex →
  and_then (createPaymentPayloadFromHex txHex network accessibility)
    extractTransactionFromPayload
  = Return (Val (JString txHex)).
Proof.
  intros Hhex. apply is_hex_plain in Hhex.
  unfold createPaymentPayloadFromHex, and_then at 1.
  unfold extractTransactionFromPayload, parsePaymentPayload.
  rewrite from_base64_toString_base64, toString_utf8_from_utf8.
  rewrite (parse_stringify _ _ _ Hhex).
  unfold paymentPayload. destruct network, accessibility; reflexivity.
Qed.

Lemma extract_after_create_is_identity_witness :
  and_then (createPaymentPayloadFromHex mixedCaseTxHex testnet None)
    extractTransactionFromPayload = Return (Val (JString mixedCaseTxHex))
  ∧ and_then (createPaymentPayloadFromHex validTxHex mainnet None)
      extractTransactionFromPayload = Return (Val (JString validTxHex)).
Proof.
  split; apply extract_after_create_is_identity;
    apply is_hex_check; vm_compute; reflexivity.
Defined.

(** ** The envelope, decoded and validated *)

Import PaymentInspection.

Lemma parsePaymentPayload_created txHex network accessibility :
  Forall plain (list_ascii_of_string txHex) →
  parsePaymentPayload
    (toString_base64 (from_utf8 (stringify (paymentPayload txHex network accessibility))))
  = Return (paymentPayload txHex network accessibility).
Proof.
  intros Hp. unfold parsePaymentPayload.
  rewrite from_base64_toString_base64, toString_utf8_from_utf8.
  rewrite (parse_stringify _ _ _ Hp).
  unfold paymentPayload. destruct network, accessibility; reflexivity.
Qed.

Lemma extract_created txHex network accessibility :
  Forall plain (list_ascii_of_string txHex) →
  extractTransactionFromPayload
    (toString_base64 (from_utf8 (stringify (paymentPayload txHex network accessibility))))
  = Return (Val (JString txHex)).
Proof.
  intros Hp. unfold extractTransactionFromPayload.
  rewrite (parsePaymentPayload_created _ _ _ Hp).
  unfold paymentPayload. destruct network, accessibility; reflexivity.
Qed.

(** X15.  Decoding what was encoded gives the envelope back.  For every
    transaction text of plain characters (every hex string, and the empty
    string), either network and any accessibility preferences,
    [parsePaymentPayload] returns, from the text that
    [createPaymentPayloadFromHex] produced, the object that was encoded:
    version 1, scheme [exact], the network name, the transaction, and the
    preferences if any. *)
Theorem parsePaymentPayload_inverts_create txHex network accessibility :
  Forall plain (list_ascii_of_string txHex) →
  and_then (createPaymentPayloadFromHex txHex network accessibility)
    parsePaymentPayload
  = Return (paymentPayload txHex network accessibility)
  ∧ get (Val (paymentPayload txHex network accessibility)) "x402Version"
    = Return (Val (JNumber 1 0))
  ∧ get (Val (paymentPayload txHex network accessibility)) "scheme"
    = Return (Val (JString "exact"))
  ∧ get (Val (paymentPayload txHex network accessibility)) "network"
    = Return (Val (JString (match network with
                            | testnet => "bsv-testnet"
                            | mainnet => "bsv-mainnet"
                            end)))
  ∧ get (Val (paymentPayload txHex network accessibility)) "payload"
    = Return (Val (JObject [("transaction", JString txHex)]))
  ∧ get (Val (paymentPayload txHex network accessibility)) "accessibility"
    = Return (match accessibility with
              | Some a => Val (accessibility_value a)
              | None => Undefined
              end).
Proof.
  intros Hp. split.
  - unfold createPaymentPayloadFromHex. simpl and_then.
    by apply parsePaymentPayload_created.
  - unfold paymentPayload. destruct network, accessibility; done.
Qed.

Lemma parsePaymentPayload_inverts_create_witness :
  and_then (createPaymentPayloadFromHex "" testnet None) parsePaymentPayload
  = Return (paymentPayload "" testnet None)
  ∧ and_then (createPaymentPayloadFromHex validTxHex mainnet None) parsePaymentPayload
    = Return (paymentPayload validTxHex mainnet None).
Proof.
  split.
  - apply (parsePaymentPayload_inverts_create "" testnet None). constructor.
  - apply (parsePaymentPayload_inverts_create validTxHex mainnet None).
    apply is_hex_plain, is_hex_check. vm_compute. reflexivity.
Defined.

(** X16.  The verdict of [validatePaymentPayload] on what
    [createPaymentPayloadFromHex] produces.  A payload made from a
    transaction text that is not empty is valid, with no errors; one made
    from the empty text (which [createPaymentPayloadFromHex] accepts) is
    invalid, with the two errors for a missing and for an empty
    transaction, in this order.  In both cases the decoded envelope is
    returned with the verdict. *)
Theorem validatePaymentPayload_of_created txHex network accessibility :
  Forall plain (list_ascii_of_string txHex) →
  ∀ payloadBase64,
    createPaymentPayloadFromHex txHex network accessibility = Return payloadBase64 →
    validatePaymentPayload payloadBase64
    = {| valid := negb (String.eqb txHex "");
         errors := if String.eqb txHex "" then [TransactionMissing; TransactionEmpty]
                   else [];
         validated := Some (paymentPayload txHex network accessibility) |}.
Proof.
  intros Hp payloadBase64 H.
  assert (payloadBase64 = toString_base64 (from_utf8 (stringify
            (paymentPayload txHex network accessibility)))) as ->
    by (unfold createPaymentPayloadFromHex in H; congruence).
  clear H. unfold validatePaymentPayload.
  rewrite (parsePaymentPayload_created _ _ _ Hp), (extract_created _ _ _ Hp).
  assert (Hlen : (Z.of_nat (String.length txHex) =? 0) = String.eqb txHex "")
    by (by destruct txHex).
  assert (Hq : ∀ n : Z, Qeq_bool (inject_Z n * Qpower 10 0) (inject_Z 0) = (n =? 0)).
  { intros n. unfold Qeq_bool, Qpower, inject_Z, Qmult. simpl.
    rewrite !Z.mul_1_r. done. }
  unfold paymentPayload.
  destruct network, accessibility; simpl; rewrite Hq, Hlen;
    by destruct (String.eqb txHex "").
Qed.

Lemma validatePaymentPayload_of_created_witness :
  (∃ payloadBase64,
     createPaymentPayloadFromHex mixedCaseTxHex testnet None = Return payloadBase64 ∧
     valid (validatePaymentPayload payloadBase64) = true)
  ∧ (∃ payloadBase64,
       createPaymentPayloadFromHex "" testnet None = Return payloadBase64 ∧
       errors (validatePaymentPayload payloadBase64)
       = [TransactionMissing; TransactionEmpty]).
Proof.
  split; eexists; (split; [reflexivity|]).
  - rewrite (validatePaymentPayload_of_created mixedCaseTxHex testnet None
               ltac:(apply is_hex_plain, is_hex_check; vm_compute; reflexivity)
               _ eq_refl).
    reflexivity.
  - rewrite (validatePaymentPayload_of_created "" testnet None
               ltac:(constructor) _ eq_refl).
    reflexivity.
Defined.

Lemma startsWith_prefix p s q :
  startsWith s q = true → startsWith (p +:+ s) (p +:+ q) = true.
Proof.
  intros H. induction p as [|c p IH]; simpl; [done|].
  by rewrite Ascii.eqb_refl.
Qed.

Lemma parsePaymentPayload_Return payloadBase64 payload :
  parsePaymentPayload payloadBase64 = Return payload →
  ∃ members, payload = JObject members ∧
    falsy (member "x402Version" members) = false ∧
    falsy (member "scheme" members) = false ∧
    falsy (member "network" members) = false ∧
    falsy (member "payload" members) = false.
Proof.
  unfold parsePaymentPayload.
  destruct (parse _) as [v|e]; [|done]. simpl and_then.
  destruct v as [| | | | |members]; try done.
  simpl.
  destruct (falsy (member "x402Version" members)) eqn:H1; [done|].
  destruct (falsy (member "scheme" members)) eqn:H2; [done|].
  destruct (falsy (member "network" members)) eqn:H3; [done|].
  destruct (falsy (member "payload" members)) eqn:H4; [done|].
  intros [= <-]. by exists members.
Qed.

Lemma parsePaymentPayload_Throw payloadBase64 e :
  parsePaymentPayload payloadBase64 = Throw e →
  startsWith (message e) "Error al parsear payload X402: " = true.
Proof.
  unfold parsePaymentPayload, rethrow.
  destruct (and_then _ _); [done|]. by intros [= <-].
Qed.



(** X18.  [createPaymentPayload] encodes what the transaction serialises
    to.  When [toHex] returns a text of plain characters, the payload is
    the one [createPaymentPayloadFromHex] makes of that text, and reading
    the transaction back from it returns that text; when [toHex] throws,
    the error is passed on under the prefix of the function. *)
Theorem createPaymentPayload_carries_toHex {Transaction : Type}
    (toHex : Transaction → completion string) tx network accessibility :
  (∀ txHex, toHex tx = Return txHex →
     createPaymentPayload toHex tx network accessibility
     = createPaymentPayloadFromHex txHex network accessibility
     ∧ (Forall plain (list_ascii_of_string txHex) →
        and_then (createPaymentPayload toHex tx network accessibility)
          extractTransactionFromPayload
        = Return (Val (JString txHex))))
  ∧ (∀ e, toHex tx = Throw e →
       createPaymentPayload toHex tx network accessibility
       = Throw (Error ("Error al crear payload X402: " +:+ message e))).
Proof.
  split.
  - intros txHex H. unfold createPaymentPayload. rewrite H.
    split; [done|]. intros Hp. simpl and_then. unfold rethrow.
    by apply extract_created.
  - intros e H. unfold createPaymentPayload. by rewrite H.
Qed.

Lemma createPaymentPayload_carries_toHex_witness :
  and_then
    (createPaymentPayload (Transaction := Z) (λ _, Return mixedCaseTxHex) 7 testnet None)
    extractTransactionFromPayload
  = Return (Val (JString mixedCaseTxHex)).
Proof.
  destruct (createPaymentPayload_carries_toHex (Transaction := Z)
              (λ _, Return mixedCaseTxHex) 7 testnet None) as [H _].
  apply (H mixedCaseTxHex eq_refl).
  apply is_hex_plain, is_hex_check. vm_compute. reflexivity.
Defined.

(** ** Credential vault *)

Import WalletCrypto.

(** C1.  The key derivation that [encryptWif] and [decryptWif] run.
    [deriveKey] passes password, salt and the key length of 32 bytes to
    scrypt and no options, so scrypt runs with Node's default cost of
    16384 = 2^14, block size 8 and parallelization 1: the cost 32768 of
    [SCRYPT_PARAMS] is not used. *)
Theorem deriveKey_runs_default_cost :
  (∀ scrypt_kdf password salt,
     deriveKey scrypt_kdf password salt
     = scrypt_kdf password salt
         {| cost := 16384; blockSize := 8; parallelization := 1 |} 32%nat)
  ∧ cost node_scrypt_defaults = 2 ^ 14
  ∧ N SCRYPT_PARAMS = 2 ^ 15
  ∧ deriveKey ToyCrypto.scrypt_kdf testPassword []
    ≠ ToyCrypto.scrypt_kdf testPassword []
        {| cost := N SCRYPT_PARAMS; blockSize := r SCRYPT_PARAMS;
           parallelization := p SCRYPT_PARAMS |} (keyLen SCRYPT_PARAMS).
Proof.
  split_and!; [done | done | done |].
  vm_compute. discriminate.
Qed.

Section Vault.
Variable scrypt_kdf : string → Buffer → ScryptOptions → nat → Buffer.
Variable gcm_crypt : Buffer → Buffer → Buffer → Buffer.
Variable gcm_tag : Buffer → Buffer → Buffer → Buffer.
Variable entropy : nat → ascii.

(** scrypt returns as many bytes as it is asked for. *)
Hypothesis scrypt_length :
  ∀ password salt options keylen,
    length (scrypt_kdf password salt options keylen) = keylen.

Local Abbreviation decrypt := (decryptWif scrypt_kdf gcm_crypt gcm_tag).
Local Abbreviation encrypt := (encryptWif scrypt_kdf gcm_crypt gcm_tag entropy).
Local Abbreviation key_of := (deriveKey scrypt_kdf).

Lemma invalid_tag_length_is_authentication n :
  includes ("Invalid authentication tag length: " +:+ n) "auth" = true.
Proof. reflexivity. Qed.

(** What [decryptWif] does with data of the right algorithm and a
    non-empty IV: the plaintext when the tag is the tag of the ciphertext
    under the derived key, the authentication error otherwise. *)
Lemma decryptWif_spec encrypted password :
  algorithm encrypted = ALGORITHM →
  from_base64 (iv encrypted) ≠ [] →
  let key := key_of password (from_base64 (salt encrypted)) in
  let iv := from_base64 (iv encrypted) in
  let data := from_base64 (data encrypted) in
  decrypt encrypted password
  = if decide (from_base64 (authTag encrypted) = gcm_tag key iv data
               ∧ length (from_base64 (authTag encrypted)) = 16%nat)
    then Return (toString_utf8 (gcm_crypt key iv data))
    else Throw authentication_failed.
Proof.
  intros Halg Hiv key iv0 data0.
  assert (Hkey : (length key =? 32)%nat = true)
    by (apply Nat.eqb_eq, scrypt_length).
  assert (Hnonempty : (length iv0 =? 0)%nat = false).
  { apply Nat.eqb_neq. unfold iv0.
    destruct (from_base64 (iv encrypted)); [done | simpl; lia]. }
  unfold decryptWif. rewrite Halg. simpl negb. cbv iota.
  fold key iv0 data0.
  unfold check_key_iv. rewrite Hkey, Hnonempty.
  simpl and_then at 1. unfold setAuthTag.
  destruct (length (from_base64 (authTag encrypted)) =? 16)%nat eqn:Hlen.
  - apply Nat.eqb_eq in Hlen. simpl and_then at 1. unfold decipher_final.
    destruct (decide (from_base64 (authTag encrypted) = gcm_tag key iv0 data0))
      as [Htag|Htag].
    + simpl. rewrite app_nil_r. by rewrite decide_True.
    + simpl. rewrite decide_False by tauto. done.
  - apply Nat.eqb_neq in Hlen. simpl and_then.
    rewrite decide_False by tauto.
    simpl message. by rewrite invalid_tag_length_is_authentication, orb_true_r.
Qed.

Lemma encryptWif_Return wif password encrypted :
  encrypt wif password = Return encrypted →
  let salt := randomBytes entropy 0 SALT_LENGTH in
  let iv := randomBytes entropy SALT_LENGTH IV_LENGTH in
  let key := key_of password salt in
  let ciphertext := gcm_crypt key iv (from_utf8 wif) in
  encrypted = {| algorithm := ALGORITHM;
                 salt := toString_base64 salt;
                 iv := toString_base64 iv;
                 authTag := toString_base64 (gcm_tag key iv ciphertext);
                 data := toString_base64 ciphertext |}.
Proof.
  unfold encryptWif, rethrow.
  destruct (String.eqb wif "" || _); [discriminate|].
  destruct (String.eqb password "" || _); [discriminate|].
  unfold check_key_iv.
  replace (length (deriveKey scrypt_kdf password (randomBytes entropy 0 SALT_LENGTH)) =? 32)%nat
    with true by (symmetry; apply Nat.eqb_eq; apply scrypt_length).
  simpl. rewrite app_nil_r. by intros [= <-].
Qed.


End Vault.


(** ** The vault, opened and refused *)

Import WalletCryptoChecks.

Lemma blank_wif_check wif :
  (String.eqb wif "" || (String.length (trim wif) =? 0)%nat) = true ↔ trim wif = "".
Proof.
  split.
  - intros [H|H]%orb_true_iff.
    + by apply String.eqb_eq in H as ->.
    + apply Nat.eqb_eq in H. by destruct (trim wif).
  - intros H. rewrite H. simpl. apply orb_true_r.
Qed.

Lemma empty_password_check password :
  (String.eqb password "" || (String.length password =? 0)%nat) = true ↔ password = "".
Proof.
  split.
  - intros [H|H]%orb_true_iff.
    + by apply String.eqb_eq in H.
    + apply Nat.eqb_eq in H. by destruct password.
  - by intros ->.
Qed.

Section VaultRoundTrip.
Variable scrypt_kdf : string → Buffer → ScryptOptions → nat → Buffer.
Variable gcm_crypt : Buffer → Buffer → Buffer → Buffer.
Variable gcm_tag : Buffer → Buffer → Buffer → Buffer.
Variable entropy : nat → ascii.

(** scrypt returns as many bytes as it is asked for; the key stream of
    AES-256-GCM is its own inverse; its tag has 16 bytes. *)
Hypothesis scrypt_length :
  ∀ password salt options keylen,
    length (scrypt_kdf password salt options keylen) = keylen.
Hypothesis gcm_crypt_involutive :
  ∀ key iv text, gcm_crypt key iv (gcm_crypt key iv text) = text.
Hypothesis gcm_tag_length :
  ∀ key iv ciphertext, length (gcm_tag key iv ciphertext) = 16%nat.

Local Abbreviation decrypt := (decryptWif scrypt_kdf gcm_crypt gcm_tag).
Local Abbreviation encrypt := (encryptWif scrypt_kdf gcm_crypt gcm_tag entropy).

Lemma encryptWif_succeeds wif password :
  trim wif ≠ "" → password ≠ "" →
  let salt := randomBytes entropy 0 SALT_LENGTH in
  let iv := randomBytes entropy SALT_LENGTH IV_LENGTH in
  let key := deriveKey scrypt_kdf password salt in
  let ciphertext := gcm_crypt key iv (from_utf8 wif) in
  encrypt wif password
  = Return {| algorithm := ALGORITHM;
              salt := toString_base64 salt;
              iv := toString_base64 iv;
              authTag := toString_base64 (gcm_tag key iv ciphertext);
              data := toString_base64 ciphertext |}.
Proof.
  intros Hwif Hpw salt0 iv0 key ciphertext.
  unfold encryptWif.
  destruct (String.eqb wif "" || _) eqn:H1.
  { by apply blank_wif_check in H1. }
  destruct (String.eqb password "" || _) eqn:H2.
  { by apply empty_password_check in H2. }
  unfold check_key_iv. fold salt0 iv0 key.
  replace (length key =? 32)%nat with true
    by (symmetry; apply Nat.eqb_eq; apply scrypt_length).
  simpl. rewrite app_nil_r. done.
Qed.



(** X21.  Data of another algorithm is not opened.  When the algorithm
    name is not [aes-256-gcm], [decryptWif] throws without deriving a key:
    the error names the algorithm, under the prefix of the function,
    unless the name contains one of the markers by which [decryptWif]
    recognises an authentication failure, in which case the error is the
    one for a wrong passphrase.  [validateEncryptedData] rejects the
    object of such data. *)
Theorem decryptWif_refuses_other_algorithms encrypted password :
  algorithm encrypted ≠ ALGORITHM →
  decrypt encrypted password
  = (if includes (algorithm encrypted) "Unsupported state"
        || includes (algorithm encrypted) "auth"
        || includes (algorithm encrypted) "TAG"
     then Throw authentication_failed
     else Throw (Error ("Error al desencriptar WIF: Algoritmo no soportado: " +:+
                        algorithm encrypted)))
  ∧ validateEncryptedData (Val (encrypted_object encrypted)) = false.
Proof.
  intros Halg. split.
  - unfold decryptWif.
    apply String.eqb_neq in Halg. rewrite Halg. simpl negb. cbv iota.
    simpl message.
    assert (H : ∀ needle, 
              needle = "Unsupported state" ∨ needle = "auth" ∨ needle = "TAG" →
              includes ("Algoritmo no soportado: " +:+ algorithm encrypted) needle
              = includes (algorithm encrypted) needle).
    { intros needle [-> | [-> | ->] ]; reflexivity. }
    rewrite !H by tauto. done.
  - unfold validateEncryptedData. simpl.
    apply String.eqb_neq in Halg. by rewrite Halg.
Qed.

End VaultRoundTrip.

Lemma toy_scrypt_length password salt options keylen :
  length (ToyCrypto.scrypt_kdf password salt options keylen) = keylen.
Proof.
  unfold ToyCrypto.scrypt_kdf, ToyCrypto.fit.
  rewrite length_take, length_app, length_replicate. lia.
Qed.

Lemma toy_gcm_tag_length key iv ciphertext :
  length (ToyCrypto.gcm_tag key iv ciphertext) = 16%nat.
Proof.
  unfold ToyCrypto.gcm_tag, ToyCrypto.fit.
  rewrite length_take, length_app, length_replicate. lia.
Qed.



Lemma decryptWif_refuses_other_algorithms_witness :
  ToyCrypto.decryptWif legacy_data testPassword
  = Throw (Error "Error al desencriptar WIF: Algoritmo no soportado: aes-256-cbc").
Proof.
  apply (decryptWif_refuses_other_algorithms ToyCrypto.scrypt_kdf ToyCrypto.gcm_crypt
           ToyCrypto.gcm_tag legacy_data testPassword).
  vm_compute. discriminate.
Defined.

(** ** The wallet manager *)

Import WalletManager.

Lemma short_password_check password :
  (String.eqb password "" || (String.length password <? 8)%nat) = true
  ↔ (String.length password < 8)%nat.
Proof.
  split.
  - intros [H|H]%orb_true_iff.
    + apply String.eqb_eq in H as ->. simpl. lia.
    + by apply Nat.ltb_lt in H.
  - intros H. apply orb_true_iff. right. by apply Nat.ltb_lt.
Qed.

Lemma length_string_of_list l :
  String.length (string_of_list_ascii l) = length l.
Proof. induction l as [|c l IH]; simpl; [done | by rewrite IH]. Qed.

Section ManagerProperties.
Context {Storage PrivateKey PublicKey : Type}.
Variable storage_loadWallet : Storage → string → completion WalletData.
Variable storage_saveWallet : Storage → WalletData → completion Storage.
Variable storage_deleteWallet : Storage → string → completion Storage.
Variable scrypt_kdf : string → Buffer → ScryptOptions → nat → Buffer.
Variable gcm_crypt : Buffer → Buffer → Buffer → Buffer.
Variable gcm_tag : Buffer → Buffer → Buffer → Buffer.
Variable fromWif : string → completion PrivateKey.
Variable toPublicKey : PrivateKey → PublicKey.
Variable toAddress : PublicKey → option string → string.

Hypothesis scrypt_length :
  ∀ password salt options keylen,
    length (scrypt_kdf password salt options keylen) = keylen.
Hypothesis gcm_crypt_involutive :
  ∀ key iv text, gcm_crypt key iv (gcm_crypt key iv text) = text.
Hypothesis gcm_tag_length :
  ∀ key iv ciphertext, length (gcm_tag key iv ciphertext) = 16%nat.

Local Abbreviation decrypt := (decryptWif scrypt_kdf gcm_crypt gcm_tag).
Local Abbreviation export :=
  (exportWif storage_loadWallet scrypt_kdf gcm_crypt gcm_tag).
Local Abbreviation change :=
  (changePassword storage_loadWallet storage_saveWallet scrypt_kdf gcm_crypt gcm_tag).
Local Abbreviation remove :=
  (removeWallet storage_loadWallet storage_deleteWallet scrypt_kdf gcm_crypt gcm_tag).
Local Abbreviation import :=
  (importWallet storage_saveWallet scrypt_kdf gcm_crypt gcm_tag fromWif
     toPublicKey toAddress).
Local Abbreviation load :=
  (loadWallet storage_loadWallet scrypt_kdf gcm_crypt gcm_tag fromWif toPublicKey).


(** X23.  What [removeWallet] checks before it deletes.  Without a
    password, or with the empty one, nothing is checked: the outcome is
    that of deleting the file.  With a password, a wallet that the
    password does not open stays: when its tag is not the tag of its
    ciphertext under the key derived from the password, the call fails
    with the error for a wrong password, under its own prefix, and the
    directory is left as it was. *)
Theorem removeWallet_checks_a_given_password s walletId :
  remove s walletId None
  = run s (storage_deleteWallet s walletId) "Error al eliminar wallet: "
  ∧ remove s walletId (Some "")
    = run s (storage_deleteWallet s walletId) "Error al eliminar wallet: "
  ∧ ∀ password wallet,
      password ≠ "" →
      storage_loadWallet s walletId = Return wallet →
      algorithm (wallet_encrypted wallet) = ALGORITHM →
      from_base64 (iv (wallet_encrypted wallet)) ≠ [] →
      from_base64 (authTag (wallet_encrypted wallet))
      ≠ gcm_tag (deriveKey scrypt_kdf password
                   (from_base64 (salt (wallet_encrypted wallet))))
          (from_base64 (iv (wallet_encrypted wallet)))
          (from_base64 (data (wallet_encrypted wallet))) →
      remove s walletId (Some password)
      = (Throw (Error "Error al eliminar wallet: Password incorrecto o datos corruptos"),
         s).
Proof.
  split_and!; [done | done |].
  intros password wallet Hpw Hload Halg Hiv Htag.
  unfold removeWallet.
  apply String.eqb_neq in Hpw. rewrite Hpw, Hload. simpl and_then at 2.
  rewrite (decryptWif_spec scrypt_kdf gcm_crypt gcm_tag scrypt_length _ _ Halg Hiv).
  rewrite decide_False; [done | intros [Heq _]; congruence].
Qed.


End ManagerProperties.


Lemma removeWallet_checks_a_given_password_witness :
  ToyStorage.removeWallet one_wallet "w1" (Some "wrong-password")
  = (Throw (Error "Error al eliminar wallet: Password incorrecto o datos corruptos"),
     one_wallet)
  ∧ ToyStorage.removeWallet one_wallet "w1" (Some "") = (Return tt, []).
Proof.
  destruct (removeWallet_checks_a_given_password ToyStorage.loadWallet
              ToyStorage.deleteWallet ToyCrypto.scrypt_kdf ToyCrypto.gcm_crypt
              ToyCrypto.gcm_tag toy_scrypt_length one_wallet "w1")
    as (_ & Hempty & Hwrong).
  split.
  - apply (Hwrong "wrong-password" stored_wallet);
      [discriminate | reflexivity | reflexivity
      | vm_compute; discriminate | vm_compute; discriminate].
  - unfold ToyStorage.removeWallet. rewrite Hempty. vm_compute. reflexivity.
Defined.


(** ** The price cache *)

(** X25.  A cached value is served until it expires.  After [set] at
    time [now], [get] returns the value at any time up to and including
    [now + ttlMs] and changes nothing.  At any later time it returns
    [null] and removes the entry, so that its age is no longer known and
    later reads miss.  Until such a read, [getAge] reports the age of the
    entry whether it has expired or not.  Other keys are not affected by
    either, and after [clear] every read misses. *)
Theorem PriceCache_serves_until_expiry {T} (c : PriceCache.PriceCache T)
    now key value :
  let c' := PriceCache.set c now key value in
  (∀ later, later ≤ now + PriceCache.ttlMs c →
     PriceCache.get c' later key = (Some value, c'))
  ∧ (∀ later, now + PriceCache.ttlMs c < later →
       let after := (PriceCache.get c' later key).2 in
       (PriceCache.get c' later key).1 = None ∧
       PriceCache.getAge after later key = None ∧
       PriceCache.get after later key = (None, after) ∧
       ∀ other, other ≠ key →
         PriceCache.cache after !! other = PriceCache.cache c !! other)
  ∧ (∀ later, PriceCache.getAge c' later key = Some (later - now))
  ∧ (∀ other later, other ≠ key →
       (PriceCache.get c' later other).1 = (PriceCache.get c later other).1 ∧
       PriceCache.getAge c' later other = PriceCache.getAge c later other)
  ∧ (∀ later any,
       PriceCache.get (PriceCache.clear c') later any
       = (None, PriceCache.clear c')).
Proof.
  intros c'. split_and!.
  - intros later Hlater. unfold PriceCache.get, c', PriceCache.set. simpl.
    rewrite lookup_insert_eq. simpl.
    destruct (now + PriceCache.ttlMs c <? later) eqn:H; [|done].
    apply Z.ltb_lt in H. lia.
  - intros later Hlater after.
    assert (Hget : PriceCache.get c' later key
                   = (None, {| PriceCache.cache := delete key (PriceCache.cache c');
                               PriceCache.ttlMs := PriceCache.ttlMs c' |})).
    { unfold PriceCache.get, c', PriceCache.set. simpl.
      rewrite lookup_insert_eq. simpl.
      apply Z.ltb_lt in Hlater. by rewrite Hlater. }
    unfold after. rewrite Hget. simpl. split_and!.
    + done.
    + unfold PriceCache.getAge. simpl. by rewrite lookup_delete_eq.
    + unfold PriceCache.get. simpl. by rewrite lookup_delete_eq.
    + intros other Hother.
      rewrite lookup_delete_ne by done. by rewrite lookup_insert_ne.
  - intros later. unfold PriceCache.getAge, c', PriceCache.set. simpl.
    by rewrite lookup_insert_eq.
  - intros other later Hother.
    unfold PriceCache.get, PriceCache.getAge, c', PriceCache.set. simpl.
    rewrite lookup_insert_ne by done.
    split; [|done].
    destruct (PriceCache.cache c !! other) as [entry|]; [|done].
    by destruct (PriceCache.expiresAt entry <? later).
  - intros later any. unfold PriceCache.get, PriceCache.clear. simpl.
    by rewrite lookup_empty.
Qed.

Lemma PriceCache_serves_until_expiry_witness :
  PriceCache.get (PriceCache.set (PriceCache.priceCache (T := Z)) 1000 "bsv-price" 42)
    181000 "bsv-price"
  = (Some 42, PriceCache.set PriceCache.priceCache 1000 "bsv-price" 42)
  ∧ (PriceCache.get (PriceCache.set (PriceCache.priceCache (T := Z)) 1000 "bsv-price" 42)
       181001 "bsv-price").1 = None.
Proof.
  destruct (PriceCache_serves_until_expiry (PriceCache.priceCache (T := Z))
              1000 "bsv-price" 42) as (Hfresh & Hstale & _).
  split.
  - apply Hfresh. vm_compute. discriminate.
  - apply (Hstale 181001). vm_compute. reflexivity.
Defined.

(** ** The price client *)

Section PriceLoop.
Variable config : RetryConfig.
Variable includeMarketData : bool.
Variable now : string.
Variable remote : nat → Reply Json.value.

Local Abbreviation loop :=
  (CoinGecko.price_loop config includeMarketData now remote).

Lemma try_price_transient reply :
  transient reply = true →
  ∃ error, reply = Rejected (IsAxiosError error) ∧
    CoinGecko.try_price includeMarketData now reply = inr (IsAxiosError error) ∧
    isRetryableError error = true.
Proof.
  intros H. apply transient_inv in H as (error & -> & Hre). by exists error.
Qed.

Lemma price_loop_retries n :
  ∀ fuel attempt slept,
    (∀ j, (attempt ≤ j < attempt + n)%nat → transient (remote j) = true) →
    Z.of_nat (attempt + n) ≤ maxRetries config →
    (n ≤ fuel)%nat →
    loop fuel attempt slept
    = loop (fuel - n) (attempt + n)
        (slept ++ ((λ a, getBackoffDelay a config) <$> seq attempt n)).
Proof.
  induction n as [|n IH]; intros fuel attempt slept Htr Hmax Hfuel.
  - simpl. by rewrite Nat.sub_0_r, Nat.add_0_r, app_nil_r.
  - destruct fuel as [|fuel]; [lia|].
    destruct (try_price_transient (remote attempt)) as (error & _ & Htry & Hre).
    { apply Htr. lia. }
    simpl CoinGecko.price_loop at 1. rewrite Htry, Hre.
    assert (Hlt : (Z.of_nat attempt <? maxRetries config) = true)
      by (apply Z.ltb_lt; lia).
    rewrite Hlt. simpl andb.
    rewrite IH; [|intros j Hj; apply Htr; lia|lia|lia].
    replace (S attempt + n)%nat with (attempt + S n)%nat by lia.
    replace (S fuel - S n)%nat with (fuel - n)%nat by lia.
    rewrite <- app_assoc. by destruct (CoinGecko.is_429 error).
Qed.

Lemma price_loop_Return fuel :
  ∀ attempt slept result slept',
    loop fuel attempt slept = (Return result, slept') →
    ∃ n, CoinGecko.try_price includeMarketData now (remote (attempt + n)%nat)
         = inl result ∧
      slept' = slept ++ ((λ a, getBackoffDelay a config) <$> seq attempt n).
Proof.
  induction fuel as [|fuel IH]; intros attempt slept result slept' H; [done|].
  simpl in H.
  destruct (CoinGecko.try_price includeMarketData now (remote attempt))
    as [r|[error|e]] eqn:Htry.
  - injection H as <- <-. exists 0%nat.
    rewrite Nat.add_0_r, app_nil_r. done.
  - assert (Hnext : loop fuel (S attempt) (slept ++ [getBackoffDelay attempt config])
                    = (Return result, slept')).
    { destruct (CoinGecko.is_429 error).
      - by destruct (Z.of_nat attempt <? maxRetries config).
      - by destruct (isRetryableError error && _). }
    apply IH in Hnext as (n & Hn & ->).
    exists (S n). replace (attempt + S n)%nat with (S attempt + n)%nat by lia.
    split; [done|]. rewrite <- app_assoc. done.
  - done.
Qed.

End PriceLoop.

Lemma try_price_Return includeMarketData now reply result :
  CoinGecko.try_price includeMarketData now reply = inl result →
  ∃ body data,
    reply = Fulfilled 200 body ∧
    Json.get (Val body) "bitcoin-sv" = Return data ∧
    Json.get data "usd" = Return (CoinGecko.prices_usd result) ∧
    Json.get data "eur" = Return (CoinGecko.prices_eur result) ∧
    falsy (CoinGecko.prices_usd result) = false ∧
    falsy (CoinGecko.prices_eur result) = false ∧
    CoinGecko.timestamp result = now ∧
    (is_Some (CoinGecko.marketData result) → includeMarketData = true).
Proof.
  unfold CoinGecko.try_price.
  destruct reply as [st body|t]; [|done].
  destruct (st =? 200) eqn:Hst; [|done]. apply Z.eqb_eq in Hst as ->.
  destruct (Json.get (Val body) "bitcoin-sv") as [data|e] eqn:Hdata; [|done].
  destruct (falsy data); [done|].
  destruct (Json.get data "usd") as [usd|e] eqn:Hu; [|done].
  destruct (Json.get data "eur") as [eur|e] eqn:He; [|done].
  destruct (falsy usd) eqn:Husd; [done|].
  destruct (falsy eur) eqn:Heur; [done|].
  intros [= <-]. exists body, data. cbn [CoinGecko.prices_usd CoinGecko.prices_eur
    CoinGecko.timestamp CoinGecko.marketData]. split_and!; try done.
  destruct includeMarketData; [done|]. by intros [? ?].
Qed.

(** X26.  How [getBsvPrice] ends when its attempts run out.  When every
    reply up to the last attempt allowed is a failure that is retried,
    the call has slept all the backoff delays, and the last reply
    decides the error: a 429 gives the message for an exceeded rate
    limit, any other failure the message of the HTTP error under the
    prefix of the function. *)
Theorem getBsvPrice_when_attempts_run_out config now axios_get includeMarketData
    error :
  0 ≤ maxRetries config →
  let remote := axios_get "https://api.coingecko.com/api/v3/simple/price" in
  let last := Z.to_nat (maxRetries config) in
  (∀ j, (j < last)%nat → transient (remote j) = true) →
  remote last = Rejected (IsAxiosError error) →
  CoinGecko.getBsvPrice config now axios_get includeMarketData
  = (Throw (Error (if CoinGecko.is_429 error
                   then "CoinGecko rate limit exceeded. Please try again in a few minutes."
                   else "Error fetching BSV price: " +:+ axios_message error)),
     backoff_delays config last).
Proof.
  intros Hmax remote last Htr Hlast.
  unfold CoinGecko.getBsvPrice.
  change ("https://api.coingecko.com/api/v3" +:+ "/simple/price")
    with "https://api.coingecko.com/api/v3/simple/price".
  fold remote.
  rewrite (price_loop_retries config includeMarketData now remote last);
    [|intros j Hj; apply Htr; lia | lia | unfold iterations; lia].
  replace (iterations config - last)%nat with 1%nat by (unfold iterations; lia).
  simpl. rewrite Hlast. simpl.
  assert (Hge : (Z.of_nat last <? maxRetries config) = false)
    by (apply Z.ltb_ge; lia).
  rewrite Hge, andb_false_r.
  by destruct (CoinGecko.is_429 error).
Qed.

Lemma getBsvPrice_when_attempts_run_out_witness :
  CoinGecko.getBsvPrice DEFAULT_RETRY_CONFIG "2025-01-01T00:00:00.000Z"
    always_429 false
  = (Throw (Error "CoinGecko rate limit exceeded. Please try again in a few minutes."),
     [1000; 2000; 4000]).
Proof.
  apply (getBsvPrice_when_attempts_run_out DEFAULT_RETRY_CONFIG
           "2025-01-01T00:00:00.000Z" always_429 false
           (http_error 429 DataAbsent));
    [simpl; lia | done | done].
Defined.

(** X27.  What [getBsvPrice] returns, and the replies it does not take
    for a price.  A result comes from a 200 reply, received after the
    retries whose delays were slept, whose entry for [bitcoin-sv] has
    truthy [usd] and [eur] prices; these are the prices returned, with
    the time of the reply, and market data only if asked for.  A 200
    reply whose entry lacks one of the prices, or has it at 0, ends the
    call at once with the error for an invalid format. *)
Theorem getBsvPrice_takes_only_quoted_prices config now axios_get includeMarketData :
  let remote := axios_get "https://api.coingecko.com/api/v3/simple/price" in
  (∀ result slept,
     CoinGecko.getBsvPrice config now axios_get includeMarketData
     = (Return result, slept) →
     slept = backoff_delays config (length slept) ∧
     ∃ body data,
       remote (length slept) = Fulfilled 200 body ∧
       Json.get (Val body) "bitcoin-sv" = Return data ∧
       Json.get data "usd" = Return (CoinGecko.prices_usd result) ∧
       Json.get data "eur" = Return (CoinGecko.prices_eur result) ∧
       falsy (CoinGecko.prices_usd result) = false ∧
       falsy (CoinGecko.prices_eur result) = false ∧
       CoinGecko.timestamp result = now ∧
       (is_Some (CoinGecko.marketData result) → includeMarketData = true))
  ∧ (0 ≤ maxRetries config →
     ∀ body data usd eur,
       remote 0%nat = Fulfilled 200 body →
       Json.get (Val body) "bitcoin-sv" = Return data →
       Json.get data "usd" = Return usd →
       Json.get data "eur" = Return eur →
       falsy usd || falsy eur = true →
       CoinGecko.getBsvPrice config now axios_get includeMarketData
       = (Throw (Error "Error fetching BSV price: Invalid response format from CoinGecko"),
          [])).
Proof.
  intros remote. split.
  - intros result slept H. unfold CoinGecko.getBsvPrice in H.
    change ("https://api.coingecko.com/api/v3" +:+ "/simple/price")
      with "https://api.coingecko.com/api/v3/simple/price" in H.
    fold remote in H.
    apply price_loop_Return in H as (n & Htry & ->). simpl in *.
    assert (Hlen : length ((λ a, getBackoffDelay a config) <$> seq 0 n) = n)
      by (by rewrite length_fmap, length_seq).
    rewrite Hlen. split; [done|].
    by apply try_price_Return in Htry.
  - intros Hmax body data usd eur Hreply Hdata Husd Heur Hfalsy.
    unfold CoinGecko.getBsvPrice.
    change ("https://api.coingecko.com/api/v3" +:+ "/simple/price")
      with "https://api.coingecko.com/api/v3/simple/price".
    fold remote. unfold iterations.
    destruct (Z.to_nat (maxRetries config + 1)) as [|fuel] eqn:E; [lia|].
    cbn [CoinGecko.price_loop]. rewrite Hreply. unfold CoinGecko.try_price.
    change (200 =? 200) with true. cbv iota. rewrite Hdata.
    destruct (falsy data) eqn:Hd; [done|].
    rewrite Husd, Heur.
    destruct (falsy usd); [done|]. simpl in Hfalsy. by rewrite Hfalsy.
Qed.

Lemma getBsvPrice_takes_only_quoted_prices_witness :
  CoinGecko.getBsvPrice DEFAULT_RETRY_CONFIG "2025-01-01T00:00:00.000Z"
    price_without_eur false
  = (Throw (Error "Error fetching BSV price: Invalid response format from CoinGecko"),
     [])
  ∧ ∃ result,
      CoinGecko.getBsvPrice DEFAULT_RETRY_CONFIG "2025-01-01T00:00:00.000Z"
        price_quoted false = (Return result, []) ∧
      falsy (CoinGecko.prices_usd result) = false.
Proof.
  destruct (getBsvPrice_takes_only_quoted_prices DEFAULT_RETRY_CONFIG
              "2025-01-01T00:00:00.000Z" price_without_eur false) as [_ Hbad].
  destruct (getBsvPrice_takes_only_quoted_prices DEFAULT_RETRY_CONFIG
              "2025-01-01T00:00:00.000Z" price_quoted false) as [Hgood _].
  split.
  - eapply (Hbad ltac:(simpl; lia)); [reflexivity..].
  - eexists. split; [vm_compute; reflexivity|].
    edestruct Hgood as (_ & body & data & _ & _ & _ & _ & Husd & _);
      [vm_compute; reflexivity|]. exact Husd.
Defined.
